(** * Texture-Expansion: the seamless-texture pipeline of
      services/imageProcessing.ts over a model of the 2D canvas.

    The program is a sequence of calls on HTML canvases.  The model keeps
    what the calls do to pixels:

    - a JavaScript number is an exact rational ([Q]); rounding error of the
      double arithmetic is not modelled;
    - a pixel is premultiplied RGBA with rational channels in [0,1] ([Qc],
      so that equal pixels are equal terms) and compositing is Porter-Duff
      without quantisation to 8 bits;
    - a canvas is a width, a height, a bitmap and the drawing state of its
      2D context; canvases live in a store and are named by handles, so that
      "the same canvas" and "an unmodified canvas" can be said;
    - what the browser leaves to the implementation (the resampling filter
      of a scaled or unaligned [drawImage], the blur filter, the evaluation
      of a radial gradient) is a parameter, the [Rasteriser];
    - [Math.random] reads the next value of a sequence that is a parameter;
    - an exception is a [Throw] result. *)

From Stdlib Require Import ZArith QArith Qcanon Qround Qabs Qminmax.
From Stdlib Require Import Bool String List Lia Lqa.
Import ListNotations.

Open Scope Z_scope.

(** ** Numbers *)

Module JS.

(** [Math.round]: the nearest integer, halves upwards. *)
Definition round (x : Q) : Z := Qfloor (x + (1 # 2)).

(** Conversion of a number to a canvas dimension: the fraction is dropped.
    (No value of this program reaches the 2^32 wrap of [unsigned long].) *)
Definition trunc (x : Q) : Z :=
  if Qle_bool 0 x then Qfloor x else Qceiling x.

Definition min (x y : Q) : Q := Qmin x y.

End JS.

(** ** Pixels and compositing *)

Record pixel : Type := RGBA { red : Qc; green : Qc; blue : Qc; alpha : Qc }.

Definition transparent : pixel := RGBA 0 0 0 0.

(** [rgba(r,g,b,a)] of CSS with r, g, b already divided by 255. *)
Definition rgba (r g b a : Q) : pixel :=
  RGBA (Q2Qc (r * a)) (Q2Qc (g * a)) (Q2Qc (b * a)) (Q2Qc a).

Definition scalePx (k : Qc) (p : pixel) : pixel :=
  RGBA (k * red p) (k * green p) (k * blue p) (k * alpha p).

(** source-over: the source on top of the destination. *)
Definition over (s d : pixel) : pixel :=
  RGBA (red s + red d * (1 - alpha s))
       (green s + green d * (1 - alpha s))
       (blue s + blue d * (1 - alpha s))
       (alpha s + alpha d * (1 - alpha s)).

(** destination-in: the destination kept where the source is opaque. *)
Definition dstIn (s d : pixel) : pixel := scalePx (alpha s) d.

Inductive CompositeOp : Type := SourceOver | DestinationIn.

Definition compose (op : CompositeOp) (s d : pixel) : pixel :=
  match op with
  | SourceOver => over s d
  | DestinationIn => dstIn s d
  end.

Definition opaque (p : pixel) : Prop := alpha p = 1%Qc.

Definition bitmap : Type := Z -> Z -> pixel.

Definition blank : bitmap := fun _ _ => transparent.

(** ** Drawing state and canvases *)

(** The current transformation matrix; the program only translates and
    scales, so the matrix stays axis-aligned:
    device x = [me] + [ma] * user x, device y = [mf] + [md] * user y. *)
Record matrix : Type := Matrix { ma : Q; md : Q; me : Q; mf : Q }.

Definition identity : matrix := Matrix 1 1 0 0.

Record gradient : Type := Gradient
  { gx0 : Q; gy0 : Q; gr0 : Q; gx1 : Q; gy1 : Q; gr1 : Q;
    stops : list (Q * pixel) }.

Inductive paint : Type :=
| Color (p : pixel)
| Radial (g : gradient).

Record drawState : Type := DrawState
  { ctm : matrix;
    globalAlpha : Q;
    globalCompositeOperation : CompositeOp;
    filter : option Q;          (* [Some r] is [blur(r px)], [None] is [none] *)
    fillStyle : paint;
    strokeStyle : paint;
    lineWidth : Q }.

Definition black : pixel := rgba 0 0 0 1.

Definition defaultState : drawState :=
  DrawState identity 1 SourceOver None (Color black) (Color black) 1.

Record canvas : Type := Canvas
  { width : Z;
    height : Z;
    bits : bitmap;
    state : drawState;
    saved : list drawState }.

Definition blankCanvas (w h : Z) : canvas := Canvas w h blank defaultState [].

Definition inside (w h x y : Z) : bool :=
  (0 <=? x) && (x <? w) && (0 <=? y) && (y <? h).

(** What [getImageData] reads: transparent black outside the canvas. *)
Definition getPixel (c : canvas) (x y : Z) : pixel :=
  if inside (width c) (height c) x y then bits c x y else transparent.

Definition setState (f : drawState -> drawState) (c : canvas) : canvas :=
  Canvas (width c) (height c) (bits c) (f (state c)) (saved c).

Definition setBits (b : bitmap) (c : canvas) : canvas :=
  Canvas (width c) (height c) b (state c) (saved c).

(** ** The implementation-defined part of the rasteriser *)

Record Rasteriser : Type := MkRasteriser
  { (** [resample w h bits x y kx ky]: the colour of an image of size
        [w]x[h] seen through a device pixel whose centre falls on the image
        point [(x,y)] and which spans [kx]x[ky] image pixels. *)
    resample : Z -> Z -> bitmap -> Q -> Q -> Q -> Q -> pixel;
    (** [blur r w h layer]: the CSS filter [blur(r px)] on a [w]x[h] layer. *)
    blur : Q -> Z -> Z -> bitmap -> bitmap;
    (** [gradientAt g x y]: the colour of a radial gradient at a point. *)
    gradientAt : gradient -> Q -> Q -> pixel }.

(** ** Rasterisation: from a drawing call to a layer

    A drawing call produces a layer, a premultiplied bitmap in device space
    in which a pixel covered only in part by the drawn shape is scaled by
    the covered fraction (antialiasing).  The layer is then filtered and
    composited onto the canvas. *)

Local Open Scope Q_scope.

(** Length of the part of the pixel column (or row) [[x,x+1]] inside
    [[lo,hi]]. *)
Definition span (lo hi : Q) (x : Z) : Q :=
  Qmax 0 (Qmin hi (inject_Z x + 1) - Qmax lo (inject_Z x)).

(** The device interval of the user interval [[u0,u1]] on an axis with
    scale [k] and origin [o]. *)
Definition deviceLo (k o u0 u1 : Q) : Q := Qmin (o + k * u0) (o + k * u1).
Definition deviceHi (k o u0 u1 : Q) : Q := Qmax (o + k * u0) (o + k * u1).

(** The part of pixel column [x] covered by the user interval [[u0,u1]];
    an empty interval covers nothing. *)
Definition deviceSpan (k o u0 u1 : Q) (x : Z) : Q :=
  if Qle_bool u1 u0 then 0
  else span (deviceLo k o u0 u1) (deviceHi k o u0 u1) x.

(** The user coordinate of the centre of device pixel [x]. *)
Definition userCentre (k o : Q) (x : Z) : Q := (inject_Z x + (1 # 2) - o) / k.

(** One axis of [drawImage(image, sx, sy, sw, sh, dx, dy, dw, dh)], for an
    image of length [il], source from [s] of length [sl], destination from
    [d] of length [dl].  The source interval is clipped to the image and the
    destination interval is clipped in the same proportion. *)
Definition clipLo (s : Q) : Q := Qmax s 0.
Definition clipHi (s sl : Q) (il : Z) : Q := Qmin (s + sl) (inject_Z il).
Definition destOf (s sl d dl c : Q) : Q := d + (c - s) * dl / sl.

Definition axisCover (k o s sl d dl : Q) (il x : Z) : Q :=
  if Qle_bool (clipHi s sl il) (clipLo s) then 0
  else span (deviceLo k o (destOf s sl d dl (clipLo s))
                          (destOf s sl d dl (clipHi s sl il)))
            (deviceHi k o (destOf s sl d dl (clipLo s))
                          (destOf s sl d dl (clipHi s sl il))) x.

(** The image coordinate seen at the centre of device pixel [x], and the
    number of image pixels one device pixel spans. *)
Definition axisSource (k o s sl d dl : Q) (x : Z) : Q :=
  s + (userCentre k o x - d) * sl / dl.

Definition axisScale (k sl dl : Q) : Q := Qabs (sl / (dl * k)).

Definition isCentre (q : Q) : bool :=
  Qeq_bool (q - inject_Z (Qfloor q)) (1 # 2).

(** A device pixel that sees exactly one image pixel (scale one and centre
    on centre) takes its colour; every other case goes to the resampling
    filter of the implementation. *)
Definition sampleImage (R : Rasteriser) (iw ih : Z) (ib : bitmap)
    (x y kx ky : Q) : pixel :=
  if Qeq_bool kx 1 && Qeq_bool ky 1 && isCentre x && isCentre y
  then (if inside iw ih (Qfloor x) (Qfloor y)
        then ib (Qfloor x) (Qfloor y) else transparent)
  else resample R iw ih ib (Qred x) (Qred y) (Qred kx) (Qred ky).

(** A pixel of a layer: the colour weighted by the covered fraction. *)
Definition shade (cov : Q) (colour : pixel) : pixel :=
  if Qle_bool cov 0 then transparent else scalePx (Q2Qc cov) colour.

(** The fraction of device pixel [(x,y)] that
    [drawImage(image, sx, sy, sw, sh, dx, dy, dw, dh)] covers. *)
Definition imageCover (m : matrix) (iw ih : Z)
    (sx sy sw sh dx dy dw dh : Q) (x y : Z) : Q :=
  (* "if one of the sw or sh arguments is zero, return" *)
  if Qeq_bool sw 0 || Qeq_bool sh 0 then 0 else
  axisCover (ma m) (me m) sx sw dx dw iw x
  * axisCover (md m) (mf m) sy sh dy dh ih y.

Definition layerOfImage (R : Rasteriser) (m : matrix) (iw ih : Z)
    (ib : bitmap) (sx sy sw sh dx dy dw dh : Q) : bitmap :=
  fun x y =>
    shade (imageCover m iw ih sx sy sw sh dx dy dw dh x y)
          (sampleImage R iw ih ib
             (axisSource (ma m) (me m) sx sw dx dw x)
             (axisSource (md m) (mf m) sy sh dy dh y)
             (axisScale (ma m) sw dw) (axisScale (md m) sh dh)).

Definition paintAt (R : Rasteriser) (p : paint) (u v : Q) : pixel :=
  match p with
  | Color c => c
  | Radial g => gradientAt R g (Qred u) (Qred v)
  end.

(** Area of the device pixel [(x,y)] inside the user rectangle
    [[x0,x1] x [y0,y1]]. *)
Definition rectCover (m : matrix) (x0 y0 x1 y1 : Q) (x y : Z) : Q :=
  deviceSpan (ma m) (me m) x0 x1 x * deviceSpan (md m) (mf m) y0 y1 y.

(** [fillRect(x, y, w, h)] *)
Definition layerOfFill (R : Rasteriser) (m : matrix) (p : paint)
    (rx ry rw rh : Q) : bitmap :=
  fun x y =>
    shade (rectCover m rx ry (rx + rw) (ry + rh) x y)
          (paintAt R p (userCentre (ma m) (me m) x) (userCentre (md m) (mf m) y)).

(** [strokeRect(x, y, w, h)] with mitred corners: the band of width
    [lineWidth] centred on the outline, that is the outline grown by half
    the line width minus the outline shrunk by it.  (A rectangle of zero
    width or height is a line or nothing in the canvas; the program never
    strokes one, and the model draws nothing.) *)
Definition strokeCover (m : matrix) (lw rx ry rw rh : Q) (x y : Z) : Q :=
  if Qle_bool rw 0 || Qle_bool rh 0 then 0 else
  rectCover m (rx - lw / 2) (ry - lw / 2)
              (rx + rw + lw / 2) (ry + rh + lw / 2) x y
  - rectCover m (rx + lw / 2) (ry + lw / 2)
                (rx + rw - lw / 2) (ry + rh - lw / 2) x y.

Definition layerOfStroke (R : Rasteriser) (m : matrix) (p : paint)
    (lw rx ry rw rh : Q) : bitmap :=
  fun x y =>
    shade (strokeCover m lw rx ry rw rh x y)
          (paintAt R p (userCentre (ma m) (me m) x) (userCentre (md m) (mf m) y)).

(** The layer goes through the filter of the context, is scaled by
    [globalAlpha] and composited with [globalCompositeOperation]; nothing
    is written outside the bitmap. *)
Definition filtered (R : Rasteriser) (s : drawState) (w h : Z)
    (layer : bitmap) : bitmap :=
  match filter s with
  | None => layer
  | Some r => blur R r w h layer
  end.

Definition painted (R : Rasteriser) (s : drawState) (w h : Z)
    (layer old : bitmap) : bitmap :=
  fun x y =>
    if inside w h x y
    then compose (globalCompositeOperation s)
           (scalePx (Q2Qc (globalAlpha s)) (filtered R s w h layer x y))
           (old x y)
    else old x y.

Definition paintLayer (R : Rasteriser) (layer : bitmap) (c : canvas) : canvas :=
  Canvas (width c) (height c)
         (painted R (state c) (width c) (height c) layer (bits c))
         (state c) (saved c).

Local Close Scope Q_scope.

(** ** Canvases in a store: a small state and exception monad *)

Definition handle : Type := nat.

Record world : Type := World
  { canvases : list canvas;     (* a handle is an index of this list *)
    randomCalls : nat }.        (* calls of [Math.random] so far *)

Inductive DOMException : Type := InvalidStateError.

Inductive result (A : Type) : Type :=
| Ok (a : A) (w : world)
| Throw (e : DOMException).
Arguments Ok {A} a w.
Arguments Throw {A} e.

Definition M (A : Type) : Type := world -> result A.

Definition ret {A} (a : A) : M A := fun w => Ok a w.

Definition bind {A B} (m : M A) (k : A -> M B) : M B :=
  fun w => match m w with
           | Ok a w' => k a w'
           | Throw e => Throw e
           end.

Definition throw {A} (e : DOMException) : M A := fun _ => Throw e.

Notation "x <- m ;; k" := (bind m (fun x => k))
  (at level 61, m at next level, right associativity).
Notation "m ;; k" := (bind m (fun _ => k))
  (at level 61, right associativity).

Fixpoint updateAt {A} (n : nat) (f : A -> A) (l : list A) : list A :=
  match l, n with
  | [], _ => []
  | a :: l', O => f a :: l'
  | a :: l', S n' => a :: updateAt n' f l'
  end.

Definition lookup (h : handle) (w : world) : canvas :=
  nth h (canvases w) (blankCanvas 0 0).

Definition getCanvas (h : handle) : M canvas := fun w => Ok (lookup h w) w.

Definition modify (h : handle) (f : canvas -> canvas) : M unit :=
  fun w => Ok tt (World (updateAt h f (canvases w)) (randomCalls w)).

(** [for (let i = from; i < from + count; i++) body(i)] *)
Fixpoint forLoop (from : Z) (count : nat) (body : Z -> M unit) : M unit :=
  match count with
  | O => ret tt
  | S n => body from ;; forLoop (from + 1) n body
  end.

(** A decoded [HTMLImageElement]. *)
Record image : Type := Image
  { naturalWidth : Z; naturalHeight : Z; imageBits : bitmap }.

(** ** The canvas API used by the program *)

Section CanvasAPI.

Variable R : Rasteriser.

(** The values [Math.random] returns, in call order. *)
Variable randomValues : nat -> Q.

Definition Math_random : M Q :=
  fun w => Ok (randomValues (randomCalls w))
              (World (canvases w) (S (randomCalls w))).

(** [createCanvas(w, h)] of the program: a new canvas whose dimensions are
    the numbers converted to integers, and its 2D context. *)
Definition createCanvas (w h : Q) : M handle :=
  fun st => Ok (length (canvases st))
               (World (canvases st ++ [blankCanvas (JS.trunc w) (JS.trunc h)])
                      (randomCalls st)).

(** What [drawImage] with nine arguments does to the target canvas. *)
Definition drawPart (iw ih : Z) (ib : bitmap) (sx sy sw sh dx dy dw dh : Q)
    (c : canvas) : canvas :=
  paintLayer R
    (layerOfImage R (ctm (state c)) iw ih ib sx sy sw sh dx dy dw dh) c.

(** [ctx.drawImage(image, sx, sy, sw, sh, dx, dy, dw, dh)] with a canvas
    as image: a canvas without pixels raises [InvalidStateError]. *)
Definition drawImage9 (ctx image : handle) (sx sy sw sh dx dy dw dh : Q)
  : M unit :=
  src <- getCanvas image ;;
  if (width src =? 0) || (height src =? 0) then throw InvalidStateError else
  modify ctx (drawPart (width src) (height src) (bits src)
                       sx sy sw sh dx dy dw dh).

(** [ctx.drawImage(img, dx, dy)] with a decoded image element; an image
    without pixels draws nothing (and raises nothing). *)
Definition drawImageElement (ctx : handle) (img : image) (dx dy : Q) : M unit :=
  if (naturalWidth img =? 0) || (naturalHeight img =? 0) then ret tt else
  modify ctx (drawPart (naturalWidth img) (naturalHeight img) (imageBits img)
                0 0 (inject_Z (naturalWidth img)) (inject_Z (naturalHeight img))
                dx dy (inject_Z (naturalWidth img)) (inject_Z (naturalHeight img))).

(** [ctx.drawImage(image, dx, dy)] *)
Definition drawImage3 (ctx image : handle) (dx dy : Q) : M unit :=
  src <- getCanvas image ;;
  drawImage9 ctx image 0 0 (inject_Z (width src)) (inject_Z (height src))
             dx dy (inject_Z (width src)) (inject_Z (height src)).

Definition pushState (c : canvas) : canvas :=
  Canvas (width c) (height c) (bits c) (state c) (state c :: saved c).

Definition popState (c : canvas) : canvas :=
  match saved c with
  | [] => c
  | s :: rest => Canvas (width c) (height c) (bits c) s rest
  end.

Definition save (ctx : handle) : M unit := modify ctx pushState.

Definition restore (ctx : handle) : M unit := modify ctx popState.

Definition setCtm (f : matrix -> matrix) (s : drawState) : drawState :=
  DrawState (f (ctm s)) (globalAlpha s) (globalCompositeOperation s)
            (filter s) (fillStyle s) (strokeStyle s) (lineWidth s).

Definition translateM (tx ty : Q) (m : matrix) : matrix :=
  Matrix (ma m) (md m) (me m + ma m * tx)%Q (mf m + md m * ty)%Q.

Definition scaleM (kx ky : Q) (m : matrix) : matrix :=
  Matrix (ma m * kx)%Q (md m * ky)%Q (me m) (mf m).

Definition translate (ctx : handle) (tx ty : Q) : M unit :=
  modify ctx (setState (setCtm (translateM tx ty))).

Definition scale (ctx : handle) (kx ky : Q) : M unit :=
  modify ctx (setState (setCtm (scaleM kx ky))).

(** Assignments to the attributes of the context.  A [globalAlpha]
    outside [0,1] is ignored. *)
Definition withAlpha (a : Q) (s : drawState) : drawState :=
  if Qle_bool 0 a && Qle_bool a 1
  then DrawState (ctm s) a (globalCompositeOperation s) (filter s)
                 (fillStyle s) (strokeStyle s) (lineWidth s)
  else s.

Definition withOp (op : CompositeOp) (s : drawState) : drawState :=
  DrawState (ctm s) (globalAlpha s) op (filter s)
            (fillStyle s) (strokeStyle s) (lineWidth s).

Definition withFilter (f : option Q) (s : drawState) : drawState :=
  DrawState (ctm s) (globalAlpha s) (globalCompositeOperation s) f
            (fillStyle s) (strokeStyle s) (lineWidth s).

Definition withFill (p : paint) (s : drawState) : drawState :=
  DrawState (ctm s) (globalAlpha s) (globalCompositeOperation s) (filter s)
            p (strokeStyle s) (lineWidth s).

Definition withStroke (p : paint) (s : drawState) : drawState :=
  DrawState (ctm s) (globalAlpha s) (globalCompositeOperation s) (filter s)
            (fillStyle s) p (lineWidth s).

Definition withLineWidth (lw : Q) (s : drawState) : drawState :=
  DrawState (ctm s) (globalAlpha s) (globalCompositeOperation s) (filter s)
            (fillStyle s) (strokeStyle s) lw.

Definition set_globalAlpha (ctx : handle) (a : Q) : M unit :=
  modify ctx (setState (withAlpha a)).

Definition set_globalCompositeOperation (ctx : handle) (op : CompositeOp)
  : M unit :=
  modify ctx (setState (withOp op)).

Definition set_filter (ctx : handle) (f : option Q) : M unit :=
  modify ctx (setState (withFilter f)).

Definition set_fillStyle (ctx : handle) (p : paint) : M unit :=
  modify ctx (setState (withFill p)).

Definition set_strokeStyle (ctx : handle) (p : paint) : M unit :=
  modify ctx (setState (withStroke p)).

Definition set_lineWidth (ctx : handle) (lw : Q) : M unit :=
  modify ctx (setState (withLineWidth lw)).

Definition fillOn (x y w h : Q) (c : canvas) : canvas :=
  paintLayer R
    (layerOfFill R (ctm (state c)) (fillStyle (state c)) x y w h) c.

Definition strokeOn (x y w h : Q) (c : canvas) : canvas :=
  paintLayer R
    (layerOfStroke R (ctm (state c)) (strokeStyle (state c))
       (lineWidth (state c)) x y w h) c.

Definition fillRect (ctx : handle) (x y w h : Q) : M unit :=
  modify ctx (fillOn x y w h).

Definition strokeRect (ctx : handle) (x y w h : Q) : M unit :=
  modify ctx (strokeOn x y w h).

Definition createRadialGradient (x0 y0 r0 x1 y1 r1 : Q) : gradient :=
  Gradient x0 y0 r0 x1 y1 r1 [].

Definition addColorStop (g : gradient) (offset : Q) (c : pixel) : gradient :=
  Gradient (gx0 g) (gy0 g) (gr0 g) (gx1 g) (gy1 g) (gr1 g)
           (stops g ++ [(offset, c)]).

End CanvasAPI.

(** ** types.ts *)

(** A string enum: at run time any string can arrive. *)
Definition SeamlessMethod : Type := string.
Definition MIRRORED : SeamlessMethod := "mirrored"%string.
Definition SCATTERED : SeamlessMethod := "scattered"%string.
Definition PATCH_BASED : SeamlessMethod := "patch_based"%string.

Inductive TileFormat : Type := ONE | TWO | THREE.

Definition tileNumber (t : TileFormat) : Z :=
  match t with ONE => 1 | TWO => 2 | THREE => 3 end.

Inductive OutputFormat : Type := JPEG | PNG.

Record CropSettings : Type := MkCrop
  { top : Z; bottom : Z; left : Z; right : Z }.

Record AveragingSettings : Type := MkAveraging
  { intensity : Z;   (* 0-100 *)
    radius : Z }.    (* 1-20 *)

Record ProcessResult : Type := MkResult
  { seamlessUrl : string;
    previewUrl : string;
    resultWidth : Z;
    resultHeight : Z }.

(** ** services/imageProcessing.ts *)

Section ImageProcessing.

Variable R : Rasteriser.
Variable randomValues : nat -> Q.

(** [canvas.toDataURL(type, quality)], the encoder of the browser. *)
Variable encode : canvas -> OutputFormat -> option Q -> string.

Local Abbreviation drawImage9 := (drawImage9 R).
Local Abbreviation drawImage3 := (drawImage3 R).
Local Abbreviation Math_random := (Math_random randomValues).
Local Notation "'Qz' z" := (inject_Z z) (at level 1).

(** *** Pre-processing *)

(** Returns [None] for the [null] of the source. *)
Definition applyCrop (ctx : handle) (width height : Z) (crop : CropSettings)
  : M (option handle) :=
  let newWidth := width - left crop - right crop in
  let newHeight := height - top crop - bottom crop in
  if (newWidth <=? 0) || (newHeight <=? 0) then ret None else
  croppedCanvas <- createCanvas (Qz newWidth) (Qz newHeight) ;;
  drawImage9 croppedCanvas ctx
    (Qz (left crop)) (Qz (top crop)) (Qz newWidth) (Qz newHeight)
    0 0 (Qz newWidth) (Qz newHeight) ;;
  ret (Some croppedCanvas).

Definition applyAveraging (canvas : handle) (settings : AveragingSettings)
  : M handle :=
  if intensity settings <=? 0 then ret canvas else
  c <- getCanvas canvas ;;
  let width := width c in
  let height := height c in
  outCanvas <- createCanvas (Qz width) (Qz height) ;;
  (* Draw original *)
  drawImage3 outCanvas canvas 0 0 ;;
  (* Create a blurred version for averaging *)
  blurCanvas <- createCanvas (Qz width) (Qz height) ;;
  set_filter blurCanvas (Some (Qz (radius settings))) ;;
  drawImage3 blurCanvas canvas 0 0 ;;
  set_filter blurCanvas None ;;
  set_globalCompositeOperation outCanvas SourceOver ;;
  set_globalAlpha outCanvas (Qz (intensity settings) / 100) ;;
  drawImage3 outCanvas blurCanvas 0 0 ;;
  set_globalAlpha outCanvas 1 ;;
  ret outCanvas.

(** *** Seamless algorithms *)

(** Method 1: simple mirrored edges. *)
Definition generateMirrored (srcCanvas : handle) : M handle :=
  src <- getCanvas srcCanvas ;;
  let w := Qz (width src) in
  let h := Qz (height src) in
  canvas <- createCanvas w h ;;
  let halfW := (w / 2)%Q in
  let halfH := (h / 2)%Q in
  (* Draw Top-Left (original scaled down) *)
  drawImage9 canvas srcCanvas 0 0 w h 0 0 halfW halfH ;;
  (* Draw Top-Right (flipped X) *)
  save canvas ;;
  translate canvas w 0 ;;
  scale canvas (-1) 1 ;;
  drawImage9 canvas srcCanvas 0 0 w h 0 0 halfW halfH ;;
  restore canvas ;;
  (* Draw Bottom-Left (flipped Y) *)
  save canvas ;;
  translate canvas 0 h ;;
  scale canvas 1 (-1) ;;
  drawImage9 canvas srcCanvas 0 0 w h 0 0 halfW halfH ;;
  restore canvas ;;
  (* Draw Bottom-Right (flipped X and Y) *)
  save canvas ;;
  translate canvas w h ;;
  scale canvas (-1) (-1) ;;
  drawImage9 canvas srcCanvas 0 0 w h 0 0 halfW halfH ;;
  restore canvas ;;
  ret canvas.

(** The four quadrant copies of [generateScattered], in source order:
    source x, source y, destination x, destination y; every copy has
    size [halfW] x [halfH]. *)
Definition quadrants (halfW halfH : Z) : list (Z * Z * Z * Z) :=
  [ (0, 0, halfW, halfH);          (* TL of source -> BR of dest *)
    (halfW, 0, 0, halfH);          (* TR of source -> BL of dest *)
    (0, halfH, halfW, 0);          (* BL of source -> TR of dest *)
    (halfW, halfH, 0, 0) ].        (* BR of source -> TL of dest *)

Definition drawQuadrant (ctx srcCanvas : handle) (halfW halfH : Z)
    (q : Z * Z * Z * Z) : M unit :=
  let '(sx, sy, dx, dy) := q in
  drawImage9 ctx srcCanvas (Qz sx) (Qz sy) (Qz halfW) (Qz halfH)
             (Qz dx) (Qz dy) (Qz halfW) (Qz halfH).

Fixpoint forEach {A} (l : list A) (body : A -> M unit) : M unit :=
  match l with
  | [] => ret tt
  | a :: l' => body a ;; forEach l' body
  end.

(** Method 2: scattered edges (offset + blend). *)
Definition generateScattered (srcCanvas : handle) : M handle :=
  src <- getCanvas srcCanvas ;;
  let w := Qz (width src) in
  let h := Qz (height src) in
  canvas <- createCanvas w h ;;
  (* 1. Offset the image by 50% *)
  let halfW := JS.round (w / 2) in
  let halfH := JS.round (h / 2) in
  (* Draw 4 quadrants swapped *)
  forEach (quadrants halfW halfH) (drawQuadrant canvas srcCanvas halfW halfH) ;;
  (* 2. Overlay the original image in the centre with a radial fade *)
  let blendSizeW := (w * (7 # 10))%Q in
  let blendSizeH := (h * (7 # 10))%Q in
  let blendX := ((w - blendSizeW) / 2)%Q in
  let blendY := ((h - blendSizeH) / 2)%Q in
  maskCanvas <- createCanvas blendSizeW blendSizeH ;;
  let gradient :=
    createRadialGradient
      (blendSizeW / 2) (blendSizeH / 2) 0
      (blendSizeW / 2) (blendSizeH / 2) (JS.min blendSizeW blendSizeH / 2) in
  let gradient := addColorStop gradient 0 (rgba 0 0 0 1) in
  let gradient := addColorStop gradient (1 # 2) (rgba 0 0 0 1) in
  let gradient := addColorStop gradient 1 (rgba 0 0 0 0) in
  (* Prepare the patch from the centre of the original source *)
  patchCanvas <- createCanvas blendSizeW blendSizeH ;;
  drawImage9 patchCanvas srcCanvas
    ((w - blendSizeW) / 2) ((h - blendSizeH) / 2) blendSizeW blendSizeH
    0 0 blendSizeW blendSizeH ;;
  (* Apply mask to patch *)
  set_globalCompositeOperation patchCanvas DestinationIn ;;
  set_fillStyle patchCanvas (Radial gradient) ;;
  fillRect R patchCanvas 0 0 blendSizeW blendSizeH ;;
  (* 3. Paste the masked patch onto the offset image *)
  set_globalCompositeOperation canvas SourceOver ;;
  drawImage3 canvas patchCanvas blendX blendY ;;
  ret canvas.

(** One round of the loop of [generatePatchBased]. *)
Definition throwPatch (ctx srcCanvas : handle) (w h : Q)
    (minPatchSize maxPatchSize : Q) (i : Z) : M unit :=
  (* Random size *)
  r <- Math_random ;;
  let size := (minPatchSize + r * (maxPatchSize - minPatchSize))%Q in
  (* Random src position *)
  r <- Math_random ;;
  let sx := (r * (w - size))%Q in
  r <- Math_random ;;
  let sy := (r * (h - size))%Q in
  (if i =? 0
   then (* Initialize with scattered base for edge continuity *)
        base <- generateScattered srcCanvas ;;
        drawImage3 ctx base 0 0
   else ret tt) ;;
  r <- Math_random ;;
  let dx := (10 + r * (w - size - 20))%Q in
  r <- Math_random ;;
  let dy := (10 + r * (h - size - 20))%Q in
  (* Create a fuzzy patch *)
  pC <- createCanvas size size ;;
  (* Radial gradient mask *)
  let grad :=
    createRadialGradient (size / 2) (size / 2) 0
                         (size / 2) (size / 2) (size / 2) in
  let grad := addColorStop grad 0 (rgba 0 0 0 1) in
  let grad := addColorStop grad (6 # 10) (rgba 0 0 0 1) in
  let grad := addColorStop grad 1 (rgba 0 0 0 0) in
  (* Draw image part *)
  drawImage9 pC srcCanvas sx sy size size 0 0 size size ;;
  (* Mask it *)
  set_globalCompositeOperation pC DestinationIn ;;
  set_fillStyle pC (Radial grad) ;;
  fillRect R pC 0 0 size size ;;
  (* Paste *)
  set_globalCompositeOperation ctx SourceOver ;;
  drawImage3 ctx pC dx dy.

(** Method 3: patch-based blend (stochastic). *)
Definition generatePatchBased (srcCanvas : handle) : M handle :=
  src <- getCanvas srcCanvas ;;
  let w := Qz (width src) in
  let h := Qz (height src) in
  canvas <- createCanvas w h ;;
  (* Fill background with a random tile to start *)
  drawImage3 canvas srcCanvas 0 0 ;;
  (* Number of patches to throw *)
  let patchCount := 30%nat in
  let minPatchSize := (JS.min w h * (2 # 10))%Q in
  let maxPatchSize := (JS.min w h * (5 # 10))%Q in
  forLoop 0 patchCount
    (throwPatch canvas srcCanvas w h minPatchSize maxPatchSize) ;;
  ret canvas.

(** *** Tiling preview *)

Definition seamColor : pixel := rgba 1 0 0 (1 # 2).   (* rgba(255,0,0,0.5) *)

Definition drawTile (ctx textureCanvas : handle) (w h : Z)
    (markSeams : bool) (r c : Z) : M unit :=
  drawImage3 ctx textureCanvas (Qz (c * w)) (Qz (r * h)) ;;
  if markSeams
  then set_strokeStyle ctx (Color seamColor) ;;
       set_lineWidth ctx 1 ;;
       strokeRect R ctx (Qz (c * w)) (Qz (r * h)) (Qz w) (Qz h)
  else ret tt.

Definition generateTilePreview (textureCanvas : handle)
    (tileFormat : TileFormat) (markSeams : bool) : M handle :=
  texture <- getCanvas textureCanvas ;;
  let w := width texture in
  let h := height texture in
  let rows := tileNumber tileFormat in
  let cols := tileNumber tileFormat in
  canvas <- createCanvas (Qz (w * cols)) (Qz (h * rows)) ;;
  forLoop 0 (Z.to_nat rows) (fun r =>
    forLoop 0 (Z.to_nat cols) (fun c =>
      drawTile canvas textureCanvas w h markSeams r c)) ;;
  ret canvas.

(** The preview as the specification words it: all the cells are blitted
    first, and only then, if [markSeams], the boundary rectangle of every
    cell is drawn.  (The second definition of the comparison with
    [generateTilePreview].) *)
Definition blitTile (ctx textureCanvas : handle) (w h : Z) (r c : Z) : M unit :=
  drawImage3 ctx textureCanvas (Qz (c * w)) (Qz (r * h)).

Definition markTile (ctx : handle) (w h : Z) (r c : Z) : M unit :=
  set_strokeStyle ctx (Color seamColor) ;;
  set_lineWidth ctx 1 ;;
  strokeRect R ctx (Qz (c * w)) (Qz (r * h)) (Qz w) (Qz h).

Definition tilePreviewBlitsFirst (textureCanvas : handle)
    (tileFormat : TileFormat) (markSeams : bool) : M handle :=
  texture <- getCanvas textureCanvas ;;
  let w := width texture in
  let h := height texture in
  let rows := tileNumber tileFormat in
  let cols := tileNumber tileFormat in
  canvas <- createCanvas (Qz (w * cols)) (Qz (h * rows)) ;;
  forLoop 0 (Z.to_nat rows) (fun r =>
    forLoop 0 (Z.to_nat cols) (fun c =>
      blitTile canvas textureCanvas w h r c)) ;;
  (if markSeams
   then forLoop 0 (Z.to_nat rows) (fun r =>
          forLoop 0 (Z.to_nat cols) (fun c =>
            markTile canvas w h r c))
   else ret tt) ;;
  ret canvas.

(** *** Main processor *)

(** Step 2 of [processTexture]: pre-crop. *)
Definition cropStage (currentCanvas : handle) (crop : CropSettings) : M handle :=
  if (0 <? top crop) || (0 <? bottom crop) || (0 <? left crop) || (0 <? right crop)
  then c <- getCanvas currentCanvas ;;
       cropped <- applyCrop currentCanvas (width c) (height c) crop ;;
       match cropped with
       | Some croppedCanvas => ret croppedCanvas
       | None => ret currentCanvas
       end
  else ret currentCanvas.

(** Step 3 of [processTexture]: pre-averaging. *)
Definition averagingStage (currentCanvas : handle)
    (averaging : AveragingSettings) : M handle :=
  if 0 <? intensity averaging
  then applyAveraging currentCanvas averaging
  else ret currentCanvas.

(** Step 4 of [processTexture]: the [switch] on the method. *)
Definition generateSeamless (method : SeamlessMethod) (currentCanvas : handle)
  : M handle :=
  if String.eqb method MIRRORED then generateMirrored currentCanvas
  else if String.eqb method PATCH_BASED then generatePatchBased currentCanvas
  else (* case SCATTERED, default *) generateScattered currentCanvas.

(** Steps 1 to 5 of [processTexture], from the decoded image to the
    seamless canvas and the preview canvas. *)
Definition renderTexture (img : image) (method : SeamlessMethod)
    (tileFormat : TileFormat) (markSeams : bool) (crop : CropSettings)
    (averaging : AveragingSettings) : M (handle * handle) :=
  (* 1. Base canvas *)
  currentCanvas <- createCanvas (Qz (naturalWidth img)) (Qz (naturalHeight img)) ;;
  drawImageElement R currentCanvas img 0 0 ;;
  (* 2. Pre-crop *)
  currentCanvas <- cropStage currentCanvas crop ;;
  (* 3. Pre-averaging *)
  currentCanvas <- averagingStage currentCanvas averaging ;;
  (* 4. Generate seamless *)
  seamlessCanvas <- generateSeamless method currentCanvas ;;
  (* 5. Generate preview *)
  previewCanvas <- generateTilePreview seamlessCanvas tileFormat markSeams ;;
  ret (seamlessCanvas, previewCanvas).

(** [processTexture] after the image has loaded: steps 1 to 5, then the
    export. *)
Definition processTexture (img : image) (method : SeamlessMethod)
    (tileFormat : TileFormat) (markSeams : bool) (crop : CropSettings)
    (averaging : AveragingSettings) (outputFormat : OutputFormat)
    (outputQuality : Q) : M ProcessResult :=
  canvases <- renderTexture img method tileFormat markSeams crop averaging ;;
  seamlessCanvas <- getCanvas (fst canvases) ;;
  previewCanvas <- getCanvas (snd canvases) ;;
  (* 6. Export *)
  let quality :=
    match outputFormat with
    | JPEG => Some (outputQuality / 100)%Q
    | PNG => None
    end in
  ret (MkResult (encode seamlessCanvas outputFormat quality)
                (encode previewCanvas outputFormat quality)
                (width seamlessCanvas)
                (height seamlessCanvas)).

End ImageProcessing.

(** ** A reference rasteriser, for closed examples

    Nearest-neighbour resampling, a box blur over the square window of the
    given radius (the layer is transparent where nothing was drawn, so the
    blur fades towards the edges of what was drawn), and a radial gradient
    that takes the colour of the last stop reached, compared on squared
    distances. *)

Definition addPx (p q : pixel) : pixel :=
  RGBA (red p + red q) (green p + green q) (blue p + blue q) (alpha p + alpha q).

Fixpoint sumFrom (from : Z) (count : nat) (f : Z -> pixel) : pixel :=
  match count with
  | O => transparent
  | S n => addPx (f from) (sumFrom (from + 1) n f)
  end.

Definition nearest (iw ih : Z) (ib : bitmap) (x y kx ky : Q) : pixel :=
  if inside iw ih (Qfloor x) (Qfloor y) then ib (Qfloor x) (Qfloor y)
  else transparent.

Definition boxBlur (r : Q) (w h : Z) (layer : bitmap) : bitmap :=
  fun x y =>
    let k := Qceiling r in
    let n := Z.to_nat (2 * k + 1) in
    scalePx (Q2Qc (1 / inject_Z ((2 * k + 1) * (2 * k + 1))))
      (sumFrom (y - k) n (fun j => sumFrom (x - k) n (fun i => layer i j))).

Fixpoint lastStop (q : Q) (l : list (Q * pixel)) (acc : pixel) : pixel :=
  match l with
  | [] => acc
  | (o, c) :: l' => if Qle_bool (o * o) q then lastStop q l' c else acc
  end.

Definition stepGradient (g : gradient) (x y : Q) : pixel :=
  let d2 := ((x - gx1 g) * (x - gx1 g) + (y - gy1 g) * (y - gy1 g))%Q in
  lastStop (d2 / (gr1 g * gr1 g))%Q (stops g) transparent.

Definition referenceRasteriser : Rasteriser :=
  MkRasteriser nearest boxBlur stepGradient.



(** * What the program computes, canvas by canvas

    The canvases the functions of the program leave in the store, written
    as compositions of the canvas transformers of the API in the order of
    the calls.  The lemmas [run_...] below show that running the program
    yields exactly these canvases. *)

(** [drawImage(image, dx, dy)] as a canvas transformer. *)
Definition drawWhole (R : Rasteriser) (img : canvas) (dx dy : Q)
  : canvas -> canvas :=
  drawPart R (width img) (height img) (bits img)
    0 0 (inject_Z (width img)) (inject_Z (height img))
    dx dy (inject_Z (width img)) (inject_Z (height img)).

(** A canvas whose context has its initial attributes. *)
Definition tidy (c : canvas) : Prop := state c = defaultState.

(** Attributes under which a layer is simply put on top. *)
Definition plain (s : drawState) : Prop :=
  globalAlpha s = 1%Q /\ globalCompositeOperation s = SourceOver /\
  filter s = None.

(** A pixel of the destination of an unscaled copy: [x] is a pixel that
    the copy of the source interval from [s] of length [sl] to [d], clipped
    to an image of length [il], writes. *)
Definition copied (s sl d il x : Z) : bool :=
  (Z.max s 0 <=? x - d + s) && (x - d + s <? Z.min (s + sl) il).

(** Two device pixels that see the same part of the drawn image along one
    axis. *)
Definition sameAxis (k o : Q) (x : Z) (k' o' : Q) (x' : Z) : Prop :=
  forall s sl d dl il,
    ~ (dl == 0)%Q ->
    (axisCover k o s sl d dl il x == axisCover k' o' s sl d dl il x')%Q /\
    (axisSource k o s sl d dl x == axisSource k' o' s sl d dl x')%Q /\
    (axisScale k sl dl == axisScale k' sl dl)%Q.

Definition onBorder (w h x y : Z) : Prop :=
  0 <= x < w /\ 0 <= y < h /\ (x = 0 \/ x = w - 1 \/ y = 0 \/ y = h - 1).

(** Within 10 pixels of an edge. *)
Definition nearBorder (src : canvas) (x y : Z) : Prop :=
  x < 10 \/ width src - 10 <= x \/ y < 10 \/ height src - 10 <= y.

(** ** generateMirrored *)

Section MirroredCanvas.
Variable R : Rasteriser.
Variable src : canvas.

Definition quarterLayer (m : matrix) : bitmap :=
  layerOfImage R m (width src) (height src) (bits src)
    0 0 (inject_Z (width src)) (inject_Z (height src))
    0 0 (inject_Z (width src) / 2) (inject_Z (height src) / 2).

Definition flipX : matrix :=
  scaleM (-1) 1 (translateM (inject_Z (width src)) 0 identity).
Definition flipY : matrix :=
  scaleM 1 (-1) (translateM 0 (inject_Z (height src)) identity).
Definition flipXY : matrix :=
  scaleM (-1) (-1)
    (translateM (inject_Z (width src)) (inject_Z (height src)) identity).

(** The canvas [generateMirrored] returns. *)
Definition mirroredCanvas : canvas :=
  paintLayer R (quarterLayer flipXY)
    (paintLayer R (quarterLayer flipY)
       (paintLayer R (quarterLayer flipX)
          (paintLayer R (quarterLayer identity)
             (blankCanvas (width src) (height src))))).

End MirroredCanvas.

(** ** generateScattered *)

(** The index that the half-size shift of step 1 puts at index [i] of an
    axis of length [n]: none at the index the copies leave out when [n] is
    odd. *)
Definition shiftCoord (n i : Z) : option Z :=
  let half := JS.round (inject_Z n / 2) in
  if i <? n - half then Some (i + half)
  else if half <=? i then Some (i - half)
  else None.

Definition halfShift (src : canvas) (x y : Z) : pixel :=
  match shiftCoord (width src) x, shiftCoord (height src) y with
  | Some sx, Some sy => bits src sx sy
  | _, _ => transparent
  end.



Section ScatteredCanvas.
Variable R : Rasteriser.
Variable src : canvas.

Let w := width src.
Let h := height src.
Let halfW := JS.round (inject_Z w / 2).
Let halfH := JS.round (inject_Z h / 2).
Let blendSizeW := (inject_Z w * (7 # 10))%Q.
Let blendSizeH := (inject_Z h * (7 # 10))%Q.

Definition quadrantLayer (q : Z * Z * Z * Z) : bitmap :=
  let '(sx, sy, dx, dy) := q in
  layerOfImage R identity w h (bits src)
    (inject_Z sx) (inject_Z sy) (inject_Z halfW) (inject_Z halfH)
    (inject_Z dx) (inject_Z dy) (inject_Z halfW) (inject_Z halfH).

(** The canvas of [generateScattered] after step 1. *)
Definition shiftedCanvas : canvas :=
  fold_left (fun c q => paintLayer R (quadrantLayer q) c)
            (quadrants halfW halfH) (blankCanvas w h).

Definition scatterGradient : gradient :=
  addColorStop
    (addColorStop
       (addColorStop
          (createRadialGradient (blendSizeW / 2) (blendSizeH / 2) 0
             (blendSizeW / 2) (blendSizeH / 2)
             (JS.min blendSizeW blendSizeH / 2))
          0 (rgba 0 0 0 1))
       (1 # 2) (rgba 0 0 0 1))
    1 (rgba 0 0 0 0).

(** The mask canvas: created and never drawn on. *)
Definition scatterMask : canvas :=
  blankCanvas (JS.trunc blendSizeW) (JS.trunc blendSizeH).

(** The masked patch of step 2. *)
Definition scatterPatch : canvas :=
  fillOn R 0 0 blendSizeW blendSizeH
    (setState (withFill (Radial scatterGradient))
       (setState (withOp DestinationIn)
          (drawPart R w h (bits src)
             ((inject_Z w - blendSizeW) / 2) ((inject_Z h - blendSizeH) / 2)
             blendSizeW blendSizeH 0 0 blendSizeW blendSizeH
             (blankCanvas (JS.trunc blendSizeW) (JS.trunc blendSizeH))))).

(** The canvas [generateScattered] returns. *)
Definition scatteredCanvas : canvas :=
  drawWhole R scatterPatch
    ((inject_Z w - blendSizeW) / 2) ((inject_Z h - blendSizeH) / 2)
    (setState (withOp SourceOver) shiftedCanvas).

End ScatteredCanvas.

(** ** generatePatchBased *)

Definition minPatch (src : canvas) : Q :=
  (JS.min (inject_Z (width src)) (inject_Z (height src)) * (2 # 10))%Q.
Definition maxPatch (src : canvas) : Q :=
  (JS.min (inject_Z (width src)) (inject_Z (height src)) * (5 # 10))%Q.

Section PatchCanvas.
Variable R : Rasteriser.
Variable randomValues : nat -> Q.
Variable src : canvas.

Definition fuzzyGradient (size : Q) : gradient :=
  addColorStop
    (addColorStop
       (addColorStop
          (createRadialGradient (size / 2) (size / 2) 0
                                (size / 2) (size / 2) (size / 2))
          0 (rgba 0 0 0 1))
       (6 # 10) (rgba 0 0 0 1))
    1 (rgba 0 0 0 0).

(** The canvas [pC] of one round: a square cut out of the source at
    [(sx,sy)] and masked by the radial gradient. *)
Definition fuzzyPatch (size sx sy : Q) : canvas :=
  fillOn R 0 0 size size
    (setState (withFill (Radial (fuzzyGradient size)))
       (setState (withOp DestinationIn)
          (drawPart R (width src) (height src) (bits src)
             sx sy size size 0 0 size size
             (blankCanvas (JS.trunc size) (JS.trunc size))))).

(** What one round does to the output canvas. *)
Definition paste (size sx sy dx dy : Q) (c : canvas) : canvas :=
  drawWhole R (fuzzyPatch size sx sy) dx dy (setState (withOp SourceOver) c).

(** What the first round does before its patch: the scattered base is
    drawn over the canvas. *)
Definition initBase (c : canvas) : canvas :=
  drawWhole R (scatteredCanvas R src) 0 0 c.

(** The random draws of the round that starts at call [n] of
    [Math.random], on a surface of size [w] x [h]. *)
Definition sizeAt (minP maxP : Q) (n : nat) : Q :=
  (minP + randomValues n * (maxP - minP))%Q.
Definition sxAt (w minP maxP : Q) (n : nat) : Q :=
  (randomValues (1 + n) * (w - sizeAt minP maxP n))%Q.
Definition syAt (h minP maxP : Q) (n : nat) : Q :=
  (randomValues (2 + n) * (h - sizeAt minP maxP n))%Q.
Definition dxAt (w minP maxP : Q) (n : nat) : Q :=
  (10 + randomValues (3 + n) * (w - sizeAt minP maxP n - 20))%Q.
Definition dyAt (h minP maxP : Q) (n : nat) : Q :=
  (10 + randomValues (4 + n) * (h - sizeAt minP maxP n - 20))%Q.

Definition pasteAt (w h minP maxP : Q) (n : nat) : canvas -> canvas :=
  paste (sizeAt minP maxP n) (sxAt w minP maxP n) (syAt h minP maxP n)
        (dxAt w minP maxP n) (dyAt h minP maxP n).

Definition fuzzyAt (w h minP maxP : Q) (n : nat) : canvas :=
  fuzzyPatch (sizeAt minP maxP n) (sxAt w minP maxP n) (syAt h minP maxP n).

End PatchCanvas.

(** ** applyAveraging *)

Section AveragedCanvas.
Variable R : Rasteriser.
Variable src : canvas.
Variable settings : AveragingSettings.

(** The blurred copy that [applyAveraging] makes of its input. *)
Definition blurredCanvas : canvas :=
  setState (withFilter None)
    (drawWhole R src 0 0
       (setState (withFilter (Some (inject_Z (radius settings))))
          (blankCanvas (width src) (height src)))).

(** The canvas [applyAveraging] returns for a positive intensity. *)
Definition averagedCanvas : canvas :=
  setState (withAlpha 1)
    (drawWhole R blurredCanvas 0 0
       (setState (withAlpha (inject_Z (intensity settings) / 100))
          (setState (withOp SourceOver)
             (drawWhole R src 0 0 (blankCanvas (width src) (height src)))))).

End AveragedCanvas.

(** ** generateTilePreview *)

Fixpoint range (from : Z) (count : nat) : list Z :=
  match count with
  | O => []
  | S n => from :: range (from + 1) n
  end.

(** The cells in the order of the two loops. *)
Definition cells (n : Z) : list (Z * Z) :=
  flat_map (fun r => map (fun c => (r, c)) (range 0 (Z.to_nat n)))
           (range 0 (Z.to_nat n)).

Section PreviewCanvas.
Variable R : Rasteriser.
Variable texture : canvas.
Variable markSeams : bool.

(** What [strokeRect] of a cell does after the stroke attributes are set. *)
Definition markOn (r c : Z) (cv : canvas) : canvas :=
  strokeOn R (inject_Z (c * width texture)) (inject_Z (r * height texture))
    (inject_Z (width texture)) (inject_Z (height texture))
    (setState (withLineWidth 1)
       (setState (withStroke (Color seamColor)) cv)).

(** What one round of the inner loop does to the preview canvas. *)
Definition tileOn (cell : Z * Z) (cv : canvas) : canvas :=
  let '(r, c) := cell in
  let blitted :=
    drawWhole R texture (inject_Z (c * width texture))
              (inject_Z (r * height texture)) cv in
  if markSeams then markOn r c blitted else blitted.

(** The canvas [generateTilePreview] returns. *)
Definition previewCanvas (tileFormat : TileFormat) : canvas :=
  fold_left (fun cv cell => tileOn cell cv) (cells (tileNumber tileFormat))
    (blankCanvas (width texture * tileNumber tileFormat)
                 (height texture * tileNumber tileFormat)).

End PreviewCanvas.

(** ** Running a program to its output *)

(** The pixel at [(x,y)] of the canvas a program returns, if it returns. *)
Definition outputPixel (m : M handle) (w : world) (x y : Z) : option pixel :=
  match m w with
  | Ok out w' => Some (getPixel (lookup out w') x y)
  | Throw _ => None
  end.

(** The channels of a pixel as plain fractions. *)
Definition channels (p : pixel) : Q * Q * Q * Q :=
  (this (red p), this (green p), this (blue p), this (alpha p)).

(** ** Concrete surfaces *)

(** An opaque surface whose pixel [(x,y)] has red x/100 and green y/100,
    so that no two pixels are equal. *)
Definition gridPixel (x y : Z) : pixel :=
  RGBA (Q2Qc (inject_Z x / 100)) (Q2Qc (inject_Z y / 100)) 0 1.

Definition gridCanvas (w h : Z) : canvas :=
  Canvas w h gridPixel defaultState [].

Definition gridWorld (w h : Z) : world := World [gridCanvas w h] 0.

(** An opaque surface of one colour. *)
Definition plainCanvas (w h : Z) (p : pixel) : canvas :=
  Canvas w h (fun _ _ => p) defaultState [].

Definition plainWorld (w h : Z) (p : pixel) : world :=
  World [plainCanvas w h p] 0.

Definition opaqueRed : pixel := rgba 1 0 0 1.
Definition opaqueGreen : pixel := rgba 0 1 0 1.

(** Random draws for the examples: in every round size and destination
    take 3/4 of their range and the source position is the origin. *)
Definition someDraws (i : nat) : Q :=
  match Nat.modulo i 5 with
  | 1%nat | 2%nat => 0
  | _ => 3 # 4
  end.

Definition otherDraws (i : nat) : Q := 1 # 4.



(** A decoded image one pixel wide. *)
Definition thinImage : image := Image 1 3 gridPixel.

Definition noCrop : CropSettings := MkCrop 0 0 0 0.

(** An encoder that writes nothing, where the URLs do not matter. *)
Definition emptyEncoder (c : canvas) (f : OutputFormat) (q : option Q)
  : string := EmptyString.

(** ** applyCrop *)

(** The canvas [applyCrop] returns for a crop that leaves pixels. *)
Definition croppedCanvas (R : Rasteriser) (src : canvas) (crop : CropSettings)
  : canvas :=
  let newWidth := width src - left crop - right crop in
  let newHeight := height src - top crop - bottom crop in
  drawPart R (width src) (height src) (bits src)
    (inject_Z (left crop)) (inject_Z (top crop))
    (inject_Z newWidth) (inject_Z newHeight)
    0 0 (inject_Z newWidth) (inject_Z newHeight)
    (blankCanvas newWidth newHeight).

(** ** Frames and sizes, to state what a call leaves alone *)

(** Every canvas of [w] is in [w'] under its handle, as it was. *)
Definition keepsStore (w w' : world) : Prop :=
  forall h : handle, (h < length (canvases w))%nat -> lookup h w' = lookup h w.

(** [m] returns on [w]: a canvas of size [W] x [H], in a store that has
    kept every canvas of [w]. *)
Definition yields (m : M handle) (w : world) (W H : Z) : Prop :=
  exists out w',
    m w = Ok out w' /\
    keepsStore w w' /\
    (length (canvases w) <= length (canvases w'))%nat /\
    (out < length (canvases w'))%nat /\
    width (lookup out w') = W /\ height (lookup out w') = H.

(** A context that draws upright and simply on top: identity
    transformation, full alpha, source-over, no filter. *)
Definition upright (c : canvas) : Prop :=
  ctm (state c) = identity /\ plain (state c).

(** The smallest side on which a strategy returns a surface for all random
    draws: the Scattered patch canvas needs [0.7 * side >= 1] and the
    smallest PatchBased patch [0.2 * side >= 1]. *)
Definition minSide (method : SeamlessMethod) : Z :=
  if String.eqb method MIRRORED then 1
  else if String.eqb method PATCH_BASED then 5
  else 2.

(** * App.tsx: the state of the component and its handlers

    The component keeps its state in hooks; a handler is a function from the
    state it was rendered with to the state after its [set...] calls.  What
    a handler leaves to a later callback (the [FileReader], the timeout that
    awaits [processTexture]) is returned beside the state and handled by the
    function of the callback. *)

Module App.

(** What the handlers read of a [File]. *)
Record File : Type := MkFile { name : string; size : Z; type : string }.

(** How the promise of [processTexture] settles. *)
Inductive Settled : Type :=
| Resolved (res : ProcessResult)
| Rejected.

Record State : Type := MkState
  { file : option File;
    filePreview : option string;
    isProcessing : bool;
    error : option string;
    result : option ProcessResult;
    method : SeamlessMethod;
    tileFormat : TileFormat;
    markSeams : bool;
    crop : CropSettings;
    averaging : AveragingSettings;
    outFormat : OutputFormat;
    quality : Q }.

(** The initial values of the [useState] calls. *)
Definition initial : State :=
  MkState None None false None None SCATTERED TWO false
          (MkCrop 0 0 0 0) (MkAveraging 0 5) JPEG 92.

Definition setFile (v : option File) (s : State) : State :=
  MkState v (filePreview s) (isProcessing s) (error s) (result s)
          (method s) (tileFormat s) (markSeams s) (crop s) (averaging s)
          (outFormat s) (quality s).

Definition setFilePreview (v : option string) (s : State) : State :=
  MkState (file s) v (isProcessing s) (error s) (result s)
          (method s) (tileFormat s) (markSeams s) (crop s) (averaging s)
          (outFormat s) (quality s).

Definition setIsProcessing (v : bool) (s : State) : State :=
  MkState (file s) (filePreview s) v (error s) (result s)
          (method s) (tileFormat s) (markSeams s) (crop s) (averaging s)
          (outFormat s) (quality s).

Definition setError (v : option string) (s : State) : State :=
  MkState (file s) (filePreview s) (isProcessing s) v (result s)
          (method s) (tileFormat s) (markSeams s) (crop s) (averaging s)
          (outFormat s) (quality s).

Definition setResult (v : option ProcessResult) (s : State) : State :=
  MkState (file s) (filePreview s) (isProcessing s) (error s) v
          (method s) (tileFormat s) (markSeams s) (crop s) (averaging s)
          (outFormat s) (quality s).

Definition setCrop (v : CropSettings) (s : State) : State :=
  MkState (file s) (filePreview s) (isProcessing s) (error s) (result s)
          (method s) (tileFormat s) (markSeams s) v (averaging s)
          (outFormat s) (quality s).

(** 10 * 1024 * 1024 *)
Definition sizeLimit : Z := 10 * 1024 * 1024.

(** [handleFileChange]; [files] is [e.target.files], which can be null or
    empty.  Beside the new state: the file handed to
    [reader.readAsDataURL], if any. *)
Definition handleFileChange (files : option (list File)) (s : State)
  : State * option File :=
  match files with
  | Some (selected :: _) =>
      (* Basic validation *)
      if sizeLimit <? size selected
      then (setError (Some "File size exceeds 10MB limit."%string) s, None)
      else if negb (String.prefix "image/" (type selected))
      then (setError (Some "Please select a valid image file."%string) s, None)
      else (setResult None (setError None (setFile (Some selected) s)),
            Some selected)
  | _ => (s, None)
  end.

(** [reader.onload]: [ev.target?.result] can be missing. *)
Definition onReaderLoad (dataUrl : option string) (s : State) : State :=
  setFilePreview dataUrl s.

(** [!filePreview]: null and the empty string are falsy. *)
Definition missing (v : option string) : bool :=
  match v with
  | None => true
  | Some EmptyString => true
  | Some (String _ _) => false
  end.

(** The arguments of [processTexture] that the timeout callback of
    [handleProcess] has captured. *)
Record Job : Type := MkJob
  { imageSrc : string;
    jobMethod : SeamlessMethod;
    jobTileFormat : TileFormat;
    jobMarkSeams : bool;
    jobCrop : CropSettings;
    jobAveraging : AveragingSettings;
    jobFormat : OutputFormat;
    jobQuality : Q }.

(** [handleProcess] up to [setTimeout]: the new state and the callback it
    has scheduled, if any. *)
Definition handleProcess (s : State) : State * option Job :=
  match filePreview s, file s with
  | Some src, Some _ =>
      if missing (Some src)
      then (setError (Some "Please upload an image first."%string) s, None)
      else (setError None (setIsProcessing true s),
            Some (MkJob src (method s) (tileFormat s) (markSeams s) (crop s)
                        (averaging s) (outFormat s) (quality s)))
  | _, _ => (setError (Some "Please upload an image first."%string) s, None)
  end.

(** The callback after the promise has settled: [setResult] in [try],
    [setError] in [catch], [setIsProcessing(false)] in [finally]. *)
Definition onSettled (o : Settled) (s : State) : State :=
  setIsProcessing false
    match o with
    | Resolved res => setResult (Some res) s
    | Rejected =>
        setError
          (Some "An error occurred while processing the image."%string) s
    end.

(** The crop inputs: [Math.max(0, parseInt(e.target.value) || 0)], where
    [parsed] is the value of [parseInt], [None] for NaN. *)
Inductive Side : Type := Top | Bottom | Left | Right.

Definition cropValue (parsed : option Z) : Z :=
  Z.max 0 match parsed with
          | Some n => n        (* [0 || 0] is 0 as well *)
          | None => 0
          end.

Definition handleCropInput (side : Side) (parsed : option Z) (s : State)
  : State :=
  let c := crop s in
  let v := cropValue parsed in
  setCrop match side with
          | Top => MkCrop v (bottom c) (left c) (right c)
          | Bottom => MkCrop (top c) v (left c) (right c)
          | Left => MkCrop (top c) (bottom c) v (right c)
          | Right => MkCrop (top c) (bottom c) (left c) v
          end s.

Section Processing.

Variable R : Rasteriser.
Variable randomValues : nat -> Q.
Variable encode : canvas -> OutputFormat -> option Q -> string.

(** [loadImage] of imageProcessing.ts: the decoded image, or [None] when
    [img.onerror] fires and the promise is rejected. *)
Variable loadImage : string -> option image.

(** [await processTexture(filePreview, ...)] in the callback: the image is
    loaded, then the pipeline runs on canvases of its own; an exception of
    a canvas call rejects the promise. *)
Definition runJob (j : Job) (w : world) : Settled :=
  match loadImage (imageSrc j) with
  | None => Rejected
  | Some img =>
      match processTexture R randomValues encode img (jobMethod j)
              (jobTileFormat j) (jobMarkSeams j) (jobCrop j) (jobAveraging j)
              (jobFormat j) (jobQuality j) w with
      | Ok res _ => Resolved res
      | Throw _ => Rejected
      end
  end.

(** A call of [handleProcess] with the callback it has scheduled run to
    the end.  This is the handler alone: whether a click reaches it is
    decided by the button, see [click]. *)
Definition generate (s : State) (w : world) : State :=
  match handleProcess s with
  | (s', Some j) => onSettled (runJob j w) s'
  | (s', None) => s'
  end.

(** The Generate button: [disabled={isProcessing || !file}]. *)
Definition disabled (s : State) : bool :=
  isProcessing s || match file s with
                    | None => true
                    | Some _ => false
                    end.

(** A click on the Generate button, [onClick={handleProcess}]: a disabled
    button does not call its handler. *)
Definition click (s : State) (w : world) : State :=
  if disabled s then s else generate s w.

End Processing.

End App.

(** A file the validation accepts, and a data URL. *)
Definition photo : App.File := App.MkFile "photo.png" 2048 "image/png".
Definition photoUrl : string := "data:image/png;base64,iVBORw0KGgo=".

(** * Properties *)

(** ** Pixels *)

Lemma over_transparent_l (d : pixel) : over transparent d = d.
Proof. destruct d; unfold over, transparent; cbn; f_equal; ring. Qed.

Lemma over_transparent_r (s : pixel) : over s transparent = s.
Proof. destruct s; unfold over, transparent; cbn; f_equal; ring. Qed.

Lemma over_opaque (s d : pixel) : opaque s -> over s d = s.
Proof.
  destruct s, d; unfold opaque, over; cbn; intros ->; f_equal; ring.
Qed.

Lemma scalePx_one (p : pixel) : scalePx 1 p = p.
Proof. destruct p; unfold scalePx; cbn; f_equal; ring. Qed.

Lemma Q2Qc_one (q : Q) : (q == 1)%Q -> Q2Qc q = 1%Qc.
Proof. intros H. apply Qc_is_canon. cbn. rewrite Qred_correct. exact H. Qed.

(** ** The store *)

Lemma updateAt_length {A} (n : nat) (f : A -> A) (l : list A) :
  length (updateAt n f l) = length l.
Proof.
  revert n; induction l as [|a l IH]; intros [|n]; cbn; auto.
Qed.

Lemma nth_updateAt {A} (n k : nat) (f : A -> A) (l : list A) (d : A) :
  (n < length l)%nat ->
  nth k (updateAt n f l) d = if Nat.eqb k n then f (nth k l d) else nth k l d.
Proof.
  revert n k; induction l as [|a l IH]; intros n k Hn; cbn in Hn; [lia|].
  destruct n as [|n], k as [|k]; cbn; auto.
  apply IH; lia.
Qed.

Lemma nth_updateAt_other {A} (n k : nat) (f : A -> A) (l : list A) (d : A) :
  n <> k -> nth k (updateAt n f l) d = nth k l d.
Proof.
  revert n k; induction l as [|a l IH]; intros [|n] [|k] H; cbn; auto;
    congruence.
Qed.

Lemma updateAt_updateAt {A} (n : nat) (f g : A -> A) (l : list A) :
  updateAt n g (updateAt n f l) = updateAt n (fun a => g (f a)) l.
Proof.
  revert n; induction l as [|a l IH]; intros [|n]; cbn; auto.
  f_equal. apply IH.
Qed.

Lemma updateAt_app_old {A} (n : nat) (f : A -> A) (l l' : list A) :
  (n < length l)%nat -> updateAt n f (l ++ l') = updateAt n f l ++ l'.
Proof.
  revert n; induction l as [|a l IH]; intros n Hn; cbn in Hn; [lia|].
  destruct n; cbn; [reflexivity|]. f_equal. apply IH; lia.
Qed.

Lemma updateAt_app_new {A} (k : nat) (f : A -> A) (l l' : list A) :
  updateAt (length l + k)%nat f (l ++ l') = l ++ updateAt k f l'.
Proof.
  induction l as [|a l IH]; cbn; [reflexivity|]. f_equal. exact IH.
Qed.

Lemma lookup_old (h : handle) (cs l : list canvas) (n : nat) :
  (h < length cs)%nat ->
  lookup h (World (cs ++ l) n) = nth h cs (blankCanvas 0 0).
Proof. intros H. unfold lookup; cbn. apply app_nth1; exact H. Qed.

Lemma lookup_new (k : nat) (cs l : list canvas) (n : nat) :
  lookup (length cs + k)%nat (World (cs ++ l) n) = nth k l (blankCanvas 0 0).
Proof.
  unfold lookup; cbn. rewrite app_nth2 by lia. f_equal; lia.
Qed.

Lemma lookup_first (cs l : list canvas) (n : nat) :
  lookup (length cs) (World (cs ++ l) n) = nth 0 l (blankCanvas 0 0).
Proof. rewrite <- (Nat.add_0_r (length cs)) at 1. apply lookup_new. Qed.

(** ** Running the monad on a world [cs ++ l] *)

Lemma bind_assoc {A B C} (m : M A) (f : A -> M B) (g : B -> M C) (w : world) :
  bind (bind m f) g w = bind m (fun a => bind (f a) g) w.
Proof. unfold bind. destruct (m w); reflexivity. Qed.

Lemma bind_ret {A B} (a : A) (k : A -> M B) (w : world) :
  bind (ret a) k w = k a w.
Proof. reflexivity. Qed.

Lemma bind_ret_r {A} (m : M A) (w : world) : bind m ret w = m w.
Proof. unfold bind, ret. destruct (m w); reflexivity. Qed.

Lemma forLoop_S (from : Z) (count : nat) (body : Z -> M unit) :
  forLoop from (S count) body
  = bind (body from) (fun _ => forLoop (from + 1) count body).
Proof. reflexivity. Qed.

Section Run.
Context {B : Type}.
Variables (cs l : list canvas) (n : nat).

Lemma run_get_old (h : handle) (k : canvas -> M B) :
  (h < length cs)%nat ->
  bind (getCanvas h) k (World (cs ++ l) n)
  = k (nth h cs (blankCanvas 0 0)) (World (cs ++ l) n).
Proof.
  intros H. unfold bind, getCanvas. rewrite lookup_old by exact H. reflexivity.
Qed.

Lemma run_get_new (N j : nat) (k : canvas -> M B) :
  N = length cs ->
  bind (getCanvas (N + j)%nat) k (World (cs ++ l) n)
  = k (nth j l (blankCanvas 0 0)) (World (cs ++ l) n).
Proof. intros ->. unfold bind, getCanvas. rewrite lookup_new. reflexivity. Qed.

Lemma run_create (N : nat) (w h : Q) (k : handle -> M B) :
  N = length cs ->
  bind (createCanvas w h) k (World (cs ++ l) n)
  = k (N + length l)%nat
      (World (cs ++ (l ++ [blankCanvas (JS.trunc w) (JS.trunc h)])) n).
Proof.
  intros ->. unfold bind, createCanvas. cbn [canvases randomCalls].
  rewrite length_app, <- app_assoc. reflexivity.
Qed.

Lemma run_modify_new (N j : nat) f (k : unit -> M B) :
  N = length cs ->
  bind (modify (N + j)%nat f) k (World (cs ++ l) n)
  = k tt (World (cs ++ updateAt j f l) n).
Proof.
  intros ->. unfold bind, modify. cbn [canvases randomCalls].
  rewrite updateAt_app_new. reflexivity.
Qed.

Lemma run_modify_old (h : handle) f (k : unit -> M B) :
  (h < length cs)%nat ->
  bind (modify h f) k (World (cs ++ l) n)
  = k tt (World (updateAt h f cs ++ l) n).
Proof.
  intros H. unfold bind, modify. cbn [canvases randomCalls].
  rewrite updateAt_app_old by exact H. reflexivity.
Qed.

Lemma run_random rv (k : Q -> M B) :
  bind (Math_random rv) k (World cs n) = k (rv n) (World cs (S n)).
Proof. reflexivity. Qed.

End Run.

Ltac side :=
  rewrite ?updateAt_length; first [assumption | reflexivity | lia].

(** One step of the program on a world [cs' ++ l] whose first part has [N]
    canvases. *)
Ltac mstep N :=
  first
    [ rewrite bind_assoc
    | rewrite bind_ret
    | rewrite run_random
    | rewrite run_get_old by side
    | rewrite (run_get_new _ _ _ N) by side
    | rewrite (run_create _ _ _ N) by side
    | rewrite (run_modify_new _ _ _ N) by side
    | rewrite run_modify_old by side ].

(** ** Numbers *)

Lemma trunc_inject (z : Z) : JS.trunc (inject_Z z) = z.
Proof.
  unfold JS.trunc. destruct (Qle_bool 0 (inject_Z z)).
  - apply Qfloor_Z.
  - apply Qceiling_Z.
Qed.

Lemma trunc_nonneg (q : Q) : (0 <= q)%Q -> JS.trunc q = Qfloor q.
Proof.
  intros H. unfold JS.trunc.
  apply Qle_bool_iff in H. rewrite H. reflexivity.
Qed.

Lemma round_half (n : Z) : JS.round (inject_Z n / 2) = (n + 1) / 2.
Proof.
  unfold JS.round.
  assert (E : (inject_Z n / 2 + (1 # 2) == (n + 1) # 2)%Q).
  { unfold Qeq, Qdiv, Qplus, Qmult, Qinv, inject_Z; cbn. lia. }
  rewrite E. unfold Qfloor. reflexivity.
Qed.


(** Normal form of the canvases in a goal. *)
Ltac msimpl :=
  cbn [length app nth updateAt Nat.add forEach quadrants drawQuadrant
       drawPart fillOn strokeOn pushState popState
       withOp withFilter withFill withStroke withLineWidth
       paintLayer setState setCtm setBits blankCanvas defaultState
       width height state saved bits ctm globalAlpha
       globalCompositeOperation filter fillStyle strokeStyle lineWidth];
  rewrite ?trunc_inject.

(** ** Arithmetic on rationals *)

Local Open Scope Q_scope.

Ltac no_minmax t :=
  lazymatch t with
  | context [Qmax _ _] => fail
  | context [Qmin _ _] => fail
  | _ => idtac
  end.

Ltac case_minmax :=
  match goal with
  | |- context [Qmax ?a ?b] =>
      no_minmax a; no_minmax b;
      let H := fresh "H" in let E := fresh "E" in
      let m := fresh "m" in let Hm := fresh "Hm" in
      destruct (Q.max_spec a b) as [[H E]|[H E]];
      remember (Qmax a b) as m eqn:Hm; clear Hm
  | |- context [Qmin ?a ?b] =>
      no_minmax a; no_minmax b;
      let H := fresh "H" in let E := fresh "E" in
      let m := fresh "m" in let Hm := fresh "Hm" in
      destruct (Q.min_spec a b) as [[H E]|[H E]];
      remember (Qmin a b) as m eqn:Hm; clear Hm
  end.

(** Case analysis on every minimum and maximum, then linear arithmetic. *)
Ltac minmax := repeat case_minmax; try lra.

(** A fact about integers as a fact about rationals. *)
Ltac inQ H :=
  rewrite ?Zle_Qle, ?Zlt_Qlt in H; unfold Z.sub in H;
  rewrite ?inject_Z_plus, ?inject_Z_opp, ?inject_Z_mult in H;
  repeat match type of H with
         | context [inject_Z (Zpos ?p)] =>
             change (inject_Z (Zpos p)) with (Zpos p # 1) in H
         | context [inject_Z (Zneg ?p)] =>
             change (inject_Z (Zneg p)) with (Zneg p # 1) in H
         | context [inject_Z Z0] => change (inject_Z Z0) with 0 in H
         end.

Ltac goalQ :=
  unfold Z.sub;
  rewrite ?inject_Z_plus, ?inject_Z_opp, ?inject_Z_mult;
  repeat match goal with
         | |- context [inject_Z (Zpos ?p)] =>
             change (inject_Z (Zpos p)) with (Zpos p # 1)
         | |- context [inject_Z (Zneg ?p)] =>
             change (inject_Z (Zneg p)) with (Zneg p # 1)
         | |- context [inject_Z Z0] => change (inject_Z Z0) with 0
         end.

(** Division by a numeral as a multiplication, for [lra]. *)
Ltac nodiv :=
  unfold Qdiv in *;
  repeat match goal with
         | |- context [Qinv (Qmake (Zpos ?p) ?d)] =>
             let v := eval cbv in (Qinv (Zpos p # d)) in
             change (Qinv (Zpos p # d)) with v
         | H : context [Qinv (Qmake (Zpos ?p) ?d)] |- _ =>
             let v := eval cbv in (Qinv (Zpos p # d)) in
             change (Qinv (Zpos p # d)) with v in H
         end.

Lemma Qle_bool_false a b : Qle_bool a b = false <-> b < a.
Proof.
  split; intros H.
  - apply Qnot_le_lt. intros C. apply Qle_bool_iff in C. congruence.
  - destruct (Qle_bool a b) eqn:E; auto. apply Qle_bool_iff in E. lra.
Qed.

Lemma Qeq_bool_comp a a' b : a == a' -> Qeq_bool a b = Qeq_bool a' b.
Proof.
  intros E. destruct (Qeq_bool a' b) eqn:B.
  - apply Qeq_bool_iff. apply Qeq_bool_iff in B. lra.
  - destruct (Qeq_bool a b) eqn:B'; auto.
    apply Qeq_bool_iff in B'. assert (a' == b) as C by lra.
    apply Qeq_bool_iff in C. congruence.
Qed.

Lemma Qeq_bool_false_pos q : 0 < q -> Qeq_bool q 0 = false.
Proof.
  intros H. destruct (Qeq_bool q 0) eqn:E; auto.
  apply Qeq_bool_iff in E. lra.
Qed.

Lemma inject_pos (z : Z) : (0 < z)%Z -> 0 < inject_Z z.
Proof. intros H. inQ H. exact H. Qed.

Lemma Qfloor_unique (q : Q) (n : Z) :
  inject_Z n <= q -> q < inject_Z n + 1 -> Qfloor q = n.
Proof.
  intros Hlo Hhi.
  pose proof (Qfloor_le q) as H1. pose proof (Qlt_floor q) as H2.
  rewrite inject_Z_plus in H2.
  assert (inject_Z (Qfloor q) < inject_Z (n + 1)) as A
    by (rewrite inject_Z_plus; change (inject_Z 1) with 1; lra).
  assert (inject_Z n < inject_Z (Qfloor q + 1)) as B
    by (rewrite inject_Z_plus; lra).
  rewrite <- Zlt_Qlt in A, B. lia.
Qed.

Lemma Qmax_inject a b : Qmax (inject_Z a) (inject_Z b) == inject_Z (Z.max a b).
Proof.
  destruct (Z.max_spec a b) as [[H ->]|[H ->]].
  - apply Q.max_r. rewrite <- Zle_Qle. lia.
  - apply Q.max_l. rewrite <- Zle_Qle. lia.
Qed.

Lemma Qmin_inject a b : Qmin (inject_Z a) (inject_Z b) == inject_Z (Z.min a b).
Proof.
  destruct (Z.min_spec a b) as [[H ->]|[H ->]].
  - apply Q.min_l. rewrite <- Zle_Qle. lia.
  - apply Q.min_r. rewrite <- Zle_Qle. lia.
Qed.

Lemma fraction_of (r t : Q) :
  0 <= r -> r < 1 -> 0 <= t -> 0 <= r * t /\ r * t <= t.
Proof.
  intros H0 H1 Ht. split.
  - apply Qmult_le_0_compat; assumption.
  - rewrite <- (Qmult_1_l t) at 2. apply Qmult_le_compat_r; lra.
Qed.

Local Close Scope Q_scope.

(** ** Coverage and sampling *)

Local Open Scope Q_scope.

Lemma span_zero_lo lo hi x : inject_Z x + 1 <= lo -> span lo hi x == 0.
Proof. intros. unfold span. minmax. Qed.

Lemma span_zero_hi lo hi x : hi <= inject_Z x -> span lo hi x == 0.
Proof. intros. unfold span. minmax. Qed.

Lemma span_one lo hi x :
  lo <= inject_Z x -> inject_Z x + 1 <= hi -> span lo hi x == 1.
Proof. intros. unfold span. minmax. Qed.

Lemma span_comp lo hi lo' hi' x :
  lo == lo' -> hi == hi' -> span lo hi x == span lo' hi' x.
Proof. intros. unfold span. minmax. Qed.

Lemma shade_comp c c' p : c == c' -> shade c p = shade c' p.
Proof.
  intros E. unfold shade.
  assert (Qle_bool c 0 = Qle_bool c' 0) as ->.
  { destruct (Qle_bool c' 0) eqn:B.
    - apply Qle_bool_iff. apply Qle_bool_iff in B. lra.
    - apply Qle_bool_false. apply Qle_bool_false in B. lra. }
  destruct (Qle_bool c' 0); auto.
  f_equal. apply Qc_is_canon. cbn. rewrite E. reflexivity.
Qed.

Lemma shade_zero c p : c == 0 -> shade c p = transparent.
Proof.
  intros E. unfold shade.
  assert (Qle_bool c 0 = true) as -> by (apply Qle_bool_iff; lra).
  reflexivity.
Qed.

Lemma shade_one c p : c == 1 -> shade c p = p.
Proof.
  intros E. unfold shade.
  assert (Qle_bool c 0 = false) as -> by (apply Qle_bool_false; lra).
  rewrite (Q2Qc_one _ E). apply scalePx_one.
Qed.

Lemma isCentre_comp a a' : a == a' -> isCentre a = isCentre a'.
Proof.
  intros E. unfold isCentre. rewrite (Qfloor_comp _ _ E).
  apply Qeq_bool_comp. lra.
Qed.

Lemma sampleImage_comp R iw ih ib x y kx ky x' y' kx' ky' :
  x == x' -> y == y' -> kx == kx' -> ky == ky' ->
  sampleImage R iw ih ib x y kx ky = sampleImage R iw ih ib x' y' kx' ky'.
Proof.
  intros Ex Ey Ekx Eky. unfold sampleImage.
  rewrite (Qeq_bool_comp _ _ _ Ekx), (Qeq_bool_comp _ _ _ Eky).
  rewrite (isCentre_comp _ _ Ex), (isCentre_comp _ _ Ey).
  rewrite (Qfloor_comp _ _ Ex), (Qfloor_comp _ _ Ey).
  rewrite (Qred_complete _ _ Ex), (Qred_complete _ _ Ey).
  rewrite (Qred_complete _ _ Ekx), (Qred_complete _ _ Eky).
  reflexivity.
Qed.

(** At scale one, centre on centre, the sample is the image pixel. *)
Lemma sampleImage_exact R iw ih ib (u v : Z) x y kx ky :
  x == inject_Z u + (1 # 2) -> y == inject_Z v + (1 # 2) ->
  kx == 1 -> ky == 1 ->
  sampleImage R iw ih ib x y kx ky
  = if inside iw ih u v then ib u v else transparent.
Proof.
  intros Ex Ey Ekx Eky.
  rewrite (sampleImage_comp R iw ih ib _ _ _ _ _ _ _ _ Ex Ey Ekx Eky).
  unfold sampleImage, isCentre.
  rewrite (Qfloor_unique (inject_Z u + (1 # 2)) u) by lra.
  rewrite (Qfloor_unique (inject_Z v + (1 # 2)) v) by lra.
  assert (Qeq_bool (inject_Z u + (1 # 2) - inject_Z u) (1 # 2) = true) as ->
    by (apply Qeq_bool_iff; lra).
  assert (Qeq_bool (inject_Z v + (1 # 2) - inject_Z v) (1 # 2) = true) as ->
    by (apply Qeq_bool_iff; lra).
  reflexivity.
Qed.

(** *** An unscaled axis under the identity transformation *)

Lemma destOf_unscaled s sl d c : ~ sl == 0 -> destOf s sl d sl c == d + c - s.
Proof. intros. unfold destOf. field. assumption. Qed.

Lemma axisCover_unscaled s sl d il x :
  0 < sl ->
  axisCover 1 0 s sl d sl il x
  == if Qle_bool (clipHi s sl il) (clipLo s) then 0
     else span (d + clipLo s - s) (d + clipHi s sl il - s) x.
Proof.
  intros Hsl. unfold axisCover.
  destruct (Qle_bool (clipHi s sl il) (clipLo s)) eqn:B; [reflexivity|].
  apply Qle_bool_false in B.
  assert (N : ~ sl == 0) by lra.
  pose proof (destOf_unscaled s sl d (clipLo s) N) as E0.
  pose proof (destOf_unscaled s sl d (clipHi s sl il) N) as E1.
  revert E0 E1.
  generalize (destOf s sl d sl (clipLo s)) (destOf s sl d sl (clipHi s sl il)).
  intros u0 u1 E0 E1. revert B E0 E1.
  generalize (clipLo s) (clipHi s sl il). intros c0 c1 B E0 E1.
  unfold deviceLo, deviceHi, span. minmax.
Qed.

Lemma axisSource_unscaled s sl d x :
  ~ sl == 0 ->
  axisSource 1 0 s sl d sl x == s + inject_Z x + (1 # 2) - d.
Proof. intros. unfold axisSource, userCentre. field. assumption. Qed.

Lemma axisScale_unscaled sl : ~ sl == 0 -> axisScale 1 sl sl == 1.
Proof.
  intros. unfold axisScale.
  assert (sl / (sl * 1) == 1) as -> by (field; assumption).
  reflexivity.
Qed.

Lemma axisCover_copy (s sl d il x : Z) :
  (0 < sl)%Z ->
  axisCover 1 0 (inject_Z s) (inject_Z sl) (inject_Z d) (inject_Z sl) il x
  == if copied s sl d il x then 1 else 0.
Proof.
  intros Hsl.
  pose proof (inject_pos _ Hsl) as Hq.
  rewrite (axisCover_unscaled _ _ _ _ _ Hq).
  unfold clipLo, clipHi, copied.
  pose proof (Qmax_inject s 0) as Ea. change (inject_Z 0) with 0 in Ea.
  pose proof (Qmin_inject (s + sl) il) as Eb. rewrite inject_Z_plus in Eb.
  revert Ea Eb.
  generalize (Qmax (inject_Z s) 0) (Qmin (inject_Z s + inject_Z sl) (inject_Z il)).
  intros c0 c1 Ea Eb.
  destruct (Qle_bool c1 c0) eqn:B.
  - apply Qle_bool_iff in B. rewrite Ea, Eb in B. rewrite <- Zle_Qle in B.
    destruct (Z.leb_spec (Z.max s 0) (x - d + s)); cbn; [|reflexivity].
    destruct (Z.ltb_spec (x - d + s) (Z.min (s + sl) il)); cbn; [lia|reflexivity].
  - apply Qle_bool_false in B. rewrite Ea, Eb in B. rewrite <- Zlt_Qlt in B.
    destruct (Z.leb_spec (Z.max s 0) (x - d + s)) as [L|L]; cbn.
    + destruct (Z.ltb_spec (x - d + s) (Z.min (s + sl) il)) as [U|U]; cbn.
      * assert (x - d + s + 1 <= Z.min (s + sl) il)%Z as U' by lia.
        inQ L. inQ U'. apply span_one; lra.
      * inQ U. apply span_zero_hi; lra.
    + assert (x - d + s + 1 <= Z.max s 0)%Z as L' by lia.
      inQ L'. apply span_zero_lo; lra.
Qed.

Lemma copied_inside sx sw dx iw x sy sh dy ih y :
  copied sx sw dx iw x = true -> copied sy sh dy ih y = true ->
  inside iw ih (x - dx + sx) (y - dy + sy) = true.
Proof.
  unfold copied, inside. intros H1 H2.
  apply andb_true_iff in H1 as [A B]. apply andb_true_iff in H2 as [C D].
  apply Z.leb_le in A, C. apply Z.ltb_lt in B, D.
  repeat (apply andb_true_iff; split);
    try apply Z.leb_le; try apply Z.ltb_lt; lia.
Qed.

Lemma copied_whole (n x : Z) : (0 <= x < n)%Z -> copied 0 n 0 n x = true.
Proof.
  intros H. unfold copied.
  apply andb_true_iff. split; [apply Z.leb_le|apply Z.ltb_lt]; lia.
Qed.

Lemma imageCover_copy iw ih (sx sy sw sh dx dy x y : Z) :
  (0 < sw)%Z -> (0 < sh)%Z ->
  imageCover identity iw ih
    (inject_Z sx) (inject_Z sy) (inject_Z sw) (inject_Z sh)
    (inject_Z dx) (inject_Z dy) (inject_Z sw) (inject_Z sh) x y
  == if copied sx sw dx iw x && copied sy sh dy ih y then 1 else 0.
Proof.
  intros Hw Hh. unfold imageCover. cbn [identity ma md me mf].
  pose proof (inject_pos _ Hw) as Qw. pose proof (inject_pos _ Hh) as Qh.
  rewrite (Qeq_bool_false_pos _ Qw), (Qeq_bool_false_pos _ Qh). cbn [orb].
  rewrite (axisCover_copy sx sw dx iw x Hw), (axisCover_copy sy sh dy ih y Hh).
  destruct (copied sx sw dx iw x), (copied sy sh dy ih y); reflexivity.
Qed.

(** An unscaled copy between integer positions under the identity
    transformation copies pixels. *)
Lemma layerOfImage_copy R iw ih ib (sx sy sw sh dx dy x y : Z) :
  (0 < sw)%Z -> (0 < sh)%Z ->
  layerOfImage R identity iw ih ib
    (inject_Z sx) (inject_Z sy) (inject_Z sw) (inject_Z sh)
    (inject_Z dx) (inject_Z dy) (inject_Z sw) (inject_Z sh) x y
  = if copied sx sw dx iw x && copied sy sh dy ih y
    then ib (x - dx + sx)%Z (y - dy + sy)%Z else transparent.
Proof.
  intros Hw Hh. unfold layerOfImage.
  pose proof (imageCover_copy iw ih sx sy sw sh dx dy x y Hw Hh) as C.
  pose proof (inject_pos _ Hw) as Qw. pose proof (inject_pos _ Hh) as Qh.
  destruct (copied sx sw dx iw x) eqn:Bx; cbn [andb] in *;
    [destruct (copied sy sh dy ih y) eqn:By|].
  - rewrite shade_one by exact C. cbn [identity ma md me mf].
    rewrite (sampleImage_exact R iw ih ib (x - dx + sx) (y - dy + sy)).
    + rewrite (copied_inside _ _ _ _ _ _ _ _ _ _ Bx By). reflexivity.
    + rewrite axisSource_unscaled by lra. goalQ. lra.
    + rewrite axisSource_unscaled by lra. goalQ. lra.
    + apply axisScale_unscaled; lra.
    + apply axisScale_unscaled; lra.
  - apply shade_zero. exact C.
  - apply shade_zero. exact C.
Qed.

(** Outside the destination rectangle of an unscaled, untransformed draw
    of a whole image the layer is transparent. *)
Lemma axisCover_whole_outside (il : Z) (d : Q) (x : Z) :
  (0 < il)%Z ->
  inject_Z x + 1 <= d \/ d + inject_Z il <= inject_Z x ->
  axisCover 1 0 0 (inject_Z il) d (inject_Z il) il x == 0.
Proof.
  intros Hl H. pose proof (inject_pos _ Hl) as Q.
  rewrite (axisCover_unscaled _ _ _ _ _ Q).
  unfold clipLo, clipHi.
  destruct (Qle_bool _ _); [reflexivity|].
  destruct H; [apply span_zero_lo|apply span_zero_hi]; minmax.
Qed.

Lemma layerOfImage_whole_outside R iw ih ib (dx dy : Q) (x y : Z) :
  (0 < iw)%Z -> (0 < ih)%Z ->
  inject_Z x + 1 <= dx \/ dx + inject_Z iw <= inject_Z x \/
  inject_Z y + 1 <= dy \/ dy + inject_Z ih <= inject_Z y ->
  layerOfImage R identity iw ih ib 0 0 (inject_Z iw) (inject_Z ih)
    dx dy (inject_Z iw) (inject_Z ih) x y = transparent.
Proof.
  intros Hw Hh H. unfold layerOfImage, imageCover.
  apply shade_zero. cbn [identity ma md me mf].
  destruct (_ || _); [reflexivity|].
  destruct H as [H|[H|H]].
  - rewrite (axisCover_whole_outside iw dx x Hw) by (left; exact H). lra.
  - rewrite (axisCover_whole_outside iw dx x Hw) by (right; exact H). lra.
  - rewrite (axisCover_whole_outside ih dy y Hh) by exact H. lra.
Qed.

(** *** Flipped axes *)

Lemma axisCover_comp k k' o o' s sl d dl il x :
  k == k' -> o == o' ->
  axisCover k o s sl d dl il x == axisCover k' o' s sl d dl il x.
Proof.
  intros Hk Ho. unfold axisCover.
  destruct (Qle_bool _ _); [reflexivity|].
  unfold deviceLo, deviceHi. apply span_comp; rewrite Hk, Ho; reflexivity.
Qed.

Lemma userCentre_comp k k' o o' x :
  k == k' -> o == o' -> userCentre k o x == userCentre k' o' x.
Proof. intros Hk Ho. unfold userCentre. rewrite Hk, Ho. reflexivity. Qed.

Lemma sameAxis_comp k o k' o' x :
  k == k' -> o == o' -> sameAxis k o x k' o' x.
Proof.
  intros Hk Ho s sl d dl il _. repeat split.
  - apply axisCover_comp; assumption.
  - unfold axisSource.
    rewrite (userCentre_comp k k' o o' x Hk Ho). reflexivity.
  - unfold axisScale. rewrite Hk. reflexivity.
Qed.

(** The device pixel [x] of an axis mirrored about [W] is the device pixel
    [W - 1 - x] of the plain axis. *)
Lemma axisCover_flip k o s sl d dl il (W x : Z) :
  k == -1 -> o == inject_Z W ->
  axisCover k o s sl d dl il x == axisCover 1 0 s sl d dl il (W - 1 - x).
Proof.
  intros Hk Ho.
  rewrite (axisCover_comp k (-1) o (inject_Z W)) by assumption.
  unfold axisCover.
  destruct (Qle_bool _ _); [reflexivity|].
  generalize (destOf s sl d dl (clipLo s)) (destOf s sl d dl (clipHi s sl il)).
  intros u0 u1. unfold deviceLo, deviceHi, span. goalQ. minmax.
Qed.

Lemma userCentre_flip k o (W x : Z) :
  k == -1 -> o == inject_Z W ->
  userCentre k o x == userCentre 1 0 (W - 1 - x).
Proof.
  intros Hk Ho. unfold userCentre. rewrite Hk, Ho. goalQ. field.
Qed.

Lemma sameAxis_flip k o (W x : Z) :
  k == -1 -> o == inject_Z W -> sameAxis k o x 1 0 (W - 1 - x).
Proof.
  intros Hk Ho s sl d dl il Hd. repeat split.
  - apply axisCover_flip; assumption.
  - unfold axisSource.
    rewrite (userCentre_flip k o W x Hk Ho). reflexivity.
  - unfold axisScale. rewrite Hk.
    assert (sl / (dl * -1) == - (sl / (dl * 1))) as -> by (field; lra).
    apply Qabs_opp.
Qed.

Lemma layerOfImage_same R m m' iw ih ib sx sy sw sh dx dy dw dh x y x' y' :
  ~ dw == 0 -> ~ dh == 0 ->
  sameAxis (ma m) (me m) x (ma m') (me m') x' ->
  sameAxis (md m) (mf m) y (md m') (mf m') y' ->
  layerOfImage R m iw ih ib sx sy sw sh dx dy dw dh x y
  = layerOfImage R m' iw ih ib sx sy sw sh dx dy dw dh x' y'.
Proof.
  intros Hdw Hdh Hx Hy. unfold layerOfImage.
  destruct (Hx sx sw dx dw iw Hdw) as (Cx & Sx & Kx).
  destruct (Hy sy sh dy dh ih Hdh) as (Cy & Sy & Ky).
  rewrite (sampleImage_comp R iw ih ib _ _ _ _ _ _ _ _ Sx Sy Kx Ky).
  apply shade_comp. unfold imageCover.
  destruct (_ || _); [reflexivity|]. rewrite Cx, Cy. reflexivity.
Qed.

(** The whole image drawn at half size from the origin leaves the second
    half of the axis uncovered. *)
Lemma axisCover_half_outside (n x : Z) :
  (0 < n)%Z -> inject_Z n / 2 <= inject_Z x ->
  axisCover 1 0 0 (inject_Z n) 0 (inject_Z n / 2) n x == 0.
Proof.
  intros Hn Hx. pose proof (inject_pos _ Hn) as Q.
  unfold axisCover, clipLo, clipHi.
  destruct (Qle_bool _ _); [reflexivity|].
  assert (E0 : destOf 0 (inject_Z n) 0 (inject_Z n / 2) (Qmax 0 0) == 0).
  { unfold destOf. rewrite Q.max_id. field. lra. }
  assert (E1 : destOf 0 (inject_Z n) 0 (inject_Z n / 2)
                 (Qmin (0 + inject_Z n) (inject_Z n)) == inject_Z n / 2).
  { unfold destOf. rewrite Q.min_l by lra. field. lra. }
  apply span_zero_hi. unfold deviceHi. rewrite E0, E1.
  nodiv. minmax.
Qed.

Lemma half_nonzero (n : Z) : (1 <= n)%Z -> ~ inject_Z n / 2 == 0.
Proof. intros H. inQ H. nodiv. lra. Qed.

Local Close Scope Q_scope.

(** ** Painting *)

Lemma plain_default : plain defaultState.
Proof. repeat split. Qed.

Lemma inside_true w h x y :
  0 <= x < w -> 0 <= y < h -> inside w h x y = true.
Proof.
  intros. unfold inside.
  repeat (apply andb_true_iff; split);
    try apply Z.leb_le; try apply Z.ltb_lt; lia.
Qed.

Lemma getPixel_inside c x y :
  0 <= x < width c -> 0 <= y < height c -> getPixel c x y = bits c x y.
Proof. intros Hx Hy. unfold getPixel. rewrite inside_true; auto. Qed.

Lemma bits_paintLayer_plain R L c x y :
  plain (state c) ->
  bits (paintLayer R L c) x y
  = if inside (width c) (height c) x y then over (L x y) (bits c x y)
    else bits c x y.
Proof.
  intros (Ha & Hop & Hf). unfold paintLayer, painted, filtered. cbn [bits].
  rewrite Ha, Hop, Hf. cbn [compose].
  replace (Q2Qc 1) with 1%Qc by (apply Qc_is_canon; reflexivity).
  rewrite scalePx_one. reflexivity.
Qed.

Lemma bits_drawWhole_outside R img dx dy c x y :
  tidy c -> 0 < width img -> 0 < height img ->
  (inject_Z x + 1 <= dx \/ dx + inject_Z (width img) <= inject_Z x \/
   inject_Z y + 1 <= dy \/ dy + inject_Z (height img) <= inject_Z y)%Q ->
  bits (drawWhole R img dx dy c) x y = bits c x y.
Proof.
  intros Hc Hw Hh Hout. unfold drawWhole, drawPart.
  rewrite bits_paintLayer_plain by (rewrite Hc; exact plain_default).
  rewrite Hc. cbn [defaultState ctm].
  rewrite layerOfImage_whole_outside by assumption.
  rewrite over_transparent_l. destruct (inside _ _ _ _); reflexivity.
Qed.

Lemma bits_drawWhole_copy R img c x y :
  tidy c -> 0 <= x < width img -> 0 <= y < height img ->
  0 <= x < width c -> 0 <= y < height c ->
  bits (drawWhole R img 0 0 c) x y = over (bits img x y) (bits c x y).
Proof.
  intros Hc Hx Hy Hx' Hy'. unfold drawWhole, drawPart.
  rewrite bits_paintLayer_plain by (rewrite Hc; exact plain_default).
  rewrite (inside_true _ _ _ _ Hx' Hy').
  rewrite Hc. cbn [defaultState ctm].
  change 0%Q with (inject_Z 0).
  rewrite layerOfImage_copy by lia.
  rewrite !copied_whole by assumption.
  cbn [andb]. rewrite !Z.sub_0_r, !Z.add_0_r. reflexivity.
Qed.

(** ** generateMirrored *)

Lemma run_mirrored {B} R (srcCanvas : handle) (k : handle -> M B) cs n :
  (srcCanvas < length cs)%nat ->
  1 <= width (nth srcCanvas cs (blankCanvas 0 0)) ->
  1 <= height (nth srcCanvas cs (blankCanvas 0 0)) ->
  bind (generateMirrored R srcCanvas) k (World cs n)
  = k (length cs + 0)%nat
      (World (cs ++ [mirroredCanvas R (nth srcCanvas cs (blankCanvas 0 0))]) n).
Proof.
  intros Hs Hw Hh.
  set (src := nth srcCanvas cs (blankCanvas 0 0)) in *.
  assert (Hw0 : (width src =? 0) = false) by lia.
  assert (Hh0 : (height src =? 0) = false) by lia.
  replace (World cs n) with (World (cs ++ []) n)
    by (rewrite app_nil_r; reflexivity).
  unfold generateMirrored, drawImage9, save, restore, translate, scale.
  repeat mstep (length cs). fold src. msimpl.
  repeat (repeat mstep (length cs); fold src; rewrite ?Hw0, ?Hh0;
          cbn [orb]; msimpl).
  unfold mirroredCanvas, quarterLayer, flipX, flipY, flipXY.
  msimpl. reflexivity.
Qed.

Section MirroredPixels.
Variable R : Rasteriser.
Variable src : canvas.
Hypothesis Hw : 1 <= width src.
Hypothesis Hh : 1 <= height src.

Lemma quarter_flipX x y :
  quarterLayer R src (flipX src) x y
  = quarterLayer R src identity (width src - 1 - x) y.
Proof.
  unfold quarterLayer. apply layerOfImage_same.
  - apply half_nonzero; exact Hw.
  - apply half_nonzero; exact Hh.
  - apply sameAxis_flip;
      cbn [flipX scaleM translateM identity ma md me mf]; lra.
  - apply sameAxis_comp;
      cbn [flipX scaleM translateM identity ma md me mf]; lra.
Qed.

Lemma quarter_flipY x y :
  quarterLayer R src (flipY src) x y
  = quarterLayer R src identity x (height src - 1 - y).
Proof.
  unfold quarterLayer. apply layerOfImage_same.
  - apply half_nonzero; exact Hw.
  - apply half_nonzero; exact Hh.
  - apply sameAxis_comp;
      cbn [flipY scaleM translateM identity ma md me mf]; lra.
  - apply sameAxis_flip;
      cbn [flipY scaleM translateM identity ma md me mf]; lra.
Qed.

Lemma quarter_flipXY x y :
  quarterLayer R src (flipXY src) x y
  = quarterLayer R src identity (width src - 1 - x) (height src - 1 - y).
Proof.
  unfold quarterLayer. apply layerOfImage_same.
  - apply half_nonzero; exact Hw.
  - apply half_nonzero; exact Hh.
  - apply sameAxis_flip;
      cbn [flipXY scaleM translateM identity ma md me mf]; lra.
  - apply sameAxis_flip;
      cbn [flipXY scaleM translateM identity ma md me mf]; lra.
Qed.

Lemma quarter_outside_x x y :
  width src <= 2 * x -> quarterLayer R src identity x y = transparent.
Proof.
  intros H. unfold quarterLayer, layerOfImage. apply shade_zero.
  unfold imageCover. destruct (_ || _); [reflexivity|].
  cbn [identity ma md me mf].
  rewrite axisCover_half_outside; [ring|lia|].
  inQ H. nodiv. lra.
Qed.

Lemma quarter_outside_y x y :
  height src <= 2 * y -> quarterLayer R src identity x y = transparent.
Proof.
  intros H. unfold quarterLayer, layerOfImage. apply shade_zero.
  unfold imageCover. destruct (_ || _); [reflexivity|].
  cbn [identity ma md me mf].
  rewrite (axisCover_half_outside (height src)); [ring|lia|].
  inQ H. nodiv. lra.
Qed.

(** Every pixel of the output is the stack of the four quarter images,
    each read at the mirrored position. *)
Lemma bits_mirrored x y :
  0 <= x < width src -> 0 <= y < height src ->
  bits (mirroredCanvas R src) x y
  = over (quarterLayer R src identity (width src - 1 - x) (height src - 1 - y))
      (over (quarterLayer R src identity x (height src - 1 - y))
         (over (quarterLayer R src identity (width src - 1 - x) y)
            (over (quarterLayer R src identity x y) transparent))).
Proof.
  intros Hx Hy. unfold mirroredCanvas.
  rewrite !bits_paintLayer_plain by exact plain_default.
  cbn [paintLayer blankCanvas width height bits].
  rewrite (inside_true _ _ _ _ Hx Hy).
  rewrite quarter_flipX, quarter_flipY, quarter_flipXY.
  reflexivity.
Qed.

Lemma mirrored_columns y :
  0 <= y < height src ->
  bits (mirroredCanvas R src) 0 y
  = bits (mirroredCanvas R src) (width src - 1) y.
Proof.
  intros Hy.
  destruct (Z.eq_dec (width src) 1) as [E|E]; [rewrite E; reflexivity|].
  rewrite !bits_mirrored by lia.
  replace (width src - 1 - (width src - 1)) with 0 by lia.
  replace (width src - 1 - 0) with (width src - 1) by lia.
  rewrite !(quarter_outside_x (width src - 1)) by lia.
  rewrite !over_transparent_l, !over_transparent_r. reflexivity.
Qed.

Lemma mirrored_rows x :
  0 <= x < width src ->
  bits (mirroredCanvas R src) x 0
  = bits (mirroredCanvas R src) x (height src - 1).
Proof.
  intros Hx.
  destruct (Z.eq_dec (height src) 1) as [E|E]; [rewrite E; reflexivity|].
  rewrite !bits_mirrored by lia.
  replace (height src - 1 - (height src - 1)) with 0 by lia.
  replace (height src - 1 - 0) with (height src - 1) by lia.
  rewrite !(quarter_outside_y _ (height src - 1)) by lia.
  rewrite !over_transparent_l, !over_transparent_r. reflexivity.
Qed.

End MirroredPixels.

(** ** generateScattered *)

Lemma patch_dim_pos (n : Z) : 2 <= n -> 1 <= JS.trunc (inject_Z n * (7 # 10)).
Proof.
  intros H. inQ H.
  rewrite trunc_nonneg by lra.
  change 1 with (Qfloor 1). apply Qfloor_resp_le. lra.
Qed.

Lemma width_scattered R src : width (scatteredCanvas R src) = width src.
Proof. reflexivity. Qed.

Lemma height_scattered R src : height (scatteredCanvas R src) = height src.
Proof. reflexivity. Qed.

Lemma run_scattered {B} R (srcCanvas : handle) (k : handle -> M B) cs n :
  (srcCanvas < length cs)%nat ->
  2 <= width (nth srcCanvas cs (blankCanvas 0 0)) ->
  2 <= height (nth srcCanvas cs (blankCanvas 0 0)) ->
  bind (generateScattered R srcCanvas) k (World cs n)
  = k (length cs + 0)%nat
      (World (cs ++ [scatteredCanvas R (nth srcCanvas cs (blankCanvas 0 0));
                     scatterMask (nth srcCanvas cs (blankCanvas 0 0));
                     scatterPatch R (nth srcCanvas cs (blankCanvas 0 0))]) n).
Proof.
  intros Hs Hw Hh.
  set (src := nth srcCanvas cs (blankCanvas 0 0)) in *.
  assert (Hw0 : (width src =? 0) = false) by lia.
  assert (Hh0 : (height src =? 0) = false) by lia.
  pose proof (patch_dim_pos _ Hw) as Pw. pose proof (patch_dim_pos _ Hh) as Ph.
  assert (Pw0 : (JS.trunc (inject_Z (width src) * (7 # 10)) =? 0) = false)
    by lia.
  assert (Ph0 : (JS.trunc (inject_Z (height src) * (7 # 10)) =? 0) = false)
    by lia.
  replace (World cs n) with (World (cs ++ []) n)
    by (rewrite app_nil_r; reflexivity).
  unfold generateScattered, set_globalCompositeOperation, set_fillStyle,
    fillRect, drawImage3, drawImage9.
  repeat mstep (length cs). fold src. msimpl. unfold drawImage9.
  repeat (repeat mstep (length cs); fold src; rewrite ?Hw0, ?Hh0, ?Pw0, ?Ph0;
          cbn [orb]; msimpl).
  unfold scatteredCanvas, scatterPatch, scatterMask, shiftedCanvas, drawWhole,
    scatterGradient, quadrantLayer.
  cbn [fold_left]. msimpl.
  reflexivity.
Qed.

(** On a surface one pixel wide or high the patch canvas has no pixels and
    pasting it raises [InvalidStateError]. *)
Lemma scattered_throws R (srcCanvas : handle) cs n :
  (srcCanvas < length cs)%nat ->
  1 <= width (nth srcCanvas cs (blankCanvas 0 0)) ->
  1 <= height (nth srcCanvas cs (blankCanvas 0 0)) ->
  width (nth srcCanvas cs (blankCanvas 0 0)) = 1 \/
  height (nth srcCanvas cs (blankCanvas 0 0)) = 1 ->
  generateScattered R srcCanvas (World cs n) = Throw InvalidStateError.
Proof.
  intros Hs Hw Hh H1.
  set (src := nth srcCanvas cs (blankCanvas 0 0)) in *.
  assert (Hw0 : (width src =? 0) = false) by lia.
  assert (Hh0 : (height src =? 0) = false) by lia.
  assert (P0 : (JS.trunc (inject_Z (width src) * (7 # 10)) =? 0)
               || (JS.trunc (inject_Z (height src) * (7 # 10)) =? 0) = true).
  { destruct H1 as [-> | ->]; [reflexivity|]. apply orb_true_r. }
  replace (World cs n) with (World (cs ++ []) n)
    by (rewrite app_nil_r; reflexivity).
  unfold generateScattered, set_globalCompositeOperation, set_fillStyle,
    fillRect, drawImage3, drawImage9.
  repeat mstep (length cs). fold src. msimpl. unfold drawImage9.
  repeat (repeat mstep (length cs); fold src; rewrite ?Hw0, ?Hh0, ?P0;
          cbn [orb]; msimpl).
  reflexivity.
Qed.

Lemma half_bounds (n : Z) :
  0 < n ->
  1 <= (n + 1) / 2 <= n /\ n <= 2 * ((n + 1) / 2) <= n + 1.
Proof.
  intros Hn.
  pose proof (Z.mul_succ_div_gt (n + 1) 2).
  pose proof (Z.mul_div_le (n + 1) 2).
  lia.
Qed.

Lemma copied_first (n x : Z) :
  0 < n -> 0 <= x < n ->
  copied 0 ((n + 1) / 2) ((n + 1) / 2) n x = ((n + 1) / 2 <=? x).
Proof.
  intros Hn Hx. unfold copied.
  destruct (half_bounds n Hn) as [? ?].
  destruct (Z.leb_spec ((n + 1) / 2) x);
    destruct (Z.leb_spec (Z.max 0 0) (x - (n + 1) / 2 + 0));
    destruct (Z.ltb_spec (x - (n + 1) / 2 + 0) (Z.min (0 + (n + 1) / 2) n));
    cbn; try reflexivity; lia.
Qed.

Lemma copied_second (n x : Z) :
  0 < n -> 0 <= x < n ->
  copied ((n + 1) / 2) ((n + 1) / 2) 0 n x = (x <? n - (n + 1) / 2).
Proof.
  intros Hn Hx. unfold copied.
  destruct (half_bounds n Hn) as [? ?].
  destruct (Z.ltb_spec x (n - (n + 1) / 2));
    destruct (Z.leb_spec (Z.max ((n + 1) / 2) 0) (x - 0 + (n + 1) / 2));
    destruct (Z.ltb_spec (x - 0 + (n + 1) / 2)
                         (Z.min ((n + 1) / 2 + (n + 1) / 2) n));
    cbn; try reflexivity; lia.
Qed.

(** Step 1 is the half-size shift. *)
Lemma bits_shifted R src x y :
  0 <= x < width src -> 0 <= y < height src ->
  bits (shiftedCanvas R src) x y = halfShift src x y.
Proof.
  intros Hx Hy.
  unfold shiftedCanvas. cbn [fold_left quadrants].
  rewrite !bits_paintLayer_plain by exact plain_default.
  cbn [paintLayer blankCanvas width height bits].
  rewrite (inside_true _ _ _ _ Hx Hy).
  unfold quadrantLayer.
  rewrite !round_half.
  assert (0 < (width src + 1) / 2) by (apply Z.div_str_pos; lia).
  assert (0 < (height src + 1) / 2) by (apply Z.div_str_pos; lia).
  rewrite !layerOfImage_copy by assumption.
  rewrite !copied_first, !copied_second by lia.
  unfold halfShift, shiftCoord. rewrite !round_half.
  destruct (half_bounds (width src)) as [? ?]; [lia|].
  destruct (half_bounds (height src)) as [? ?]; [lia|].
  destruct (Z.leb_spec ((width src + 1) / 2) x);
    destruct (Z.ltb_spec x (width src - (width src + 1) / 2));
    destruct (Z.leb_spec ((height src + 1) / 2) y);
    destruct (Z.ltb_spec y (height src - (height src + 1) / 2));
    cbn [andb]; try lia;
    rewrite ?over_transparent_l, ?over_transparent_r; unfold blank;
    try reflexivity; f_equal; lia.
Qed.

(** The blend patch stays clear of the border of a surface of at least 7
    pixels: it starts at 0.15 n >= 1 and ends at most at 0.85 n <= n - 1. *)
Lemma blend_clear (n x : Z) :
  7 <= n -> x = 0 \/ x = n - 1 ->
  (inject_Z x + 1 <= (inject_Z n - inject_Z n * (7 # 10)) / 2 \/
   (inject_Z n - inject_Z n * (7 # 10)) / 2
     + inject_Z (JS.trunc (inject_Z n * (7 # 10))) <= inject_Z x)%Q.
Proof.
  intros Hn [-> | ->].
  - left. inQ Hn. goalQ. nodiv. lra.
  - right. inQ Hn.
    rewrite trunc_nonneg by lra.
    pose proof (Qfloor_le (inject_Z n * (7 # 10))).
    goalQ. nodiv. lra.
Qed.

Lemma bits_scattered_border R src x y :
  7 <= width src -> 7 <= height src ->
  onBorder (width src) (height src) x y ->
  bits (scatteredCanvas R src) x y = halfShift src x y.
Proof.
  intros Hw Hh (Hx & Hy & Hb).
  unfold scatteredCanvas.
  rewrite bits_drawWhole_outside.
  - cbn [setState bits]. apply bits_shifted; assumption.
  - reflexivity.
  - cbn. pose proof (patch_dim_pos (width src)). lia.
  - cbn. pose proof (patch_dim_pos (height src)). lia.
  - cbn [scatterPatch width height fillOn paintLayer setState drawPart
         blankCanvas].
    destruct Hb as [Hb|[Hb|[Hb|Hb]]].
    + destruct (blend_clear (width src) x Hw) as [C|C]; auto.
    + destruct (blend_clear (width src) x Hw) as [C|C]; auto.
    + destruct (blend_clear (height src) y Hh) as [C|C]; auto.
    + destruct (blend_clear (height src) y Hh) as [C|C]; auto.
Qed.

(** *** Which quadrant copy writes which pixel *)



(** ** generatePatchBased *)

Section Rounds.
Variable R : Rasteriser.
Variable rv : nat -> Q.

(** A round after the first. *)
Lemma run_throwPatch_later {B} (ctx srcCanvas : handle) (k : unit -> M B)
    cs n (w h minP maxP : Q) (i : Z) :
  (srcCanvas < length cs)%nat -> (ctx < length cs)%nat -> ctx <> srcCanvas ->
  1 <= width (nth srcCanvas cs (blankCanvas 0 0)) ->
  1 <= height (nth srcCanvas cs (blankCanvas 0 0)) ->
  i <> 0 ->
  1 <= JS.trunc (sizeAt rv minP maxP n) ->
  bind (throwPatch R rv ctx srcCanvas w h minP maxP i) k (World cs n)
  = k tt
      (World (updateAt ctx
                (pasteAt R rv (nth srcCanvas cs (blankCanvas 0 0))
                         w h minP maxP n) cs
              ++ [fuzzyAt R rv (nth srcCanvas cs (blankCanvas 0 0))
                          w h minP maxP n]) (5 + n)).
Proof.
  intros Hs Hc Hne Hw Hh Hi Hsize.
  set (src := nth srcCanvas cs (blankCanvas 0 0)) in *.
  assert (Hw0 : (width src =? 0) = false) by lia.
  assert (Hh0 : (height src =? 0) = false) by lia.
  assert (Hs0 : (JS.trunc (sizeAt rv minP maxP n) =? 0) = false) by lia.
  assert (Hi0 : (i =? 0) = false) by lia.
  unfold throwPatch.
  repeat mstep (length cs). rewrite Hi0.
  repeat mstep (length cs).
  replace (World cs (S (S (S (S (S n))))))
    with (World (cs ++ []) (5 + n)%nat) by (rewrite app_nil_r; reflexivity).
  unfold set_globalCompositeOperation, set_fillStyle, fillRect, drawImage3,
    drawImage9.
  fold (sizeAt rv minP maxP n).
  repeat (repeat mstep (length cs);
          rewrite ?nth_updateAt_other by assumption; fold src;
          rewrite ?Hw0, ?Hh0, ?Hs0;
          cbn [orb]; msimpl).
  rewrite updateAt_updateAt.
  unfold pasteAt, paste, fuzzyAt, fuzzyPatch, drawWhole, fuzzyGradient,
    sxAt, syAt, dxAt, dyAt.
  msimpl. reflexivity.
Qed.

(** The first round: the scattered base, then the patch. *)
Lemma run_throwPatch_first {B} (ctx srcCanvas : handle) (k : unit -> M B)
    cs n (w h minP maxP : Q) :
  (srcCanvas < length cs)%nat -> (ctx < length cs)%nat -> ctx <> srcCanvas ->
  2 <= width (nth srcCanvas cs (blankCanvas 0 0)) ->
  2 <= height (nth srcCanvas cs (blankCanvas 0 0)) ->
  1 <= JS.trunc (sizeAt rv minP maxP n) ->
  bind (throwPatch R rv ctx srcCanvas w h minP maxP 0) k (World cs n)
  = k tt
      (World (updateAt ctx
                (fun c => pasteAt R rv (nth srcCanvas cs (blankCanvas 0 0))
                            w h minP maxP n
                            (initBase R (nth srcCanvas cs (blankCanvas 0 0)) c))
                cs
              ++ [scatteredCanvas R (nth srcCanvas cs (blankCanvas 0 0));
                  scatterMask (nth srcCanvas cs (blankCanvas 0 0));
                  scatterPatch R (nth srcCanvas cs (blankCanvas 0 0));
                  fuzzyAt R rv (nth srcCanvas cs (blankCanvas 0 0))
                          w h minP maxP n]) (5 + n)).
Proof.
  intros Hs Hc Hne Hw Hh Hsize.
  set (src := nth srcCanvas cs (blankCanvas 0 0)) in *.
  assert (Hw0 : (width src =? 0) = false) by lia.
  assert (Hh0 : (height src =? 0) = false) by lia.
  assert (Hs0 : (JS.trunc (sizeAt rv minP maxP n) =? 0) = false) by lia.
  unfold throwPatch.
  repeat mstep (length cs). cbn [Z.eqb].
  repeat mstep (length cs).
  rewrite run_scattered by (fold src; first [assumption | lia]). fold src.
  unfold set_globalCompositeOperation, set_fillStyle, fillRect, drawImage3,
    drawImage9.
  fold (sizeAt rv minP maxP n).
  repeat (repeat mstep (length cs);
          rewrite ?nth_updateAt_other by assumption; fold src;
          rewrite ?width_scattered, ?height_scattered;
          rewrite ?Hw0, ?Hh0, ?Hs0;
          cbn [orb]; msimpl).
  rewrite !updateAt_updateAt.
  unfold pasteAt, paste, fuzzyAt, fuzzyPatch, drawWhole, fuzzyGradient,
    sxAt, syAt, dxAt, dyAt, initBase, drawWhole.
  rewrite ?width_scattered, ?height_scattered.
  msimpl. reflexivity.
Qed.

End Rounds.

Section PatchGeometry.
Variable R : Rasteriser.
Variable rv : nat -> Q.
Variable src : canvas.
Hypothesis rv_range : forall i, (0 <= rv i /\ rv i < 1)%Q.

Local Open Scope Q_scope.

Lemma size_bounds (n : nat) :
  (0 <= width src)%Z -> (0 <= height src)%Z ->
  minPatch src <= sizeAt rv (minPatch src) (maxPatch src) n /\
  sizeAt rv (minPatch src) (maxPatch src) n <= maxPatch src.
Proof.
  intros Hw Hh. unfold sizeAt.
  assert (0 <= maxPatch src - minPatch src) as D.
  { unfold minPatch, maxPatch, JS.min. inQ Hw. inQ Hh. minmax. }
  destruct (rv_range n) as [A B].
  destruct (fraction_of (rv n) (maxPatch src - minPatch src) A B D) as [P1 P2].
  lra.
Qed.

Lemma size_pos (n : nat) :
  (5 <= width src)%Z -> (5 <= height src)%Z ->
  (1 <= JS.trunc (sizeAt rv (minPatch src) (maxPatch src) n))%Z.
Proof.
  intros Hw Hh.
  destruct (size_bounds n) as [A B]; try lia.
  assert (1 <= minPatch src) as M.
  { unfold minPatch, JS.min. inQ Hw. inQ Hh. minmax. }
  rewrite trunc_nonneg by lra.
  change 1%Z with (Qfloor 1). apply Qfloor_resp_le. lra.
Qed.

(** On a surface of at least 40 pixels each way a patch lands at least 10
    pixels inside. *)
Lemma patch_clear_x (n : nat) (x : Z) :
  (40 <= width src)%Z -> (40 <= height src)%Z ->
  (x < 10 \/ width src - 10 <= x)%Z ->
  inject_Z x + 1
    <= dxAt rv (inject_Z (width src)) (minPatch src) (maxPatch src) n \/
  dxAt rv (inject_Z (width src)) (minPatch src) (maxPatch src) n
    + inject_Z (JS.trunc (sizeAt rv (minPatch src) (maxPatch src) n))
    <= inject_Z x.
Proof.
  intros Hw Hh Hx.
  destruct (size_bounds n) as [A B]; try lia.
  assert (0 <= minPatch src /\ maxPatch src <= inject_Z (width src) * (5 # 10))
    as [M1 M2].
  { unfold minPatch, maxPatch, JS.min. inQ Hw. inQ Hh. split; minmax. }
  assert (0 <= inject_Z (width src)
               - sizeAt rv (minPatch src) (maxPatch src) n - 20) as T
    by (inQ Hw; lra).
  destruct (rv_range (3 + n)) as [A3 B3].
  destruct (fraction_of _ _ A3 B3 T) as [P1 P2].
  unfold dxAt.
  pose proof (Qfloor_le (sizeAt rv (minPatch src) (maxPatch src) n)) as F.
  rewrite trunc_nonneg by lra.
  destruct Hx as [Hx|Hx].
  - left. assert (x + 1 <= 10)%Z as Hx' by lia. inQ Hx'. lra.
  - right. inQ Hx. lra.
Qed.

Lemma patch_clear_y (n : nat) (y : Z) :
  (40 <= width src)%Z -> (40 <= height src)%Z ->
  (y < 10 \/ height src - 10 <= y)%Z ->
  inject_Z y + 1
    <= dyAt rv (inject_Z (height src)) (minPatch src) (maxPatch src) n \/
  dyAt rv (inject_Z (height src)) (minPatch src) (maxPatch src) n
    + inject_Z (JS.trunc (sizeAt rv (minPatch src) (maxPatch src) n))
    <= inject_Z y.
Proof.
  intros Hw Hh Hy.
  destruct (size_bounds n) as [A B]; try lia.
  assert (0 <= minPatch src /\ maxPatch src <= inject_Z (height src) * (5 # 10))
    as [M1 M2].
  { unfold minPatch, maxPatch, JS.min. inQ Hw. inQ Hh. split; minmax. }
  assert (0 <= inject_Z (height src)
               - sizeAt rv (minPatch src) (maxPatch src) n - 20) as T
    by (inQ Hh; lra).
  destruct (rv_range (4 + n)) as [A3 B3].
  destruct (fraction_of _ _ A3 B3 T) as [P1 P2].
  unfold dyAt.
  pose proof (Qfloor_le (sizeAt rv (minPatch src) (maxPatch src) n)) as F.
  rewrite trunc_nonneg by lra.
  destruct Hy as [Hy|Hy].
  - left. assert (y + 1 <= 10)%Z as Hy' by lia. inQ Hy'. lra.
  - right. inQ Hy. lra.
Qed.

Local Close Scope Q_scope.

Lemma tidy_pasteAt w h n c :
  tidy c -> tidy (pasteAt R rv src w h (minPatch src) (maxPatch src) n c).
Proof. unfold tidy. intros H. cbn. rewrite H. reflexivity. Qed.

(** A round leaves the pixels within 10 pixels of the border as they
    are. *)
Lemma bits_pasteAt_border n c x y :
  40 <= width src -> 40 <= height src -> tidy c -> nearBorder src x y ->
  bits (pasteAt R rv src (inject_Z (width src)) (inject_Z (height src))
          (minPatch src) (maxPatch src) n c) x y
  = bits c x y.
Proof.
  intros Hw Hh Hc Hb. unfold pasteAt, paste.
  pose proof (size_pos n ltac:(lia) ltac:(lia)) as S.
  rewrite bits_drawWhole_outside.
  - reflexivity.
  - unfold tidy in *. cbn. rewrite Hc. reflexivity.
  - cbn. lia.
  - cbn. lia.
  - cbn [fuzzyPatch width height fillOn paintLayer setState drawPart
         blankCanvas].
    destruct Hb as [Hb|[Hb|[Hb|Hb]]].
    + destruct (patch_clear_x n x Hw Hh) as [C|C]; auto.
    + destruct (patch_clear_x n x Hw Hh) as [C|C]; auto.
    + destruct (patch_clear_y n y Hw Hh) as [C|C]; auto.
    + destruct (patch_clear_y n y Hw Hh) as [C|C]; auto.
Qed.

End PatchGeometry.

Section PatchLoop.
Variable R : Rasteriser.
Variable rv : nat -> Q.
Variable src : canvas.
Variables ctx srcCanvas : handle.
Hypothesis rv_range : forall i, (0 <= rv i /\ rv i < 1)%Q.
Hypothesis Hw : 5 <= width src.
Hypothesis Hh : 5 <= height src.
Hypothesis Hne : ctx <> srcCanvas.

(** The rounds after the first keep every canvas but the output, the
    size and the drawing state of the output and, on a surface of at least
    40 pixels each way, its pixels within 10 pixels of the border. *)
Lemma later_rounds (count : nat) :
  forall (from : Z) (cs : list canvas) (n : nat),
    1 <= from ->
    (srcCanvas < length cs)%nat -> (ctx < length cs)%nat ->
    nth srcCanvas cs (blankCanvas 0 0) = src ->
    tidy (nth ctx cs (blankCanvas 0 0)) ->
    exists cs',
      forLoop from count
        (throwPatch R rv ctx srcCanvas (inject_Z (width src))
           (inject_Z (height src)) (minPatch src) (maxPatch src))
        (World cs n)
      = Ok tt (World cs' (5 * count + n)) /\
      (length cs <= length cs')%nat /\
      (forall j, (j < length cs)%nat -> j <> ctx ->
                 nth j cs' (blankCanvas 0 0) = nth j cs (blankCanvas 0 0)) /\
      tidy (nth ctx cs' (blankCanvas 0 0)) /\
      width (nth ctx cs' (blankCanvas 0 0))
      = width (nth ctx cs (blankCanvas 0 0)) /\
      height (nth ctx cs' (blankCanvas 0 0))
      = height (nth ctx cs (blankCanvas 0 0)) /\
      (40 <= width src -> 40 <= height src ->
       forall x y, nearBorder src x y ->
                   bits (nth ctx cs' (blankCanvas 0 0)) x y
                   = bits (nth ctx cs (blankCanvas 0 0)) x y).
Proof.
  induction count as [|count IH]; intros from cs n Hfrom Hs Hc Hsrc Htidy.
  - exists cs. cbn. repeat split; auto.
  - rewrite forLoop_S.
    rewrite run_throwPatch_later;
      [|assumption|assumption|assumption|rewrite Hsrc; lia|rewrite Hsrc; lia
       |lia|apply size_pos; assumption].
    rewrite Hsrc.
    set (w := inject_Z (width src)). set (h := inject_Z (height src)).
    set (cs1 := updateAt ctx
                  (pasteAt R rv src w h (minPatch src) (maxPatch src) n) cs
                ++ [fuzzyAt R rv src w h (minPatch src) (maxPatch src) n]).
    assert (L1 : length cs1 = S (length cs))
      by (unfold cs1; rewrite length_app, updateAt_length; cbn; lia).
    assert (Hold : forall j, (j < length cs)%nat -> j <> ctx ->
                     nth j cs1 (blankCanvas 0 0) = nth j cs (blankCanvas 0 0)).
    { intros j Hj Hjc. unfold cs1.
      rewrite app_nth1 by (rewrite updateAt_length; exact Hj).
      apply nth_updateAt_other. congruence. }
    assert (Hctx : nth ctx cs1 (blankCanvas 0 0)
                   = pasteAt R rv src w h (minPatch src) (maxPatch src) n
                       (nth ctx cs (blankCanvas 0 0))).
    { unfold cs1. rewrite app_nth1 by (rewrite updateAt_length; exact Hc).
      rewrite nth_updateAt by exact Hc. rewrite Nat.eqb_refl. reflexivity. }
    destruct (IH (from + 1) cs1 (5 + n)%nat)
      as (cs' & E & L & O & T & W & H & Bd).
    + lia.
    + lia.
    + lia.
    + rewrite Hold by (auto; congruence). exact Hsrc.
    + rewrite Hctx. apply tidy_pasteAt. exact Htidy.
    + exists cs'. repeat split.
      * fold w h in E. rewrite E. do 2 f_equal. lia.
      * lia.
      * intros j Hj Hjc. rewrite O by (auto; lia). apply Hold; assumption.
      * exact T.
      * rewrite W, Hctx. reflexivity.
      * rewrite H, Hctx. reflexivity.
      * intros Hw40 Hh40 x y Hb. rewrite Bd by assumption.
        rewrite Hctx. apply bits_pasteAt_border; assumption.
Qed.

End PatchLoop.

Section PatchBasedRun.
Variable R : Rasteriser.
Variable rv : nat -> Q.
Hypothesis rv_range : forall i, (0 <= rv i /\ rv i < 1)%Q.

(** [generatePatchBased] returns a new canvas of the size of its input,
    leaves the canvases it found as they were and, on a surface of at least
    40 pixels each way, ends with the scattered base over the copy of the
    source within 10 pixels of the border. *)
Lemma run_patchBased (srcCanvas : handle) cs n :
  (srcCanvas < length cs)%nat ->
  5 <= width (nth srcCanvas cs (blankCanvas 0 0)) ->
  5 <= height (nth srcCanvas cs (blankCanvas 0 0)) ->
  exists cs' n',
    generatePatchBased R rv srcCanvas (World cs n)
    = Ok (length cs) (World (cs ++ cs') n') /\
    width (nth 0 cs' (blankCanvas 0 0))
    = width (nth srcCanvas cs (blankCanvas 0 0)) /\
    height (nth 0 cs' (blankCanvas 0 0))
    = height (nth srcCanvas cs (blankCanvas 0 0)) /\
    (40 <= width (nth srcCanvas cs (blankCanvas 0 0)) ->
     40 <= height (nth srcCanvas cs (blankCanvas 0 0)) ->
     forall x y,
       0 <= x < width (nth srcCanvas cs (blankCanvas 0 0)) ->
       0 <= y < height (nth srcCanvas cs (blankCanvas 0 0)) ->
       nearBorder (nth srcCanvas cs (blankCanvas 0 0)) x y ->
       bits (nth 0 cs' (blankCanvas 0 0)) x y
       = over (bits (scatteredCanvas R (nth srcCanvas cs (blankCanvas 0 0))) x y)
              (bits (nth srcCanvas cs (blankCanvas 0 0)) x y)).
Proof.
  intros Hs Hw Hh.
  set (dflt := blankCanvas 0 0) in *.
  set (src := nth srcCanvas cs dflt) in *.
  assert (Hw0 : (width src =? 0) = false) by lia.
  assert (Hh0 : (height src =? 0) = false) by lia.
  unfold generatePatchBased.
  replace (World cs n) with (World (cs ++ []) n)
    by (rewrite app_nil_r; reflexivity).
  unfold drawImage3, drawImage9.
  repeat (repeat mstep (length cs); fold dflt; fold src; rewrite ?Hw0, ?Hh0;
          cbn [orb]; msimpl).
  fold (drawWhole R src 0 0 (blankCanvas (width src) (height src))).
  set (c0 := drawWhole R src 0 0 (blankCanvas (width src) (height src))).
  fold (minPatch src). fold (maxPatch src).
  set (w := inject_Z (width src)). set (h := inject_Z (height src)).
  set (cs1 := cs ++ [c0]).
  rewrite Nat.add_0_r.
  set (ctx := length cs).
  assert (L1 : length cs1 = S (length cs))
    by (unfold cs1; rewrite length_app; cbn; lia).
  assert (Hsrc1 : nth srcCanvas cs1 dflt = src)
    by (unfold cs1; rewrite app_nth1 by exact Hs; reflexivity).
  assert (Hctx1 : nth ctx cs1 dflt = c0)
    by (unfold cs1, ctx; rewrite app_nth2, Nat.sub_diag by lia; reflexivity).
  assert (Hne : ctx <> srcCanvas) by (unfold ctx; lia).
  rewrite forLoop_S, bind_assoc.
  rewrite (run_throwPatch_first R rv ctx srcCanvas _ cs1 n w h
             (minPatch src) (maxPatch src));
    fold dflt; rewrite ?Hsrc1;
    [|lia|unfold ctx; lia|exact Hne|lia|lia|apply size_pos; assumption].
  set (F0 := fun c => pasteAt R rv src w h (minPatch src) (maxPatch src) n
                        (initBase R src c)).
  set (cs2 := updateAt ctx F0 cs1 ++ _).
  assert (L2 : length cs2 = (length cs1 + 4)%nat)
    by (unfold cs2; rewrite length_app, updateAt_length; cbn; lia).
  assert (Hsrc2 : nth srcCanvas cs2 dflt = src).
  { unfold cs2. rewrite app_nth1 by (rewrite updateAt_length; lia).
    rewrite nth_updateAt_other by exact Hne. exact Hsrc1. }
  assert (Hctx2 : nth ctx cs2 dflt = F0 c0).
  { unfold cs2. rewrite app_nth1 by (rewrite updateAt_length; unfold ctx; lia).
    rewrite nth_updateAt by (unfold ctx; lia).
    rewrite Nat.eqb_refl, Hctx1. reflexivity. }
  destruct (later_rounds R rv src ctx srcCanvas rv_range Hw Hh Hne 29
              (0 + 1) cs2 (5 + n)%nat)
    as (cs3 & E & L & O & T & W & H & Bd).
  { lia. } { lia. } { unfold ctx; lia. } { exact Hsrc2. }
  { fold dflt. rewrite Hctx2. unfold F0. apply tidy_pasteAt. reflexivity. }
  fold dflt in O, T, W, H, Bd.
  fold w h in E. cbv beta. unfold bind at 1. rewrite E.
  unfold ret.
  assert (Hpre : forall j, (j < length cs)%nat ->
                           nth j cs3 dflt = nth j cs dflt).
  { intros j Hj. rewrite O by (unfold ctx; lia).
    unfold cs2. rewrite app_nth1 by (rewrite updateAt_length; lia).
    rewrite nth_updateAt_other by (unfold ctx; lia).
    unfold cs1. apply app_nth1. exact Hj. }
  exists (skipn (length cs) cs3), (5 * 29 + (5 + n))%nat.
  assert (Esplit : cs3 = cs ++ skipn (length cs) cs3).
  { rewrite <- (firstn_skipn (length cs) cs3) at 1. f_equal.
    apply nth_ext with (d := dflt) (d' := dflt).
    - rewrite length_firstn. lia.
    - intros j Hj. rewrite length_firstn in Hj.
      rewrite nth_firstn.
      destruct (Nat.ltb_spec j (length cs)); [apply Hpre|]; lia. }
  assert (Hout : nth 0 (skipn (length cs) cs3) dflt = nth ctx cs3 dflt).
  { rewrite Esplit at 2. unfold ctx.
    rewrite app_nth2, Nat.sub_diag by lia. reflexivity. }
  split; [rewrite <- Esplit; reflexivity|].
  rewrite Hout, W, H, Hctx2.
  split; [reflexivity|]. split; [reflexivity|].
  intros Hw40 Hh40 x y Hx Hy Hb.
  rewrite Bd, Hctx2 by assumption.
  unfold F0. rewrite bits_pasteAt_border by (assumption || reflexivity).
  unfold initBase.
  rewrite bits_drawWhole_copy;
    [|reflexivity|rewrite ?width_scattered, ?height_scattered; assumption..].
  f_equal. unfold c0.
  rewrite bits_drawWhole_copy by (assumption || reflexivity).
  apply over_transparent_r.
Qed.

End PatchBasedRun.

(** ** applyAveraging *)

Lemma run_averaging {B} R (canvas : handle) settings (k : handle -> M B) cs n :
  (canvas < length cs)%nat ->
  1 <= width (nth canvas cs (blankCanvas 0 0)) ->
  1 <= height (nth canvas cs (blankCanvas 0 0)) ->
  0 < intensity settings ->
  bind (applyAveraging R canvas settings) k (World cs n)
  = k (length cs + 0)%nat
      (World (cs ++ [averagedCanvas R (nth canvas cs (blankCanvas 0 0)) settings;
                     blurredCanvas R (nth canvas cs (blankCanvas 0 0)) settings])
             n).
Proof.
  intros Hs Hw Hh Hi.
  set (src := nth canvas cs (blankCanvas 0 0)) in *.
  assert (Hw0 : (width src =? 0) = false) by lia.
  assert (Hh0 : (height src =? 0) = false) by lia.
  assert (Hi0 : (intensity settings <=? 0) = false) by lia.
  unfold applyAveraging. rewrite Hi0.
  replace (World cs n) with (World (cs ++ []) n)
    by (rewrite app_nil_r; reflexivity).
  unfold set_filter, set_globalAlpha, set_globalCompositeOperation,
    drawImage3, drawImage9.
  repeat (repeat mstep (length cs); fold src; rewrite ?Hw0, ?Hh0;
          cbn [orb]; msimpl).
  unfold averagedCanvas, blurredCanvas, drawWhole.
  msimpl. reflexivity.
Qed.

Lemma width_blurred R src settings :
  width (blurredCanvas R src settings) = width src.
Proof. reflexivity. Qed.

Lemma height_blurred R src settings :
  height (blurredCanvas R src settings) = height src.
Proof. reflexivity. Qed.

Lemma full_alpha_state :
  withAlpha (inject_Z 100 / 100) (withOp SourceOver defaultState)
  = DrawState identity (inject_Z 100 / 100) SourceOver None
              (Color black) (Color black) 1.
Proof. reflexivity. Qed.

(** With full intensity the result is the blurred copy composited over the
    original. *)
Lemma bits_averaged_full R src settings x y :
  intensity settings = 100 ->
  0 <= x < width src -> 0 <= y < height src ->
  bits (averagedCanvas R src settings) x y
  = over (bits (blurredCanvas R src settings) x y) (bits src x y).
Proof.
  intros Hi Hx Hy. unfold averagedCanvas. rewrite Hi.
  cbn [setState bits].
  unfold drawWhole at 1. unfold drawPart.
  cbn [setState paintLayer bits width height state blankCanvas
       drawWhole drawPart].
  rewrite full_alpha_state.
  unfold painted at 1. unfold filtered at 1.
  cbn [ctm globalAlpha globalCompositeOperation filter compose].
  rewrite (inside_true _ _ _ _ Hx Hy).
  replace (Q2Qc (inject_Z 100 / 100)) with 1%Qc
    by (apply Qc_is_canon; reflexivity).
  rewrite scalePx_one.
  change 0%Q with (inject_Z 0).
  rewrite width_blurred, height_blurred.
  rewrite layerOfImage_copy by lia.
  rewrite !copied_whole by assumption.
  cbn [andb]. rewrite !Z.sub_0_r, !Z.add_0_r.
  f_equal.
  change (inject_Z 0) with 0%Q.
  change (bits (drawWhole R src 0 0 (blankCanvas (width src) (height src))) x y
          = bits src x y).
  rewrite bits_drawWhole_copy by (assumption || reflexivity).
  apply over_transparent_r.
Qed.

(** ** generateTilePreview *)

Lemma run_tilePreview {B} R (textureCanvas : handle) tileFormat markSeams
    (k : handle -> M B) cs n :
  (textureCanvas < length cs)%nat ->
  1 <= width (nth textureCanvas cs (blankCanvas 0 0)) ->
  1 <= height (nth textureCanvas cs (blankCanvas 0 0)) ->
  bind (generateTilePreview R textureCanvas tileFormat markSeams) k (World cs n)
  = k (length cs + 0)%nat
      (World (cs ++ [previewCanvas R (nth textureCanvas cs (blankCanvas 0 0))
                       markSeams tileFormat]) n).
Proof.
  intros Hs Hw Hh.
  set (texture := nth textureCanvas cs (blankCanvas 0 0)) in *.
  assert (Hw0 : (width texture =? 0) = false) by lia.
  assert (Hh0 : (height texture =? 0) = false) by lia.
  unfold generateTilePreview.
  replace (World cs n) with (World (cs ++ []) n)
    by (rewrite app_nil_r; reflexivity).
  repeat mstep (length cs). fold texture. msimpl.
  unfold previewCanvas, cells.
  destruct tileFormat, markSeams;
    cbn [tileNumber];
    try change (Z.to_nat 1) with 1%nat;
    try change (Z.to_nat 2) with 2%nat;
    try change (Z.to_nat 3) with 3%nat;
    cbn [forLoop range flat_map map app fold_left tileOn];
    unfold drawTile, set_strokeStyle, set_lineWidth, strokeRect, drawImage3,
      drawImage9;
    repeat (repeat mstep (length cs); fold texture; rewrite ?Hw0, ?Hh0;
            cbn [orb]; msimpl);
    unfold markOn, drawWhole; msimpl; reflexivity.
Qed.

Lemma width_preview R texture markSeams tileFormat :
  width (previewCanvas R texture markSeams tileFormat)
  = width texture * tileNumber tileFormat.
Proof. destruct tileFormat, markSeams; reflexivity. Qed.

Lemma height_preview R texture markSeams tileFormat :
  height (previewCanvas R texture markSeams tileFormat)
  = height texture * tileNumber tileFormat.
Proof. destruct tileFormat, markSeams; reflexivity. Qed.

(** ** The example inputs *)


Lemma someDraws_range (i : nat) : (0 <= someDraws i /\ someDraws i < 1)%Q.
Proof.
  unfold someDraws.
  destruct (Nat.modulo i 5) as [|[|[|k]]]; split; reflexivity || discriminate.
Qed.

Lemma otherDraws_range (i : nat) : (0 <= otherDraws i /\ otherDraws i < 1)%Q.
Proof. split; reflexivity || discriminate. Qed.

(** Two pixels with different channels are different. *)
Lemma channels_differ (p q : option pixel) :
  option_map channels p <> option_map channels q -> p <> q.
Proof. intros H E. apply H. rewrite E. reflexivity. Qed.

(** * The claims *)

(** ** Mirrored *)

(** C2. For every working surface of width W and height H, the output of
    the Mirrored strategy has its pixel at (0,y) equal to its pixel at
    (W-1,y) and its pixel at (x,0) equal to its pixel at (x,H-1): exact
    equality of pixels.  (The strategy returns, and its output has the size
    of the input.) *)
Theorem mirrored_edges_match R (srcCanvas : handle) (w : world) :
  (srcCanvas < length (canvases w))%nat ->
  1 <= width (lookup srcCanvas w) -> 1 <= height (lookup srcCanvas w) ->
  exists out w',
    generateMirrored R srcCanvas w = Ok out w' /\
    width (lookup out w') = width (lookup srcCanvas w) /\
    height (lookup out w') = height (lookup srcCanvas w) /\
    (forall y, 0 <= y < height (lookup srcCanvas w) ->
       getPixel (lookup out w') 0 y
       = getPixel (lookup out w') (width (lookup srcCanvas w) - 1) y) /\
    (forall x, 0 <= x < width (lookup srcCanvas w) ->
       getPixel (lookup out w') x 0
       = getPixel (lookup out w') x (height (lookup srcCanvas w) - 1)).
Proof.
  destruct w as [cs n]. cbn [canvases].
  change (lookup srcCanvas (World cs n))
    with (nth srcCanvas cs (blankCanvas 0 0)).
  intros Hs Hw Hh.
  rewrite <- (bind_ret_r (generateMirrored R srcCanvas)).
  rewrite run_mirrored by assumption.
  eexists. eexists. split; [reflexivity|].
  rewrite lookup_new. cbn [nth].
  split; [reflexivity|]. split; [reflexivity|]. split.
  - intros y Hy. rewrite !getPixel_inside by (cbn; lia).
    apply mirrored_columns; assumption.
  - intros x Hx. rewrite !getPixel_inside by (cbn; lia).
    apply mirrored_rows; assumption.
Qed.

Lemma mirrored_edges_match_witness :
  (0 < length (canvases (gridWorld 3 3)))%nat /\
  1 <= width (lookup 0%nat (gridWorld 3 3)) /\
  1 <= height (lookup 0%nat (gridWorld 3 3)) /\
  exists out w',
    generateMirrored referenceRasteriser 0%nat (gridWorld 3 3) = Ok out w' /\
    width (lookup out w') = 3 /\ height (lookup out w') = 3 /\
    (forall y, 0 <= y < 3 ->
       getPixel (lookup out w') 0 y = getPixel (lookup out w') (3 - 1) y) /\
    (forall x, 0 <= x < 3 ->
       getPixel (lookup out w') x 0 = getPixel (lookup out w') x (3 - 1)).
Proof.
  split; [cbn; lia|]. split; [cbn; lia|]. split; [cbn; lia|].
  apply (mirrored_edges_match referenceRasteriser 0%nat (gridWorld 3 3));
    cbn; lia.
Defined.

(** ** Scattered and PatchBased: the border *)




(** ** Scattered: the quadrant copies *)




(** ** PatchBased: the border *)




(** ** The crop stage *)

Lemma applyCrop_degenerate R (ctx : handle) (width height : Z)
    (crop : CropSettings) (w : world) :
  width <= left crop + right crop \/ height <= top crop + bottom crop ->
  applyCrop R ctx width height crop w = Ok None w.
Proof.
  intros H. unfold applyCrop.
  replace ((width - left crop - right crop <=? 0)
           || (height - top crop - bottom crop <=? 0)) with true;
    [reflexivity|].
  symmetry. apply orb_true_iff.
  destruct H; [left | right]; apply Z.leb_le; lia.
Qed.

Lemma cropStage_degenerate R (currentCanvas : handle) (crop : CropSettings)
    (w : world) :
  width (lookup currentCanvas w) <= left crop + right crop \/
  height (lookup currentCanvas w) <= top crop + bottom crop ->
  cropStage R currentCanvas crop w = Ok currentCanvas w.
Proof.
  intros H. unfold cropStage.
  destruct ((0 <? top crop) || (0 <? bottom crop) || (0 <? left crop)
            || (0 <? right crop)); [|reflexivity].
  unfold bind, getCanvas.
  rewrite applyCrop_degenerate by exact H. reflexivity.
Qed.

Lemma cropStage_noCrop R (currentCanvas : handle) (w : world) :
  cropStage R currentCanvas noCrop w = Ok currentCanvas w.
Proof. reflexivity. Qed.

(** C5. For every surface of width w and height h and all crop settings
    with left+right >= w or top+bottom >= h, [applyCrop] returns null, the
    crop stage of [processTexture] keeps the input surface, the very same
    canvas in an unchanged store, and raises nothing, and the rest of the
    pipeline goes on as it does without a crop. *)
Theorem degenerate_crop_is_skipped R (currentCanvas : handle)
    (crop : CropSettings) (w : world) :
  width (lookup currentCanvas w) <= left crop + right crop \/
  height (lookup currentCanvas w) <= top crop + bottom crop ->
  applyCrop R currentCanvas (width (lookup currentCanvas w))
    (height (lookup currentCanvas w)) crop w = Ok None w /\
  cropStage R currentCanvas crop w = Ok currentCanvas w /\
  forall (B : Type) (rest : handle -> M B),
    bind (cropStage R currentCanvas crop) rest w
    = bind (cropStage R currentCanvas noCrop) rest w.
Proof.
  intros H. split; [apply applyCrop_degenerate; exact H|].
  split; [apply cropStage_degenerate; exact H|].
  intros B rest. unfold bind.
  rewrite cropStage_degenerate by exact H. reflexivity.
Qed.

Lemma degenerate_crop_is_skipped_witness :
  (width (lookup 0%nat (gridWorld 4 3)) <= left (MkCrop 0 0 3 1) + right (MkCrop 0 0 3 1) \/
   height (lookup 0%nat (gridWorld 4 3)) <= top (MkCrop 0 0 3 1) + bottom (MkCrop 0 0 3 1)) /\
  applyCrop referenceRasteriser 0%nat 4 3 (MkCrop 0 0 3 1) (gridWorld 4 3)
  = Ok None (gridWorld 4 3) /\
  cropStage referenceRasteriser 0%nat (MkCrop 0 0 3 1) (gridWorld 4 3)
  = Ok 0%nat (gridWorld 4 3) /\
  forall (B : Type) (rest : handle -> M B),
    bind (cropStage referenceRasteriser 0%nat (MkCrop 0 0 3 1)) rest
      (gridWorld 4 3)
    = bind (cropStage referenceRasteriser 0%nat noCrop) rest (gridWorld 4 3).
Proof.
  split; [left; cbn; lia|].
  apply (degenerate_crop_is_skipped referenceRasteriser 0%nat (MkCrop 0 0 3 1)
           (gridWorld 4 3)).
  left; cbn; lia.
Defined.

(** ** The averaging stage *)

(** C9. For every surface and every radius the averaging stage with
    intensity 0 is a no-op: [applyAveraging] and the averaging stage of
    [processTexture] return the input canvas itself and leave the store as
    it was, so no canvas is created and no blur is computed. *)
Theorem zero_intensity_is_noop R (canvas : handle) (radius : Z) (w : world) :
  applyAveraging R canvas (MkAveraging 0 radius) w = Ok canvas w /\
  averagingStage R canvas (MkAveraging 0 radius) w = Ok canvas w.
Proof. split; reflexivity. Qed.

(** C6 (as amended). With intensity 100 the averaging stage returns the
    blurred copy of the input composited (source-over, alpha 1) over the
    unblurred input: a pixel of the result is the pixel of the blurred copy
    wherever the blurred copy is opaque, and where the blur has left the
    copy partly transparent the original shows through in proportion. *)
Theorem full_averaging_is_blur_over_original R (canvas : handle)
    (settings : AveragingSettings) (w : world) :
  (canvas < length (canvases w))%nat ->
  1 <= width (lookup canvas w) -> 1 <= height (lookup canvas w) ->
  intensity settings = 100 ->
  exists out w',
    applyAveraging R canvas settings w = Ok out w' /\
    width (lookup out w') = width (lookup canvas w) /\
    height (lookup out w') = height (lookup canvas w) /\
    forall x y,
      0 <= x < width (lookup canvas w) -> 0 <= y < height (lookup canvas w) ->
      getPixel (lookup out w') x y
      = over (getPixel (blurredCanvas R (lookup canvas w) settings) x y)
             (getPixel (lookup canvas w) x y) /\
      (opaque (getPixel (blurredCanvas R (lookup canvas w) settings) x y) ->
       getPixel (lookup out w') x y
       = getPixel (blurredCanvas R (lookup canvas w) settings) x y).
Proof.
  destruct w as [cs n]. cbn [canvases].
  change (lookup canvas (World cs n)) with (nth canvas cs (blankCanvas 0 0)).
  set (src := nth canvas cs (blankCanvas 0 0)).
  intros Hs Hw Hh Hi.
  rewrite <- (bind_ret_r (applyAveraging R canvas settings)).
  rewrite run_averaging by (fold src; first [assumption | lia]).
  fold src.
  eexists. eexists. split; [reflexivity|].
  rewrite lookup_new. cbn [nth].
  split; [reflexivity|]. split; [reflexivity|].
  intros x y Hx Hy.
  rewrite !getPixel_inside
    by (rewrite ?width_blurred, ?height_blurred; assumption).
  rewrite bits_averaged_full by assumption.
  split; [reflexivity|]. apply over_opaque.
Qed.

Lemma full_averaging_is_blur_over_original_witness :
  (0 < length (canvases (gridWorld 3 3)))%nat /\
  1 <= width (lookup 0%nat (gridWorld 3 3)) /\
  1 <= height (lookup 0%nat (gridWorld 3 3)) /\
  intensity (MkAveraging 100 1) = 100 /\
  exists out w',
    applyAveraging referenceRasteriser 0%nat (MkAveraging 100 1) (gridWorld 3 3)
    = Ok out w' /\
    width (lookup out w') = 3 /\
    height (lookup out w') = 3 /\
    forall x y,
      0 <= x < 3 -> 0 <= y < 3 ->
      getPixel (lookup out w') x y
      = over (getPixel (blurredCanvas referenceRasteriser (gridCanvas 3 3)
                          (MkAveraging 100 1)) x y)
             (getPixel (gridCanvas 3 3) x y) /\
      (opaque (getPixel (blurredCanvas referenceRasteriser (gridCanvas 3 3)
                           (MkAveraging 100 1)) x y) ->
       getPixel (lookup out w') x y
       = getPixel (blurredCanvas referenceRasteriser (gridCanvas 3 3)
                     (MkAveraging 100 1)) x y).
Proof.
  split; [cbn; lia|]. split; [cbn; lia|]. split; [cbn; lia|].
  split; [reflexivity|].
  apply (full_averaging_is_blur_over_original referenceRasteriser 0%nat
           (MkAveraging 100 1) (gridWorld 3 3)).
  - cbn; lia.
  - cbn; lia.
  - cbn; lia.
  - reflexivity.
Defined.

(** The claim as worded fails: for a surface of one opaque red pixel and
    radius 1 the blurred copy, which [applyAveraging] leaves in the store
    next to its result, has a red pixel of alpha 1/9, and the result of
    intensity 100 is the opaque red pixel of the original. *)
Lemma full_averaging_keeps_original :
  option_map channels
    (outputPixel (applyAveraging referenceRasteriser 0%nat (MkAveraging 100 1))
       (plainWorld 1 1 opaqueRed) 0 0)
  = Some (1, 0, 0, 1)%Q /\
  channels (getPixel (blurredCanvas referenceRasteriser
                        (plainCanvas 1 1 opaqueRed) (MkAveraging 100 1)) 0 0)
  = (1 # 9, 0, 0, 1 # 9)%Q /\
  outputPixel (applyAveraging referenceRasteriser 0%nat (MkAveraging 100 1))
    (plainWorld 1 1 opaqueRed) 0 0
  <> Some (getPixel (blurredCanvas referenceRasteriser
                       (plainCanvas 1 1 opaqueRed) (MkAveraging 100 1)) 0 0).
Proof.
  split; [vm_compute; reflexivity|]. split; [vm_compute; reflexivity|].
  apply channels_differ; vm_compute; discriminate.
Qed.

(** ** The dispatch on the method *)

(** C10. The claim does not hold of the code on thin surfaces.  The
    dispatch of [processTexture] on the method is total with Scattered as
    the default: every method, also a string outside the declared enum,
    selects one of the three strategies, and every method other than
    MIRRORED and PATCH_BASED selects the Scattered strategy, exactly as the
    method SCATTERED does.  With such a method synthesis is performed on
    every surface of at least two pixels each way: the output is a new
    canvas of the size of the input, the canvases that were there are left
    as they were, and outside the pasted patch the output holds the
    half-size shift of the input.  On a surface one pixel wide or one
    pixel high it is not performed: the selected strategy raises
    InvalidStateError, and so does the dispatch. *)
Theorem unknown_method_selects_scattered R (rv : nat -> Q)
    (method : SeamlessMethod) (currentCanvas : handle) :
  method <> MIRRORED -> method <> PATCH_BASED ->
  generateSeamless R rv method currentCanvas
  = generateScattered R currentCanvas /\
  generateSeamless R rv method currentCanvas
  = generateSeamless R rv SCATTERED currentCanvas /\
  (forall m : SeamlessMethod,
     generateSeamless R rv m currentCanvas = generateMirrored R currentCanvas \/
     generateSeamless R rv m currentCanvas
     = generatePatchBased R rv currentCanvas \/
     generateSeamless R rv m currentCanvas
     = generateScattered R currentCanvas) /\
  forall w : world,
    (currentCanvas < length (canvases w))%nat ->
    1 <= width (lookup currentCanvas w) ->
    1 <= height (lookup currentCanvas w) ->
    (2 <= width (lookup currentCanvas w) ->
     2 <= height (lookup currentCanvas w) ->
     exists out w',
       generateSeamless R rv method currentCanvas w = Ok out w' /\
       out = length (canvases w) /\
       keepsStore w w' /\
       width (lookup out w') = width (lookup currentCanvas w) /\
       height (lookup out w') = height (lookup currentCanvas w) /\
       forall x y,
         0 <= x < width (lookup currentCanvas w) ->
         0 <= y < height (lookup currentCanvas w) ->
         (inject_Z x + 1
          <= (inject_Z (width (lookup currentCanvas w))
              - inject_Z (width (lookup currentCanvas w)) * (7 # 10)) / 2 \/
          (inject_Z (width (lookup currentCanvas w))
           - inject_Z (width (lookup currentCanvas w)) * (7 # 10)) / 2
          + inject_Z
              (JS.trunc (inject_Z (width (lookup currentCanvas w)) * (7 # 10)))
          <= inject_Z x \/
          inject_Z y + 1
          <= (inject_Z (height (lookup currentCanvas w))
              - inject_Z (height (lookup currentCanvas w)) * (7 # 10)) / 2 \/
          (inject_Z (height (lookup currentCanvas w))
           - inject_Z (height (lookup currentCanvas w)) * (7 # 10)) / 2
          + inject_Z
              (JS.trunc (inject_Z (height (lookup currentCanvas w)) * (7 # 10)))
          <= inject_Z y)%Q ->
         getPixel (lookup out w') x y
         = halfShift (lookup currentCanvas w) x y) /\
    (width (lookup currentCanvas w) = 1 \/
     height (lookup currentCanvas w) = 1 ->
     generateSeamless R rv method currentCanvas w = Throw InvalidStateError).
Proof.
  intros Hm Hp.
  assert (E : generateSeamless R rv method currentCanvas
              = generateScattered R currentCanvas).
  { unfold generateSeamless.
    apply String.eqb_neq in Hm. apply String.eqb_neq in Hp.
    rewrite Hm, Hp. reflexivity. }
  split; [exact E|]. split; [rewrite E; reflexivity|]. split.
  { intros m. unfold generateSeamless.
    destruct (String.eqb m MIRRORED); [left; reflexivity|].
    destruct (String.eqb m PATCH_BASED); [right; left; reflexivity|].
    right; right; reflexivity. }
  rewrite E. intros [cs n]. cbn [canvases].
  change (lookup currentCanvas (World cs n))
    with (nth currentCanvas cs (blankCanvas 0 0)).
  set (src := nth currentCanvas cs (blankCanvas 0 0)).
  intros Hs Hw1 Hh1. split.
  - intros Hw Hh.
    rewrite <- (bind_ret_r (generateScattered R currentCanvas)).
    rewrite run_scattered by assumption. fold src.
    eexists. eexists. split; [reflexivity|].
    split; [apply Nat.add_0_r|].
    split; [intros h Hlt; apply lookup_old; exact Hlt|].
    rewrite lookup_new. cbn [nth].
    split; [reflexivity|]. split; [reflexivity|].
    intros x y Hx Hy Hout.
    rewrite getPixel_inside by (cbn; assumption).
    unfold scatteredCanvas.
    rewrite bits_drawWhole_outside.
    + cbn [setState bits]. apply bits_shifted; assumption.
    + reflexivity.
    + cbn. pose proof (patch_dim_pos (width src)). lia.
    + cbn. pose proof (patch_dim_pos (height src)). lia.
    + cbn [scatterPatch width height fillOn paintLayer setState drawPart
           blankCanvas].
      exact Hout.
  - intros H1. apply scattered_throws; assumption.
Qed.

Lemma unknown_method_selects_scattered_witness :
  "voronoi"%string <> MIRRORED /\ "voronoi"%string <> PATCH_BASED /\
  generateSeamless referenceRasteriser someDraws "voronoi"%string 0%nat
  = generateSeamless referenceRasteriser someDraws SCATTERED 0%nat /\
  (exists out w',
     generateSeamless referenceRasteriser someDraws "voronoi"%string 0%nat
       (gridWorld 8 8) = Ok out w' /\
     out = 1%nat /\
     width (lookup out w') = 8 /\ height (lookup out w') = 8 /\
     getPixel (lookup out w') 0 0 = halfShift (gridCanvas 8 8) 0 0) /\
  generateSeamless referenceRasteriser someDraws "voronoi"%string 0%nat
    (gridWorld 1 3) = Throw InvalidStateError.
Proof.
  split; [discriminate|]. split; [discriminate|].
  destruct (unknown_method_selects_scattered referenceRasteriser someDraws
              "voronoi"%string 0%nat) as (_ & E & _ & H);
    [discriminate|discriminate|].
  split; [exact E|]. split.
  - destruct (H (gridWorld 8 8)) as [Hbig _];
      [cbn; lia|cbn; lia|cbn; lia|].
    destruct Hbig as (out & w' & Ho & Hn & _ & Hw & Hh & Hpx);
      [cbn; lia|cbn; lia|].
    exists out, w'. split; [exact Ho|]. split; [exact Hn|].
    split; [exact Hw|]. split; [exact Hh|].
    apply (Hpx 0 0); [cbn; lia|cbn; lia|].
    left. vm_compute. discriminate.
  - destruct (H (gridWorld 1 3)) as [_ Hthin];
      [cbn; lia|cbn; lia|cbn; lia|].
    apply Hthin. left. reflexivity.
Defined.

(** The dispatch fails through [processTexture] as well: an image one
    pixel wide with a method outside the enum, no crop and no averaging. *)
Lemma unknown_method_fails_on_thin_image :
  processTexture referenceRasteriser someDraws emptyEncoder thinImage
    "voronoi"%string ONE false noCrop (MkAveraging 0 1) PNG 90 (World [] 0)
  = Throw InvalidStateError.
Proof. vm_compute. reflexivity. Qed.

(** ** Sizes of the outputs *)

(** Where they return, the strategies return a new canvas of the size of
    the input and leave the input, and every other canvas they found, as it
    was. *)
Lemma mirrored_keeps_size R (srcCanvas : handle) cs n :
  (srcCanvas < length cs)%nat ->
  1 <= width (nth srcCanvas cs (blankCanvas 0 0)) ->
  1 <= height (nth srcCanvas cs (blankCanvas 0 0)) ->
  exists cs',
    generateMirrored R srcCanvas (World cs n)
    = Ok (length cs) (World (cs ++ cs') n) /\
    width (nth 0 cs' (blankCanvas 0 0))
    = width (nth srcCanvas cs (blankCanvas 0 0)) /\
    height (nth 0 cs' (blankCanvas 0 0))
    = height (nth srcCanvas cs (blankCanvas 0 0)).
Proof.
  intros Hs Hw Hh.
  rewrite <- (bind_ret_r (generateMirrored R srcCanvas)).
  rewrite run_mirrored by assumption.
  rewrite Nat.add_0_r.
  eexists. split; [reflexivity|]. split; reflexivity.
Qed.

Lemma scattered_keeps_size R (srcCanvas : handle) cs n :
  (srcCanvas < length cs)%nat ->
  2 <= width (nth srcCanvas cs (blankCanvas 0 0)) ->
  2 <= height (nth srcCanvas cs (blankCanvas 0 0)) ->
  exists cs',
    generateScattered R srcCanvas (World cs n)
    = Ok (length cs) (World (cs ++ cs') n) /\
    width (nth 0 cs' (blankCanvas 0 0))
    = width (nth srcCanvas cs (blankCanvas 0 0)) /\
    height (nth 0 cs' (blankCanvas 0 0))
    = height (nth srcCanvas cs (blankCanvas 0 0)).
Proof.
  intros Hs Hw Hh.
  rewrite <- (bind_ret_r (generateScattered R srcCanvas)).
  rewrite run_scattered by assumption.
  rewrite Nat.add_0_r.
  eexists. split; [reflexivity|]. split; reflexivity.
Qed.

Lemma patchBased_keeps_size R rv (srcCanvas : handle) cs n :
  (forall i, (0 <= rv i /\ rv i < 1)%Q) ->
  (srcCanvas < length cs)%nat ->
  5 <= width (nth srcCanvas cs (blankCanvas 0 0)) ->
  5 <= height (nth srcCanvas cs (blankCanvas 0 0)) ->
  exists cs' n',
    generatePatchBased R rv srcCanvas (World cs n)
    = Ok (length cs) (World (cs ++ cs') n') /\
    width (nth 0 cs' (blankCanvas 0 0))
    = width (nth srcCanvas cs (blankCanvas 0 0)) /\
    height (nth 0 cs' (blankCanvas 0 0))
    = height (nth srcCanvas cs (blankCanvas 0 0)).
Proof.
  intros Hrv Hs Hw Hh.
  destruct (run_patchBased R rv Hrv srcCanvas cs n Hs Hw Hh)
    as (cs' & n' & E & W & H & _).
  exists cs', n'. auto.
Qed.

(** The preview of a texture of size W x H in format N measures
    W*N x H*N. *)
Lemma preview_size R (textureCanvas : handle) tileFormat markSeams cs n :
  (textureCanvas < length cs)%nat ->
  1 <= width (nth textureCanvas cs (blankCanvas 0 0)) ->
  1 <= height (nth textureCanvas cs (blankCanvas 0 0)) ->
  exists cs',
    generateTilePreview R textureCanvas tileFormat markSeams (World cs n)
    = Ok (length cs) (World (cs ++ cs') n) /\
    width (nth 0 cs' (blankCanvas 0 0))
    = width (nth textureCanvas cs (blankCanvas 0 0)) * tileNumber tileFormat /\
    height (nth 0 cs' (blankCanvas 0 0))
    = height (nth textureCanvas cs (blankCanvas 0 0)) * tileNumber tileFormat.
Proof.
  intros Hs Hw Hh.
  rewrite <- (bind_ret_r (generateTilePreview R textureCanvas tileFormat
                            markSeams)).
  rewrite run_tilePreview by assumption.
  rewrite Nat.add_0_r.
  eexists. split; [reflexivity|]. cbn [nth].
  split; [apply width_preview | apply height_preview].
Qed.

(** The width and height of a [ProcessResult] are those of the seamless
    canvas. *)
Lemma result_dimensions R rv encode img method tileFormat markSeams crop
    averaging outputFormat outputQuality (w w' : world) (r : ProcessResult) :
  processTexture R rv encode img method tileFormat markSeams crop averaging
    outputFormat outputQuality w = Ok r w' ->
  exists seamlessCanvas previewCanvas,
    renderTexture R rv img method tileFormat markSeams crop averaging w
    = Ok (seamlessCanvas, previewCanvas) w' /\
    resultWidth r = width (lookup seamlessCanvas w') /\
    resultHeight r = height (lookup seamlessCanvas w').
Proof.
  unfold processTexture, bind, getCanvas, ret.
  destruct (renderTexture R rv img method tileFormat markSeams crop averaging w)
    as [[s p] w1|e]; [|discriminate].
  cbn [fst snd]. intros E. injection E as <- <-.
  exists s, p. repeat split.
Qed.

(** C7. The claim does not hold of the code on thin surfaces.  On a
    working surface one pixel wide or one pixel high the Scattered strategy
    returns no surface: its patch canvas gets 0.7 as a dimension, which the
    canvas converts to 0, and pasting a canvas without pixels raises
    InvalidStateError.  The PatchBased strategy, which draws the Scattered
    base in its first round, and the dispatch of [processTexture] on
    SCATTERED raise it too. *)
Theorem scattered_fails_on_thin_surface R (rv : nat -> Q)
    (srcCanvas : handle) (w : world) :
  (srcCanvas < length (canvases w))%nat ->
  1 <= width (lookup srcCanvas w) -> 1 <= height (lookup srcCanvas w) ->
  width (lookup srcCanvas w) = 1 \/ height (lookup srcCanvas w) = 1 ->
  generateScattered R srcCanvas w = Throw InvalidStateError /\
  generatePatchBased R rv srcCanvas w = Throw InvalidStateError /\
  generateSeamless R rv SCATTERED srcCanvas w = Throw InvalidStateError.
Proof.
  destruct w as [cs n]. cbn [canvases].
  change (lookup srcCanvas (World cs n))
    with (nth srcCanvas cs (blankCanvas 0 0)).
  intros Hs Hw Hh H1.
  split; [apply scattered_throws; assumption|].
  split; [|apply scattered_throws; assumption].
  set (src := nth srcCanvas cs (blankCanvas 0 0)) in *.
  assert (Hw0 : (width src =? 0) = false) by lia.
  assert (Hh0 : (height src =? 0) = false) by lia.
  unfold generatePatchBased.
  replace (World cs n) with (World (cs ++ []) n)
    by (rewrite app_nil_r; reflexivity).
  unfold drawImage3, drawImage9.
  repeat (repeat mstep (length cs); fold src; rewrite ?Hw0, ?Hh0;
          cbn [orb]; msimpl).
  rewrite forLoop_S. unfold throwPatch.
  repeat mstep (length cs). cbn [Z.eqb].
  repeat mstep (length cs).
  unfold bind at 1.
  rewrite scattered_throws; [reflexivity|..];
    rewrite ?length_app, ?app_nth1 by exact Hs; fold src;
    first [assumption | lia].
Qed.

Lemma scattered_fails_on_thin_surface_witness :
  (0 < length (canvases (gridWorld 1 3)))%nat /\
  1 <= width (lookup 0%nat (gridWorld 1 3)) /\
  1 <= height (lookup 0%nat (gridWorld 1 3)) /\
  (width (lookup 0%nat (gridWorld 1 3)) = 1 \/
   height (lookup 0%nat (gridWorld 1 3)) = 1) /\
  generateScattered referenceRasteriser 0%nat (gridWorld 1 3)
  = Throw InvalidStateError /\
  generatePatchBased referenceRasteriser someDraws 0%nat (gridWorld 1 3)
  = Throw InvalidStateError /\
  generateSeamless referenceRasteriser someDraws SCATTERED 0%nat (gridWorld 1 3)
  = Throw InvalidStateError.
Proof.
  split; [cbn; lia|]. split; [cbn; lia|]. split; [cbn; lia|].
  split; [left; reflexivity|].
  apply (scattered_fails_on_thin_surface referenceRasteriser someDraws 0%nat
           (gridWorld 1 3)).
  - cbn; lia.
  - cbn; lia.
  - cbn; lia.
  - left; reflexivity.
Defined.

(** The whole of [processTexture] on a decoded image of 1 x 3 pixels, with
    no crop, no averaging and the method SCATTERED: no [ProcessResult]. *)
Lemma processTexture_fails_on_thin_image :
  processTexture referenceRasteriser someDraws emptyEncoder thinImage
    SCATTERED ONE false noCrop (MkAveraging 0 1) PNG 90 (World [] 0)
  = Throw InvalidStateError.
Proof. vm_compute. reflexivity. Qed.

(** ** The tile preview *)

(** C8 (as amended). In the tile assembler with markSeams enabled the
    boundary rectangle of a cell is stroked right after the blit of that
    cell, before the cells after it are blitted: the output is the surface
    obtained by blitting and marking cell after cell, row by row.  For N = 1
    it equals the surface obtained by first performing all blits and then
    drawing all boundary rectangles. *)
Theorem markers_follow_each_blit R (textureCanvas : handle)
    (tileFormat : TileFormat) (markSeams : bool) (w : world) :
  (textureCanvas < length (canvases w))%nat ->
  1 <= width (lookup textureCanvas w) -> 1 <= height (lookup textureCanvas w) ->
  (exists out w',
     generateTilePreview R textureCanvas tileFormat markSeams w = Ok out w' /\
     lookup out w'
     = fold_left (fun cv cell => tileOn R (lookup textureCanvas w) markSeams
                                   cell cv)
         (cells (tileNumber tileFormat))
         (blankCanvas (width (lookup textureCanvas w) * tileNumber tileFormat)
            (height (lookup textureCanvas w) * tileNumber tileFormat))) /\
  generateTilePreview R textureCanvas ONE markSeams w
  = tilePreviewBlitsFirst R textureCanvas ONE markSeams w.
Proof.
  destruct w as [cs n]. cbn [canvases].
  change (lookup textureCanvas (World cs n))
    with (nth textureCanvas cs (blankCanvas 0 0)).
  intros Hs Hw Hh. split.
  - rewrite <- (bind_ret_r (generateTilePreview R textureCanvas tileFormat
                              markSeams)).
    rewrite run_tilePreview by assumption.
    eexists. eexists. split; [reflexivity|].
    rewrite lookup_new. reflexivity.
  - unfold generateTilePreview, tilePreviewBlitsFirst, drawTile, blitTile,
      markTile.
    cbn [tileNumber]. change (Z.to_nat 1) with 1%nat. cbn [forLoop].
    unfold bind, getCanvas, createCanvas, ret.
    match goal with
    | |- context [drawImage3 R ?c ?i ?x ?y ?w0] =>
        destruct (drawImage3 R c i x y w0) as [[] w1|e]
    end; [|reflexivity].
    destruct markSeams; reflexivity.
Qed.

Lemma markers_follow_each_blit_witness :
  (0 < length (canvases (plainWorld 2 2 opaqueGreen)))%nat /\
  1 <= width (lookup 0%nat (plainWorld 2 2 opaqueGreen)) /\
  1 <= height (lookup 0%nat (plainWorld 2 2 opaqueGreen)) /\
  (exists out w',
     generateTilePreview referenceRasteriser 0%nat TWO true
       (plainWorld 2 2 opaqueGreen) = Ok out w' /\
     lookup out w'
     = fold_left (fun cv cell => tileOn referenceRasteriser
                                   (plainCanvas 2 2 opaqueGreen) true cell cv)
         (cells 2) (blankCanvas (2 * 2) (2 * 2))) /\
  generateTilePreview referenceRasteriser 0%nat ONE true
    (plainWorld 2 2 opaqueGreen)
  = tilePreviewBlitsFirst referenceRasteriser 0%nat ONE true
      (plainWorld 2 2 opaqueGreen).
Proof.
  split; [cbn; lia|]. split; [cbn; lia|]. split; [cbn; lia|].
  apply (markers_follow_each_blit referenceRasteriser 0%nat TWO true
           (plainWorld 2 2 opaqueGreen)); cbn; lia.
Defined.

(** The claim as worded fails for N = 2: on an opaque green texture of
    2 x 2 pixels the second cell is blitted over the half pixel that the
    boundary rectangle of the first cell has reddened at (2,0); the output
    has 3/8 of red there, and the surface with all blits before all
    rectangles has 17/32. *)
Lemma later_blit_overdraws_marker :
  option_map channels
    (outputPixel (generateTilePreview referenceRasteriser 0%nat TWO true)
       (plainWorld 2 2 opaqueGreen) 2 0)
  = Some (3 # 8, 5 # 8, 0, 1)%Q /\
  option_map channels
    (outputPixel (tilePreviewBlitsFirst referenceRasteriser 0%nat TWO true)
       (plainWorld 2 2 opaqueGreen) 2 0)
  = Some (17 # 32, 15 # 32, 0, 1)%Q /\
  outputPixel (generateTilePreview referenceRasteriser 0%nat TWO true)
    (plainWorld 2 2 opaqueGreen) 2 0
  <> outputPixel (tilePreviewBlitsFirst referenceRasteriser 0%nat TWO true)
       (plainWorld 2 2 opaqueGreen) 2 0.
Proof.
  split; [vm_compute; reflexivity|]. split; [vm_compute; reflexivity|].
  apply channels_differ; vm_compute; discriminate.
Qed.

(** * Further properties of the pipeline *)

(** ** Frames *)

Lemma keepsStore_app cs l n n' : keepsStore (World cs n) (World (cs ++ l) n').
Proof.
  intros h Hh. cbn [canvases] in Hh.
  rewrite lookup_old by exact Hh. reflexivity.
Qed.

Lemma keepsStore_refl w : keepsStore w w.
Proof. intros h _. reflexivity. Qed.

Lemma keepsStore_trans w1 w2 w3 :
  (length (canvases w1) <= length (canvases w2))%nat ->
  keepsStore w1 w2 -> keepsStore w2 w3 -> keepsStore w1 w3.
Proof.
  intros L H12 H23 h Hh. rewrite H23 by lia. apply H12. exact Hh.
Qed.

(** ** applyCrop *)

Lemma run_crop {B} R (ctx : handle) (crop : CropSettings)
    (k : option handle -> M B) cs n :
  (ctx < length cs)%nat ->
  1 <= width (nth ctx cs (blankCanvas 0 0)) ->
  1 <= height (nth ctx cs (blankCanvas 0 0)) ->
  0 < width (nth ctx cs (blankCanvas 0 0)) - left crop - right crop ->
  0 < height (nth ctx cs (blankCanvas 0 0)) - top crop - bottom crop ->
  bind (applyCrop R ctx (width (nth ctx cs (blankCanvas 0 0)))
          (height (nth ctx cs (blankCanvas 0 0))) crop) k (World cs n)
  = k (Some (length cs + 0)%nat)
      (World (cs ++ [croppedCanvas R (nth ctx cs (blankCanvas 0 0)) crop]) n).
Proof.
  intros Hs Hw Hh Hnw Hnh.
  set (src := nth ctx cs (blankCanvas 0 0)) in *.
  assert (Hw0 : (width src =? 0) = false) by lia.
  assert (Hh0 : (height src =? 0) = false) by lia.
  unfold applyCrop.
  replace ((width src - left crop - right crop <=? 0)
           || (height src - top crop - bottom crop <=? 0)) with false
    by (symmetry; apply orb_false_iff; split; apply Z.leb_gt; lia).
  replace (World cs n) with (World (cs ++ []) n)
    by (rewrite app_nil_r; reflexivity).
  unfold drawImage9.
  repeat (repeat mstep (length cs); fold src; rewrite ?Hw0, ?Hh0;
          cbn [orb]; msimpl).
  unfold croppedCanvas. msimpl. reflexivity.
Qed.

(** The cropped canvas is the rectangle of the source that starts at
    (left, top), pixel for pixel. *)
Lemma bits_cropped R src crop x y :
  0 <= x < width src - left crop - right crop ->
  0 <= y < height src - top crop - bottom crop ->
  bits (croppedCanvas R src crop) x y
  = getPixel src (x + left crop) (y + top crop).
Proof.
  intros Hx Hy. unfold croppedCanvas, drawPart.
  rewrite bits_paintLayer_plain by exact plain_default.
  cbn [blankCanvas width height state bits ctm defaultState].
  rewrite (inside_true _ _ _ _ Hx Hy).
  change 0%Q with (inject_Z 0).
  rewrite layerOfImage_copy by lia.
  unfold blank. rewrite over_transparent_r.
  unfold getPixel, inside, copied.
  rewrite !Z.sub_0_r.
  destruct (Z.leb_spec (Z.max (left crop) 0) (x + left crop));
    destruct (Z.ltb_spec (x + left crop)
                (Z.min (left crop + (width src - left crop - right crop))
                       (width src)));
    destruct (Z.leb_spec (Z.max (top crop) 0) (y + top crop));
    destruct (Z.ltb_spec (y + top crop)
                (Z.min (top crop + (height src - top crop - bottom crop))
                       (height src)));
    destruct (Z.leb_spec 0 (x + left crop));
    destruct (Z.ltb_spec (x + left crop) (width src));
    destruct (Z.leb_spec 0 (y + top crop));
    destruct (Z.ltb_spec (y + top crop) (height src));
    cbn [andb]; try reflexivity; lia.
Qed.

Lemma cropStage_run R (currentCanvas : handle) (crop : CropSettings) cs n :
  (currentCanvas < length cs)%nat ->
  1 <= width (nth currentCanvas cs (blankCanvas 0 0)) ->
  1 <= height (nth currentCanvas cs (blankCanvas 0 0)) ->
  0 < top crop \/ 0 < bottom crop \/ 0 < left crop \/ 0 < right crop ->
  0 < width (nth currentCanvas cs (blankCanvas 0 0)) - left crop - right crop ->
  0 < height (nth currentCanvas cs (blankCanvas 0 0)) - top crop - bottom crop ->
  cropStage R currentCanvas crop (World cs n)
  = Ok (length cs)
      (World (cs ++ [croppedCanvas R (nth currentCanvas cs (blankCanvas 0 0))
                       crop]) n).
Proof.
  set (src := nth currentCanvas cs (blankCanvas 0 0)).
  intros Hs Hw Hh Hpos Hnw Hnh.
  unfold cropStage.
  replace ((0 <? top crop) || (0 <? bottom crop) || (0 <? left crop)
           || (0 <? right crop)) with true.
  2:{ symmetry. rewrite !orb_true_iff, !Z.ltb_lt. tauto. }
  cbv iota. unfold bind at 1. unfold getCanvas at 1.
  change (lookup currentCanvas (World cs n)) with src.
  unfold src at 1 2.
  rewrite run_crop by (fold src; first [assumption | lia]).
  fold src. rewrite Nat.add_0_r. reflexivity.
Qed.

(** X1. A crop with a positive entry that leaves a positive width and
    height makes the crop stage return a new canvas of size
    (W - left - right) x (H - top - bottom) whose pixel (x,y) is the pixel
    (x + left, y + top) of the input, copied without resampling
    (transparent where that falls outside the input, which negative entries
    allow); the input and every other canvas stay as they were. *)
Theorem crop_copies_inner_rectangle R (currentCanvas : handle)
    (crop : CropSettings) (w : world) :
  (currentCanvas < length (canvases w))%nat ->
  1 <= width (lookup currentCanvas w) -> 1 <= height (lookup currentCanvas w) ->
  0 < top crop \/ 0 < bottom crop \/ 0 < left crop \/ 0 < right crop ->
  0 < width (lookup currentCanvas w) - left crop - right crop ->
  0 < height (lookup currentCanvas w) - top crop - bottom crop ->
  exists out w',
    cropStage R currentCanvas crop w = Ok out w' /\
    out = length (canvases w) /\
    keepsStore w w' /\
    width (lookup out w')
    = width (lookup currentCanvas w) - left crop - right crop /\
    height (lookup out w')
    = height (lookup currentCanvas w) - top crop - bottom crop /\
    forall x y,
      0 <= x < width (lookup currentCanvas w) - left crop - right crop ->
      0 <= y < height (lookup currentCanvas w) - top crop - bottom crop ->
      getPixel (lookup out w') x y
      = getPixel (lookup currentCanvas w) (x + left crop) (y + top crop).
Proof.
  destruct w as [cs n]. cbn [canvases].
  change (lookup currentCanvas (World cs n))
    with (nth currentCanvas cs (blankCanvas 0 0)).
  set (src := nth currentCanvas cs (blankCanvas 0 0)).
  intros Hs Hw Hh Hpos Hnw Hnh.
  rewrite cropStage_run by (fold src; assumption).
  fold src.
  eexists. eexists. split; [reflexivity|].
  split; [reflexivity|].
  split; [apply keepsStore_app|].
  rewrite lookup_first. cbn [nth].
  split; [reflexivity|]. split; [reflexivity|].
  intros x y Hx Hy.
  rewrite (getPixel_inside (croppedCanvas R src crop)) by (cbn; assumption).
  apply bits_cropped; assumption.
Qed.

Lemma crop_copies_inner_rectangle_witness :
  (0 < length (canvases (gridWorld 6 5)))%nat /\
  1 <= width (lookup 0%nat (gridWorld 6 5)) /\
  1 <= height (lookup 0%nat (gridWorld 6 5)) /\
  (0 < top (MkCrop 1 0 2 1) \/ 0 < bottom (MkCrop 1 0 2 1) \/
   0 < left (MkCrop 1 0 2 1) \/ 0 < right (MkCrop 1 0 2 1)) /\
  0 < width (lookup 0%nat (gridWorld 6 5)) - left (MkCrop 1 0 2 1)
      - right (MkCrop 1 0 2 1) /\
  0 < height (lookup 0%nat (gridWorld 6 5)) - top (MkCrop 1 0 2 1)
      - bottom (MkCrop 1 0 2 1) /\
  exists out w',
    cropStage referenceRasteriser 0%nat (MkCrop 1 0 2 1) (gridWorld 6 5)
    = Ok out w' /\
    out = 1%nat /\
    keepsStore (gridWorld 6 5) w' /\
    width (lookup out w') = 3 /\
    height (lookup out w') = 4 /\
    forall x y,
      0 <= x < 3 -> 0 <= y < 4 ->
      getPixel (lookup out w') x y = getPixel (gridCanvas 6 5) (x + 2) (y + 1).
Proof.
  split; [cbn; lia|]. split; [cbn; lia|]. split; [cbn; lia|].
  split; [left; cbn; lia|]. split; [cbn; lia|]. split; [cbn; lia|].
  apply (crop_copies_inner_rectangle referenceRasteriser 0%nat
           (MkCrop 1 0 2 1) (gridWorld 6 5)).
  - cbn; lia.
  - cbn; lia.
  - cbn; lia.
  - left; cbn; lia.
  - cbn; lia.
  - cbn; lia.
Defined.

(** ** The strategies and the store *)

(** *** What every round of generatePatchBased keeps *)

Section PatchInvariant.
Variable R : Rasteriser.
Variable rv : nat -> Q.
Variable src : canvas.
Variables ctx srcCanvas : handle.
Hypothesis rv_range : forall i, (0 <= rv i /\ rv i < 1)%Q.
Hypothesis Hw : 5 <= width src.
Hypothesis Hh : 5 <= height src.
Hypothesis Hne : ctx <> srcCanvas.

(** A property of the output canvas that pasting a patch keeps. *)
Variable P : canvas -> Prop.
Hypothesis P_paste :
  forall n c,
    tidy c -> P c ->
    P (pasteAt R rv src (inject_Z (width src)) (inject_Z (height src))
         (minPatch src) (maxPatch src) n c).

Lemma later_rounds_keep (count : nat) :
  forall (from : Z) (cs : list canvas) (n : nat),
    1 <= from ->
    (srcCanvas < length cs)%nat -> (ctx < length cs)%nat ->
    nth srcCanvas cs (blankCanvas 0 0) = src ->
    tidy (nth ctx cs (blankCanvas 0 0)) ->
    P (nth ctx cs (blankCanvas 0 0)) ->
    exists cs',
      forLoop from count
        (throwPatch R rv ctx srcCanvas (inject_Z (width src))
           (inject_Z (height src)) (minPatch src) (maxPatch src))
        (World cs n)
      = Ok tt (World cs' (5 * count + n)) /\
      (length cs <= length cs')%nat /\
      (forall j, (j < length cs)%nat -> j <> ctx ->
                 nth j cs' (blankCanvas 0 0) = nth j cs (blankCanvas 0 0)) /\
      P (nth ctx cs' (blankCanvas 0 0)).
Proof.
  induction count as [|count IH]; intros from cs n Hfrom Hs Hc Hsrc Htidy HP.
  - exists cs. cbn. repeat split; auto.
  - rewrite forLoop_S.
    rewrite run_throwPatch_later;
      [|assumption|assumption|assumption|rewrite Hsrc; lia|rewrite Hsrc; lia
       |lia|apply size_pos; assumption].
    rewrite Hsrc.
    set (w := inject_Z (width src)). set (h := inject_Z (height src)).
    set (cs1 := updateAt ctx
                  (pasteAt R rv src w h (minPatch src) (maxPatch src) n) cs
                ++ [fuzzyAt R rv src w h (minPatch src) (maxPatch src) n]).
    assert (L1 : length cs1 = S (length cs))
      by (unfold cs1; rewrite length_app, updateAt_length; cbn; lia).
    assert (Hold : forall j, (j < length cs)%nat -> j <> ctx ->
                     nth j cs1 (blankCanvas 0 0) = nth j cs (blankCanvas 0 0)).
    { intros j Hj Hjc. unfold cs1.
      rewrite app_nth1 by (rewrite updateAt_length; exact Hj).
      apply nth_updateAt_other. congruence. }
    assert (Hctx : nth ctx cs1 (blankCanvas 0 0)
                   = pasteAt R rv src w h (minPatch src) (maxPatch src) n
                       (nth ctx cs (blankCanvas 0 0))).
    { unfold cs1. rewrite app_nth1 by (rewrite updateAt_length; exact Hc).
      rewrite nth_updateAt by exact Hc. rewrite Nat.eqb_refl. reflexivity. }
    destruct (IH (from + 1) cs1 (5 + n)%nat) as (cs' & E & L & O & Q).
    + lia.
    + lia.
    + lia.
    + rewrite Hold by (auto; congruence). exact Hsrc.
    + rewrite Hctx. apply tidy_pasteAt. exact Htidy.
    + rewrite Hctx. apply P_paste; assumption.
    + exists cs'. repeat split.
      * fold w h in E. rewrite E. do 2 f_equal. lia.
      * lia.
      * intros j Hj Hjc. rewrite O by (auto; lia). apply Hold; assumption.
      * exact Q.
Qed.

End PatchInvariant.

Section PatchBasedKeeps.
Variable R : Rasteriser.
Variable rv : nat -> Q.
Hypothesis rv_range : forall i, (0 <= rv i /\ rv i < 1)%Q.

(** [generatePatchBased] returns after 150 random draws, five in each of
    the 30 rounds, with an output that has every property that the copy of
    the source has and that drawing the scattered base and pasting a patch
    keep. *)
Lemma run_patchBased_keeps (P : canvas -> Prop) (srcCanvas : handle) cs n :
  (srcCanvas < length cs)%nat ->
  5 <= width (nth srcCanvas cs (blankCanvas 0 0)) ->
  5 <= height (nth srcCanvas cs (blankCanvas 0 0)) ->
  P (drawWhole R (nth srcCanvas cs (blankCanvas 0 0)) 0 0
       (blankCanvas (width (nth srcCanvas cs (blankCanvas 0 0)))
                    (height (nth srcCanvas cs (blankCanvas 0 0))))) ->
  (forall c, tidy c -> P c ->
             P (initBase R (nth srcCanvas cs (blankCanvas 0 0)) c)) ->
  (forall k c,
     tidy c -> P c ->
     P (pasteAt R rv (nth srcCanvas cs (blankCanvas 0 0))
          (inject_Z (width (nth srcCanvas cs (blankCanvas 0 0))))
          (inject_Z (height (nth srcCanvas cs (blankCanvas 0 0))))
          (minPatch (nth srcCanvas cs (blankCanvas 0 0)))
          (maxPatch (nth srcCanvas cs (blankCanvas 0 0))) k c)) ->
  exists cs',
    generatePatchBased R rv srcCanvas (World cs n)
    = Ok (length cs) (World (cs ++ cs') (150 + n)) /\
    P (nth 0 cs' (blankCanvas 0 0)).
Proof.
  intros Hs Hw Hh P0 Pbase Ppaste.
  set (dflt := blankCanvas 0 0) in *.
  set (src := nth srcCanvas cs dflt) in *.
  assert (Hw0 : (width src =? 0) = false) by lia.
  assert (Hh0 : (height src =? 0) = false) by lia.
  unfold generatePatchBased.
  replace (World cs n) with (World (cs ++ []) n)
    by (rewrite app_nil_r; reflexivity).
  unfold drawImage3, drawImage9.
  repeat (repeat mstep (length cs); fold dflt; fold src; rewrite ?Hw0, ?Hh0;
          cbn [orb]; msimpl).
  fold (drawWhole R src 0 0 (blankCanvas (width src) (height src))).
  set (c0 := drawWhole R src 0 0 (blankCanvas (width src) (height src))) in *.
  fold (minPatch src). fold (maxPatch src).
  set (w := inject_Z (width src)) in *. set (h := inject_Z (height src)) in *.
  set (cs1 := cs ++ [c0]).
  rewrite Nat.add_0_r.
  set (ctx := length cs).
  assert (L1 : length cs1 = S (length cs))
    by (unfold cs1; rewrite length_app; cbn; lia).
  assert (Hsrc1 : nth srcCanvas cs1 dflt = src)
    by (unfold cs1; rewrite app_nth1 by exact Hs; reflexivity).
  assert (Hctx1 : nth ctx cs1 dflt = c0)
    by (unfold cs1, ctx; rewrite app_nth2, Nat.sub_diag by lia; reflexivity).
  assert (Hne : ctx <> srcCanvas) by (unfold ctx; lia).
  rewrite forLoop_S, bind_assoc.
  rewrite (run_throwPatch_first R rv ctx srcCanvas _ cs1 n w h
             (minPatch src) (maxPatch src));
    fold dflt; rewrite ?Hsrc1;
    [|lia|unfold ctx; lia|exact Hne|lia|lia|apply size_pos; assumption].
  set (F0 := fun c => pasteAt R rv src w h (minPatch src) (maxPatch src) n
                        (initBase R src c)).
  set (cs2 := updateAt ctx F0 cs1 ++ _).
  assert (L2 : length cs2 = (length cs1 + 4)%nat)
    by (unfold cs2; rewrite length_app, updateAt_length; cbn; lia).
  assert (Hsrc2 : nth srcCanvas cs2 dflt = src).
  { unfold cs2. rewrite app_nth1 by (rewrite updateAt_length; lia).
    rewrite nth_updateAt_other by exact Hne. exact Hsrc1. }
  assert (Hctx2 : nth ctx cs2 dflt = F0 c0).
  { unfold cs2. rewrite app_nth1 by (rewrite updateAt_length; unfold ctx; lia).
    rewrite nth_updateAt by (unfold ctx; lia).
    rewrite Nat.eqb_refl, Hctx1. reflexivity. }
  assert (T0 : tidy c0) by reflexivity.
  assert (T1 : tidy (initBase R src c0)) by reflexivity.
  destruct (later_rounds_keep R rv src ctx srcCanvas rv_range Hw Hh Hne P
              Ppaste 29 (0 + 1) cs2 (5 + n)%nat)
    as (cs3 & E & L & O & Q).
  { lia. } { lia. } { unfold ctx; lia. } { exact Hsrc2. }
  { fold dflt. rewrite Hctx2. unfold F0. apply tidy_pasteAt. exact T1. }
  { fold dflt. rewrite Hctx2. unfold F0.
    apply Ppaste; [exact T1|]. apply Pbase; [exact T0|exact P0]. }
  fold dflt in O, Q.
  fold w h in E. cbv beta. unfold bind at 1. rewrite E.
  unfold ret.
  assert (Hpre : forall j, (j < length cs)%nat ->
                           nth j cs3 dflt = nth j cs dflt).
  { intros j Hj. rewrite O by (unfold ctx; lia).
    unfold cs2. rewrite app_nth1 by (rewrite updateAt_length; lia).
    rewrite nth_updateAt_other by (unfold ctx; lia).
    unfold cs1. apply app_nth1. exact Hj. }
  exists (skipn (length cs) cs3).
  assert (Esplit : cs3 = cs ++ skipn (length cs) cs3).
  { rewrite <- (firstn_skipn (length cs) cs3) at 1. f_equal.
    apply nth_ext with (d := dflt) (d' := dflt).
    - rewrite length_firstn. lia.
    - intros j Hj. rewrite length_firstn in Hj.
      rewrite nth_firstn.
      destruct (Nat.ltb_spec j (length cs)); [apply Hpre|]; lia. }
  assert (Hout : nth 0 (skipn (length cs) cs3) dflt = nth ctx cs3 dflt).
  { rewrite Esplit at 2. unfold ctx.
    rewrite app_nth2, Nat.sub_diag by lia. reflexivity. }
  split; [rewrite <- Esplit; reflexivity|].
  rewrite Hout. exact Q.
Qed.

End PatchBasedKeeps.

(** Drawing with source-over on an opaque pixel leaves it opaque. *)
Lemma over_keeps_opaque (s d : pixel) : opaque d -> opaque (over s d).
Proof.
  destruct s, d; unfold opaque, over; cbn; intros ->; ring.
Qed.

Lemma paintLayer_keeps_opaque R L c x y :
  plain (state c) -> opaque (bits c x y) ->
  opaque (bits (paintLayer R L c) x y).
Proof.
  intros Hp Ho. rewrite bits_paintLayer_plain by exact Hp.
  destruct (inside _ _ _ _); [apply over_keeps_opaque|]; exact Ho.
Qed.

(** ** applyAveraging *)

(** The blurred copy is drawn with the alpha that the assignment of
    intensity/100 leaves in the context: [globalAlpha] keeps its initial
    value 1 when the assigned value is outside [0,1]. *)
Lemma bits_averaged R src settings x y :
  0 <= x < width src -> 0 <= y < height src ->
  bits (averagedCanvas R src settings) x y
  = over (scalePx
            (Q2Qc (globalAlpha
                     (withAlpha (inject_Z (intensity settings) / 100)
                        defaultState)))
            (bits (blurredCanvas R src settings) x y))
         (bits src x y).
Proof.
  intros Hx Hy. unfold averagedCanvas.
  cbn [setState bits].
  unfold drawWhole at 1. unfold drawPart.
  cbn [setState paintLayer bits width height state blankCanvas
       drawWhole drawPart].
  set (q := (inject_Z (intensity settings) / 100)%Q).
  set (st := withAlpha q (withOp SourceOver defaultState)).
  assert (Ec : ctm st = identity)
    by (unfold st, withAlpha; destruct (_ && _); reflexivity).
  assert (Eo : globalCompositeOperation st = SourceOver)
    by (unfold st, withAlpha; destruct (_ && _); reflexivity).
  assert (Ef : filter st = None)
    by (unfold st, withAlpha; destruct (_ && _); reflexivity).
  assert (Ea : globalAlpha st = globalAlpha (withAlpha q defaultState))
    by (unfold st, withAlpha; destruct (_ && _); reflexivity).
  unfold painted at 1. unfold filtered at 1.
  rewrite Ec, Eo, Ef, Ea. cbn [compose].
  rewrite (inside_true _ _ _ _ Hx Hy).
  change 0%Q with (inject_Z 0).
  rewrite width_blurred, height_blurred.
  rewrite layerOfImage_copy by lia.
  rewrite !copied_whole by assumption.
  cbn [andb]. rewrite !Z.sub_0_r, !Z.add_0_r.
  f_equal.
  change (inject_Z 0) with 0%Q.
  change (bits (drawWhole R src 0 0 (blankCanvas (width src) (height src))) x y
          = bits src x y).
  rewrite bits_drawWhole_copy by (assumption || reflexivity).
  apply over_transparent_r.
Qed.

Lemma alpha_in_range (i : Z) :
  0 < i <= 100 ->
  globalAlpha (withAlpha (inject_Z i / 100) defaultState)
  = (inject_Z i / 100)%Q.
Proof.
  intros [Hlo Hhi]. unfold withAlpha.
  assert (A : Qle_bool 0 (inject_Z i / 100) = true).
  { apply Qle_bool_iff. inQ Hlo. nodiv. lra. }
  assert (B : Qle_bool (inject_Z i / 100) 1 = true).
  { apply Qle_bool_iff. inQ Hhi. nodiv. lra. }
  rewrite A, B. reflexivity.
Qed.

Lemma alpha_out_of_range (i : Z) :
  100 < i ->
  globalAlpha (withAlpha (inject_Z i / 100) defaultState) = 1%Q.
Proof.
  intros Hi. unfold withAlpha.
  assert (B : Qle_bool (inject_Z i / 100) 1 = false).
  { apply Qle_bool_false. inQ Hi. nodiv. lra. }
  rewrite B, andb_false_r. reflexivity.
Qed.

(** X2. For an intensity from 1 to 100 the averaging stage returns a new
    canvas of the size of the input in which every pixel is the pixel of
    the blurred copy, weighted by intensity/100, composited source-over on
    the pixel of the input; the input and every other canvas stay as they
    were. *)
Theorem averaging_blends_by_intensity R (canvas : handle)
    (settings : AveragingSettings) (w : world) :
  (canvas < length (canvases w))%nat ->
  1 <= width (lookup canvas w) -> 1 <= height (lookup canvas w) ->
  0 < intensity settings <= 100 ->
  exists out w',
    averagingStage R canvas settings w = Ok out w' /\
    out = length (canvases w) /\
    keepsStore w w' /\
    width (lookup out w') = width (lookup canvas w) /\
    height (lookup out w') = height (lookup canvas w) /\
    forall x y,
      0 <= x < width (lookup canvas w) -> 0 <= y < height (lookup canvas w) ->
      getPixel (lookup out w') x y
      = over (scalePx (Q2Qc (inject_Z (intensity settings) / 100))
                (getPixel (blurredCanvas R (lookup canvas w) settings) x y))
             (getPixel (lookup canvas w) x y).
Proof.
  destruct w as [cs n]. cbn [canvases].
  change (lookup canvas (World cs n)) with (nth canvas cs (blankCanvas 0 0)).
  set (src := nth canvas cs (blankCanvas 0 0)).
  intros Hs Hw Hh Hi.
  unfold averagingStage.
  replace (0 <? intensity settings) with true by (symmetry; apply Z.ltb_lt; lia).
  rewrite <- (bind_ret_r (applyAveraging R canvas settings)).
  rewrite run_averaging by (fold src; first [assumption | lia]).
  fold src. rewrite Nat.add_0_r.
  eexists. eexists. split; [reflexivity|].
  split; [reflexivity|].
  split; [apply keepsStore_app|].
  rewrite lookup_first. cbn [nth].
  split; [reflexivity|]. split; [reflexivity|].
  intros x y Hx Hy.
  rewrite !getPixel_inside
    by (rewrite ?width_blurred, ?height_blurred; assumption).
  rewrite bits_averaged by assumption.
  rewrite alpha_in_range by exact Hi. reflexivity.
Qed.

Lemma averaging_blends_by_intensity_witness :
  (0 < length (canvases (gridWorld 3 3)))%nat /\
  1 <= width (lookup 0%nat (gridWorld 3 3)) /\
  1 <= height (lookup 0%nat (gridWorld 3 3)) /\
  0 < intensity (MkAveraging 40 2) <= 100 /\
  exists out w',
    averagingStage referenceRasteriser 0%nat (MkAveraging 40 2) (gridWorld 3 3)
    = Ok out w' /\
    out = 1%nat /\
    keepsStore (gridWorld 3 3) w' /\
    width (lookup out w') = 3 /\
    height (lookup out w') = 3 /\
    forall x y,
      0 <= x < 3 -> 0 <= y < 3 ->
      getPixel (lookup out w') x y
      = over (scalePx (Q2Qc (inject_Z 40 / 100))
                (getPixel (blurredCanvas referenceRasteriser (gridCanvas 3 3)
                             (MkAveraging 40 2)) x y))
             (getPixel (gridCanvas 3 3) x y).
Proof.
  split; [cbn; lia|]. split; [cbn; lia|]. split; [cbn; lia|].
  split; [cbn; lia|].
  apply (averaging_blends_by_intensity referenceRasteriser 0%nat
           (MkAveraging 40 2) (gridWorld 3 3)); cbn; lia.
Defined.

(** X3. An intensity above 100 acts as intensity 100: the assignment of
    intensity/100 to [globalAlpha] is outside [0,1] and is ignored, so the
    blurred copy is drawn with the initial alpha 1 and the result is the
    blurred copy composited over the input. *)
Theorem intensity_above_100_is_full R (canvas : handle)
    (settings : AveragingSettings) (w : world) :
  (canvas < length (canvases w))%nat ->
  1 <= width (lookup canvas w) -> 1 <= height (lookup canvas w) ->
  100 < intensity settings ->
  exists out w',
    applyAveraging R canvas settings w = Ok out w' /\
    forall x y,
      0 <= x < width (lookup canvas w) -> 0 <= y < height (lookup canvas w) ->
      getPixel (lookup out w') x y
      = over (getPixel (blurredCanvas R (lookup canvas w) settings) x y)
             (getPixel (lookup canvas w) x y).
Proof.
  destruct w as [cs n]. cbn [canvases].
  change (lookup canvas (World cs n)) with (nth canvas cs (blankCanvas 0 0)).
  set (src := nth canvas cs (blankCanvas 0 0)).
  intros Hs Hw Hh Hi.
  rewrite <- (bind_ret_r (applyAveraging R canvas settings)).
  rewrite run_averaging by (fold src; first [assumption | lia]).
  fold src.
  eexists. eexists. split; [reflexivity|].
  rewrite lookup_new. cbn [nth].
  intros x y Hx Hy.
  rewrite !getPixel_inside
    by (rewrite ?width_blurred, ?height_blurred; assumption).
  rewrite bits_averaged by assumption.
  rewrite alpha_out_of_range by exact Hi.
  rewrite scalePx_one. reflexivity.
Qed.

Lemma intensity_above_100_is_full_witness :
  (0 < length (canvases (gridWorld 3 3)))%nat /\
  1 <= width (lookup 0%nat (gridWorld 3 3)) /\
  1 <= height (lookup 0%nat (gridWorld 3 3)) /\
  100 < intensity (MkAveraging 250 2) /\
  exists out w',
    applyAveraging referenceRasteriser 0%nat (MkAveraging 250 2) (gridWorld 3 3)
    = Ok out w' /\
    forall x y,
      0 <= x < 3 -> 0 <= y < 3 ->
      getPixel (lookup out w') x y
      = over (getPixel (blurredCanvas referenceRasteriser (gridCanvas 3 3)
                          (MkAveraging 250 2)) x y)
             (getPixel (gridCanvas 3 3) x y).
Proof.
  split; [cbn; lia|]. split; [cbn; lia|]. split; [cbn; lia|].
  split; [cbn; lia|].
  apply (intensity_above_100_is_full referenceRasteriser 0%nat
           (MkAveraging 250 2) (gridWorld 3 3)); cbn; lia.
Defined.

(** X4. Averaging never makes an opaque pixel transparent: for every
    positive intensity, radius and blur, a pixel that is opaque in the input
    is opaque in the result. *)
Theorem averaging_keeps_opaque_pixels R (canvas : handle)
    (settings : AveragingSettings) (w : world) :
  (canvas < length (canvases w))%nat ->
  1 <= width (lookup canvas w) -> 1 <= height (lookup canvas w) ->
  0 < intensity settings ->
  exists out w',
    applyAveraging R canvas settings w = Ok out w' /\
    forall x y,
      0 <= x < width (lookup canvas w) -> 0 <= y < height (lookup canvas w) ->
      opaque (getPixel (lookup canvas w) x y) ->
      opaque (getPixel (lookup out w') x y).
Proof.
  destruct w as [cs n]. cbn [canvases].
  change (lookup canvas (World cs n)) with (nth canvas cs (blankCanvas 0 0)).
  set (src := nth canvas cs (blankCanvas 0 0)).
  intros Hs Hw Hh Hi.
  rewrite <- (bind_ret_r (applyAveraging R canvas settings)).
  rewrite run_averaging by (fold src; first [assumption | lia]).
  fold src.
  eexists. eexists. split; [reflexivity|].
  rewrite lookup_new. cbn [nth].
  intros x y Hx Hy.
  rewrite !getPixel_inside by assumption.
  rewrite bits_averaged by assumption.
  apply over_keeps_opaque.
Qed.

Lemma averaging_keeps_opaque_pixels_witness :
  (0 < length (canvases (gridWorld 3 3)))%nat /\
  1 <= width (lookup 0%nat (gridWorld 3 3)) /\
  1 <= height (lookup 0%nat (gridWorld 3 3)) /\
  0 < intensity (MkAveraging 40 2) /\
  exists out w',
    applyAveraging referenceRasteriser 0%nat (MkAveraging 40 2) (gridWorld 3 3)
    = Ok out w' /\
    forall x y,
      0 <= x < 3 -> 0 <= y < 3 ->
      opaque (getPixel (gridCanvas 3 3) x y) ->
      opaque (getPixel (lookup out w') x y).
Proof.
  split; [cbn; lia|]. split; [cbn; lia|]. split; [cbn; lia|].
  split; [cbn; lia|].
  apply (averaging_keeps_opaque_pixels referenceRasteriser 0%nat
           (MkAveraging 40 2) (gridWorld 3 3)); cbn; lia.
Defined.

(** ** generateMirrored: the whole surface *)

Section MirroredSymmetry.
Variable R : Rasteriser.
Variable src : canvas.
Hypothesis Hw : 1 <= width src.
Hypothesis Hh : 1 <= height src.

Lemma mirrored_flip_x x y :
  0 <= x < width src -> 0 <= y < height src ->
  bits (mirroredCanvas R src) x y
  = bits (mirroredCanvas R src) (width src - 1 - x) y.
Proof.
  intros Hx Hy. rewrite !(bits_mirrored R src Hw Hh) by lia.
  replace (width src - 1 - (width src - 1 - x)) with x by lia.
  destruct (Z_le_gt_dec (width src) (2 * x)).
  - rewrite !(quarter_outside_x R src Hw x) by lia.
    rewrite ?over_transparent_l, ?over_transparent_r. reflexivity.
  - destruct (Z_le_gt_dec (width src) (2 * (width src - 1 - x))).
    + rewrite !(quarter_outside_x R src Hw (width src - 1 - x)) by lia.
      rewrite ?over_transparent_l, ?over_transparent_r. reflexivity.
    + replace (width src - 1 - x) with x by lia. reflexivity.
Qed.

Lemma mirrored_flip_y x y :
  0 <= x < width src -> 0 <= y < height src ->
  bits (mirroredCanvas R src) x y
  = bits (mirroredCanvas R src) x (height src - 1 - y).
Proof.
  intros Hx Hy. rewrite !(bits_mirrored R src Hw Hh) by lia.
  replace (height src - 1 - (height src - 1 - y)) with y by lia.
  destruct (Z_le_gt_dec (height src) (2 * y)).
  - rewrite !(quarter_outside_y R src Hh _ y) by lia.
    rewrite ?over_transparent_l, ?over_transparent_r. reflexivity.
  - destruct (Z_le_gt_dec (height src) (2 * (height src - 1 - y))).
    + rewrite !(quarter_outside_y R src Hh _ (height src - 1 - y)) by lia.
      rewrite ?over_transparent_l, ?over_transparent_r. reflexivity.
    + replace (height src - 1 - y) with y by lia. reflexivity.
Qed.

End MirroredSymmetry.

(** X5. The Mirrored output is symmetric about both of its centre lines,
    not only equal on its edges: every pixel (x,y) equals the pixel
    (W-1-x, y) and the pixel (x, H-1-y), for every surface, odd sizes
    included, and every resampling filter. *)
Theorem mirrored_is_symmetric R (srcCanvas : handle) (w : world) :
  (srcCanvas < length (canvases w))%nat ->
  1 <= width (lookup srcCanvas w) -> 1 <= height (lookup srcCanvas w) ->
  exists out w',
    generateMirrored R srcCanvas w = Ok out w' /\
    forall x y,
      0 <= x < width (lookup srcCanvas w) ->
      0 <= y < height (lookup srcCanvas w) ->
      getPixel (lookup out w') x y
      = getPixel (lookup out w') (width (lookup srcCanvas w) - 1 - x) y /\
      getPixel (lookup out w') x y
      = getPixel (lookup out w') x (height (lookup srcCanvas w) - 1 - y).
Proof.
  destruct w as [cs n]. cbn [canvases].
  change (lookup srcCanvas (World cs n))
    with (nth srcCanvas cs (blankCanvas 0 0)).
  set (src := nth srcCanvas cs (blankCanvas 0 0)).
  intros Hs Hw Hh.
  rewrite <- (bind_ret_r (generateMirrored R srcCanvas)).
  rewrite run_mirrored by assumption. fold src.
  eexists. eexists. split; [reflexivity|].
  rewrite lookup_new. cbn [nth].
  intros x y Hx Hy.
  rewrite !getPixel_inside by (cbn; lia).
  split; [apply mirrored_flip_x | apply mirrored_flip_y]; assumption.
Qed.

Lemma mirrored_is_symmetric_witness :
  (0 < length (canvases (gridWorld 5 4)))%nat /\
  1 <= width (lookup 0%nat (gridWorld 5 4)) /\
  1 <= height (lookup 0%nat (gridWorld 5 4)) /\
  exists out w',
    generateMirrored referenceRasteriser 0%nat (gridWorld 5 4) = Ok out w' /\
    forall x y,
      0 <= x < 5 -> 0 <= y < 4 ->
      getPixel (lookup out w') x y = getPixel (lookup out w') (5 - 1 - x) y /\
      getPixel (lookup out w') x y = getPixel (lookup out w') x (4 - 1 - y).
Proof.
  split; [cbn; lia|]. split; [cbn; lia|]. split; [cbn; lia|].
  apply (mirrored_is_symmetric referenceRasteriser 0%nat (gridWorld 5 4));
    cbn; lia.
Defined.

(** *** The three strategies *)

(** X6. On every surface of at least one pixel the Mirrored strategy
    returns: the output is a canvas of its own, created after all canvases
    of the store, of the size of the input; the input and every other
    canvas stay as they were, and [Math.random] is not called. *)
Theorem mirrored_draws_on_a_new_canvas R (srcCanvas : handle) (w : world) :
  (srcCanvas < length (canvases w))%nat ->
  1 <= width (lookup srcCanvas w) -> 1 <= height (lookup srcCanvas w) ->
  exists out w',
    generateMirrored R srcCanvas w = Ok out w' /\
    out = length (canvases w) /\
    keepsStore w w' /\
    randomCalls w' = randomCalls w /\
    width (lookup out w') = width (lookup srcCanvas w) /\
    height (lookup out w') = height (lookup srcCanvas w).
Proof.
  destruct w as [cs n]. cbn [canvases randomCalls].
  change (lookup srcCanvas (World cs n))
    with (nth srcCanvas cs (blankCanvas 0 0)).
  intros Hs Hw Hh.
  rewrite <- (bind_ret_r (generateMirrored R srcCanvas)).
  rewrite run_mirrored by assumption.
  rewrite Nat.add_0_r.
  eexists. eexists. split; [reflexivity|].
  split; [reflexivity|]. split; [apply keepsStore_app|].
  rewrite lookup_first. cbn [nth randomCalls].
  repeat split.
Qed.

Lemma mirrored_draws_on_a_new_canvas_witness :
  (0 < length (canvases (gridWorld 1 1)))%nat /\
  1 <= width (lookup 0%nat (gridWorld 1 1)) /\
  1 <= height (lookup 0%nat (gridWorld 1 1)) /\
  exists out w',
    generateMirrored referenceRasteriser 0%nat (gridWorld 1 1) = Ok out w' /\
    out = 1%nat /\
    keepsStore (gridWorld 1 1) w' /\
    randomCalls w' = 0%nat /\
    width (lookup out w') = 1 /\
    height (lookup out w') = 1.
Proof.
  split; [cbn; lia|]. split; [cbn; lia|]. split; [cbn; lia|].
  apply (mirrored_draws_on_a_new_canvas referenceRasteriser 0%nat
           (gridWorld 1 1)); cbn; lia.
Defined.

(** X7. On a surface of at least one pixel the Scattered strategy returns
    a surface exactly when the surface is at least two pixels wide and two
    pixels high.  When it returns, the output is a canvas of its own of the
    size of the input, the input and every other canvas stay as they were,
    and [Math.random] is not called. *)
Theorem scattered_returns_iff_two_pixels R (srcCanvas : handle) (w : world) :
  (srcCanvas < length (canvases w))%nat ->
  1 <= width (lookup srcCanvas w) -> 1 <= height (lookup srcCanvas w) ->
  ((exists out w', generateScattered R srcCanvas w = Ok out w')
   <-> 2 <= width (lookup srcCanvas w) /\ 2 <= height (lookup srcCanvas w)) /\
  forall out w',
    generateScattered R srcCanvas w = Ok out w' ->
    out = length (canvases w) /\
    keepsStore w w' /\
    randomCalls w' = randomCalls w /\
    width (lookup out w') = width (lookup srcCanvas w) /\
    height (lookup out w') = height (lookup srcCanvas w).
Proof.
  destruct w as [cs n]. cbn [canvases randomCalls].
  change (lookup srcCanvas (World cs n))
    with (nth srcCanvas cs (blankCanvas 0 0)).
  set (src := nth srcCanvas cs (blankCanvas 0 0)).
  intros Hs Hw Hh.
  destruct (Z_le_gt_dec 2 (width src)) as [W2|W1];
    [destruct (Z_le_gt_dec 2 (height src)) as [H2|H1]|].
  - assert (E : generateScattered R srcCanvas (World cs n)
                = Ok (length cs)
                    (World (cs ++ [scatteredCanvas R src; scatterMask src;
                                   scatterPatch R src]) n)).
    { rewrite <- (bind_ret_r (generateScattered R srcCanvas)).
      rewrite run_scattered by assumption.
      rewrite Nat.add_0_r. reflexivity. }
    split.
    + split; [intros _; split; assumption|].
      intros _. eexists. eexists. exact E.
    + intros out w' E'. rewrite E in E'. injection E' as <- <-.
      split; [reflexivity|]. split; [apply keepsStore_app|].
      rewrite lookup_first. cbn [nth randomCalls]. repeat split.
  - assert (E : generateScattered R srcCanvas (World cs n)
                = Throw InvalidStateError)
      by (apply scattered_throws; fold src; first [assumption | lia]).
    split.
    + split; [|lia]. intros (out & w' & E'). rewrite E in E'. discriminate.
    + intros out w' E'. rewrite E in E'. discriminate.
  - assert (E : generateScattered R srcCanvas (World cs n)
                = Throw InvalidStateError)
      by (apply scattered_throws; fold src; first [assumption | lia]).
    split.
    + split; [|lia]. intros (out & w' & E'). rewrite E in E'. discriminate.
    + intros out w' E'. rewrite E in E'. discriminate.
Qed.

Lemma scattered_returns_iff_two_pixels_witness :
  (0 < length (canvases (gridWorld 2 2)))%nat /\
  1 <= width (lookup 0%nat (gridWorld 2 2)) /\
  1 <= height (lookup 0%nat (gridWorld 2 2)) /\
  ((exists out w',
      generateScattered referenceRasteriser 0%nat (gridWorld 2 2) = Ok out w')
   <-> 2 <= 2 /\ 2 <= 2) /\
  forall out w',
    generateScattered referenceRasteriser 0%nat (gridWorld 2 2) = Ok out w' ->
    out = 1%nat /\
    keepsStore (gridWorld 2 2) w' /\
    randomCalls w' = 0%nat /\
    width (lookup out w') = 2 /\
    height (lookup out w') = 2.
Proof.
  split; [cbn; lia|]. split; [cbn; lia|]. split; [cbn; lia|].
  apply (scattered_returns_iff_two_pixels referenceRasteriser 0%nat
           (gridWorld 2 2)); cbn; lia.
Defined.

(** X8. On a surface of at least 5 pixels each way the PatchBased strategy
    returns for all random draws in [0,1): the output is a canvas of its
    own of the size of the input, the input and every other canvas stay as
    they were, and [Math.random] has been called exactly 150 times, five
    times in each of the 30 rounds. *)
Theorem patchBased_takes_150_draws R (rv : nat -> Q)
    (srcCanvas : handle) (w : world) :
  (forall i, (0 <= rv i /\ rv i < 1)%Q) ->
  (srcCanvas < length (canvases w))%nat ->
  5 <= width (lookup srcCanvas w) -> 5 <= height (lookup srcCanvas w) ->
  exists out w',
    generatePatchBased R rv srcCanvas w = Ok out w' /\
    out = length (canvases w) /\
    keepsStore w w' /\
    randomCalls w' = (150 + randomCalls w)%nat /\
    width (lookup out w') = width (lookup srcCanvas w) /\
    height (lookup out w') = height (lookup srcCanvas w).
Proof.
  destruct w as [cs n]. cbn [canvases randomCalls].
  change (lookup srcCanvas (World cs n))
    with (nth srcCanvas cs (blankCanvas 0 0)).
  intros Hrv Hs Hw Hh.
  destruct (run_patchBased_keeps R rv Hrv
              (fun c => width c = width (nth srcCanvas cs (blankCanvas 0 0)) /\
                        height c = height (nth srcCanvas cs (blankCanvas 0 0)))
              srcCanvas cs n Hs Hw Hh)
    as (cs' & E & W & H).
  { split; reflexivity. }
  { intros c _ D. exact D. }
  { intros k c _ D. exact D. }
  exists (length cs), (World (cs ++ cs') (150 + n)).
  split; [exact E|]. split; [reflexivity|].
  split; [apply keepsStore_app|].
  rewrite lookup_first. cbn [randomCalls]. auto.
Qed.

Lemma patchBased_takes_150_draws_witness :
  (forall i, (0 <= otherDraws i /\ otherDraws i < 1)%Q) /\
  (0 < length (canvases (gridWorld 5 5)))%nat /\
  5 <= width (lookup 0%nat (gridWorld 5 5)) /\
  5 <= height (lookup 0%nat (gridWorld 5 5)) /\
  exists out w',
    generatePatchBased referenceRasteriser otherDraws 0%nat (gridWorld 5 5)
    = Ok out w' /\
    out = 1%nat /\
    keepsStore (gridWorld 5 5) w' /\
    randomCalls w' = 150%nat /\
    width (lookup out w') = 5 /\
    height (lookup out w') = 5.
Proof.
  split; [exact otherDraws_range|].
  split; [cbn; lia|]. split; [cbn; lia|]. split; [cbn; lia|].
  apply (patchBased_takes_150_draws referenceRasteriser otherDraws 0%nat
           (gridWorld 5 5)).
  - exact otherDraws_range.
  - cbn; lia.
  - cbn; lia.
  - cbn; lia.
Defined.

(** ** generateScattered: outside the pasted patch *)

(** X9. On a surface of at least two pixels each way the Scattered output
    is the half-size shift of the source at every pixel that lies outside
    the rectangle of the pasted patch, which starts at 0.15 W, 0.15 H and
    has the integer size of the patch canvas: there the strategy copies
    source pixels without resampling or blending (and leaves the pixel
    transparent where the shift has none). *)
Theorem scattered_outside_patch_is_shift R (srcCanvas : handle) (w : world) :
  (srcCanvas < length (canvases w))%nat ->
  2 <= width (lookup srcCanvas w) -> 2 <= height (lookup srcCanvas w) ->
  exists out w',
    generateScattered R srcCanvas w = Ok out w' /\
    forall x y,
      0 <= x < width (lookup srcCanvas w) ->
      0 <= y < height (lookup srcCanvas w) ->
      (inject_Z x + 1
       <= (inject_Z (width (lookup srcCanvas w))
           - inject_Z (width (lookup srcCanvas w)) * (7 # 10)) / 2 \/
       (inject_Z (width (lookup srcCanvas w))
        - inject_Z (width (lookup srcCanvas w)) * (7 # 10)) / 2
       + inject_Z (JS.trunc (inject_Z (width (lookup srcCanvas w)) * (7 # 10)))
       <= inject_Z x \/
       inject_Z y + 1
       <= (inject_Z (height (lookup srcCanvas w))
           - inject_Z (height (lookup srcCanvas w)) * (7 # 10)) / 2 \/
       (inject_Z (height (lookup srcCanvas w))
        - inject_Z (height (lookup srcCanvas w)) * (7 # 10)) / 2
       + inject_Z (JS.trunc (inject_Z (height (lookup srcCanvas w)) * (7 # 10)))
       <= inject_Z y)%Q ->
      getPixel (lookup out w') x y = halfShift (lookup srcCanvas w) x y.
Proof.
  destruct w as [cs n]. cbn [canvases].
  change (lookup srcCanvas (World cs n))
    with (nth srcCanvas cs (blankCanvas 0 0)).
  set (src := nth srcCanvas cs (blankCanvas 0 0)).
  intros Hs Hw Hh.
  rewrite <- (bind_ret_r (generateScattered R srcCanvas)).
  rewrite run_scattered by assumption. fold src.
  eexists. eexists. split; [reflexivity|].
  rewrite lookup_new. cbn [nth].
  intros x y Hx Hy Hout.
  rewrite getPixel_inside by (cbn; assumption).
  unfold scatteredCanvas.
  rewrite bits_drawWhole_outside.
  - cbn [setState bits]. apply bits_shifted; assumption.
  - reflexivity.
  - cbn. pose proof (patch_dim_pos (width src)). lia.
  - cbn. pose proof (patch_dim_pos (height src)). lia.
  - cbn [scatterPatch width height fillOn paintLayer setState drawPart
         blankCanvas].
    exact Hout.
Qed.

Lemma scattered_outside_patch_is_shift_witness :
  (0 < length (canvases (gridWorld 8 8)))%nat /\
  2 <= width (lookup 0%nat (gridWorld 8 8)) /\
  2 <= height (lookup 0%nat (gridWorld 8 8)) /\
  exists out w',
    generateScattered referenceRasteriser 0%nat (gridWorld 8 8) = Ok out w' /\
    forall x y,
      0 <= x < 8 -> 0 <= y < 8 ->
      (inject_Z x + 1 <= (inject_Z 8 - inject_Z 8 * (7 # 10)) / 2 \/
       (inject_Z 8 - inject_Z 8 * (7 # 10)) / 2 + inject_Z 5 <= inject_Z x \/
       inject_Z y + 1 <= (inject_Z 8 - inject_Z 8 * (7 # 10)) / 2 \/
       (inject_Z 8 - inject_Z 8 * (7 # 10)) / 2 + inject_Z 5 <= inject_Z y)%Q ->
      getPixel (lookup out w') x y = halfShift (gridCanvas 8 8) x y.
Proof.
  split; [cbn; lia|]. split; [cbn; lia|]. split; [cbn; lia|].
  apply (scattered_outside_patch_is_shift referenceRasteriser 0%nat
           (gridWorld 8 8)); cbn; lia.
Defined.

(** ** generateTilePreview: the cells *)

Lemma deviceSpan_before (u0 u1 : Q) (x : Z) :
  (inject_Z x + 1 <= u0)%Q -> (deviceSpan 1 0 u0 u1 x == 0)%Q.
Proof.
  intros H. unfold deviceSpan.
  destruct (Qle_bool u1 u0) eqn:E; [reflexivity|].
  apply Qle_bool_false in E.
  apply span_zero_lo. unfold deviceLo. minmax.
Qed.

Lemma deviceSpan_after (u0 u1 : Q) (x : Z) :
  (u1 <= inject_Z x)%Q -> (deviceSpan 1 0 u0 u1 x == 0)%Q.
Proof.
  intros H. unfold deviceSpan.
  destruct (Qle_bool u1 u0) eqn:E; [reflexivity|].
  apply Qle_bool_false in E.
  apply span_zero_hi. unfold deviceHi. minmax.
Qed.

Lemma deviceSpan_within (u0 u1 : Q) (x : Z) :
  (u0 <= inject_Z x)%Q -> (inject_Z x + 1 <= u1)%Q ->
  (deviceSpan 1 0 u0 u1 x == 1)%Q.
Proof.
  intros H0 H1. unfold deviceSpan.
  destruct (Qle_bool u1 u0) eqn:E.
  - apply Qle_bool_iff in E. lra.
  - apply Qle_bool_false in E.
    apply span_one; [unfold deviceLo | unfold deviceHi]; minmax.
Qed.

(** A stroke of width 1 around a rectangle on the pixel grid colours only
    the pixels next to its outline: none that lies a pixel or more outside
    the rectangle and none that lies a pixel or more inside. *)
Lemma strokeCover_clear (X0 Y0 W H x y : Z) :
  (x + 2 <= X0 \/ X0 + W + 1 <= x \/ y + 2 <= Y0 \/ Y0 + H + 1 <= y) \/
  (X0 + 1 <= x <= X0 + W - 2 /\ Y0 + 1 <= y <= Y0 + H - 2) ->
  (strokeCover identity 1 (inject_Z X0) (inject_Z Y0) (inject_Z W) (inject_Z H)
     x y == 0)%Q.
Proof.
  intros C. unfold strokeCover.
  destruct (_ || _); [reflexivity|].
  unfold rectCover. cbn [identity ma md me mf].
  destruct C as [[C|[C|[C|C]]]|[[Cx1 Cx2] [Cy1 Cy2]]].
  - rewrite !(deviceSpan_before _ _ x); [ring| |];
      inQ C; goalQ; nodiv; lra.
  - rewrite !(deviceSpan_after _ _ x); [ring| |];
      inQ C; goalQ; nodiv; lra.
  - rewrite !(deviceSpan_before _ _ y); [ring| |];
      inQ C; goalQ; nodiv; lra.
  - rewrite !(deviceSpan_after _ _ y); [ring| |];
      inQ C; goalQ; nodiv; lra.
  - rewrite !(deviceSpan_within _ _ x), !(deviceSpan_within _ _ y);
      [ring|..];
      inQ Cx1; inQ Cx2; inQ Cy1; inQ Cy2; goalQ; nodiv; lra.
Qed.

Lemma bits_drawWhole_at R img (dx dy : Z) cv X Y :
  upright cv -> 0 < width img -> 0 < height img ->
  bits (drawWhole R img (inject_Z dx) (inject_Z dy) cv) X Y
  = if inside (width cv) (height cv) X Y
       && ((dx <=? X) && (X <? dx + width img))
       && ((dy <=? Y) && (Y <? dy + height img))
    then over (bits img (X - dx) (Y - dy)) (bits cv X Y)
    else bits cv X Y.
Proof.
  intros [Hc Hp] Hw Hh. unfold drawWhole, drawPart.
  rewrite bits_paintLayer_plain by exact Hp.
  rewrite Hc.
  change 0%Q with (inject_Z 0).
  rewrite layerOfImage_copy by assumption.
  unfold copied. rewrite !Z.add_0_r.
  destruct (inside (width cv) (height cv) X Y); [|reflexivity].
  cbn [andb].
  destruct (Z.leb_spec dx X); destruct (Z.ltb_spec X (dx + width img));
    destruct (Z.leb_spec dy Y); destruct (Z.ltb_spec Y (dy + height img));
    destruct (Z.leb_spec (Z.max 0 0) (X - dx));
    destruct (Z.ltb_spec (X - dx) (Z.min (0 + width img) (width img)));
    destruct (Z.leb_spec (Z.max 0 0) (Y - dy));
    destruct (Z.ltb_spec (Y - dy) (Z.min (0 + height img) (height img)));
    cbn [andb]; rewrite ?over_transparent_l; try reflexivity; lia.
Qed.

Section Cells.
Variable R : Rasteriser.
Variable texture : canvas.
Variable markSeams : bool.
Hypothesis Hw : 1 <= width texture.
Hypothesis Hh : 1 <= height texture.

(** The pixels next to the outline of a cell are left to the marker. *)
Local Abbreviation margin := (if markSeams then 1 else 0).

Lemma upright_blit (r c : Z) cv :
  upright cv ->
  upright (drawWhole R texture (inject_Z (c * width texture))
             (inject_Z (r * height texture)) cv).
Proof. intros H. exact H. Qed.

Lemma upright_markOn (r c : Z) cv :
  upright cv -> upright (markOn R texture r c cv).
Proof.
  intros [Hc [Ha [Ho Hf]]]. unfold upright, plain, markOn, strokeOn.
  cbn [paintLayer setState state withLineWidth withStroke ctm globalAlpha
       globalCompositeOperation filter].
  auto.
Qed.

Lemma upright_tileOn cell cv :
  upright cv -> upright (tileOn R texture markSeams cell cv).
Proof.
  intros H. destruct cell as [r c]. unfold tileOn.
  destruct markSeams; [apply upright_markOn|]; apply upright_blit; exact H.
Qed.

Lemma width_tileOn cell cv :
  width (tileOn R texture markSeams cell cv) = width cv.
Proof. destruct cell as [r c]. unfold tileOn. destruct markSeams; reflexivity. Qed.

Lemma height_tileOn cell cv :
  height (tileOn R texture markSeams cell cv) = height cv.
Proof. destruct cell as [r c]. unfold tileOn. destruct markSeams; reflexivity. Qed.

Lemma bits_markOn_clear (r c : Z) cv X Y :
  upright cv ->
  (X + 2 <= c * width texture \/
   c * width texture + width texture + 1 <= X \/
   Y + 2 <= r * height texture \/
   r * height texture + height texture + 1 <= Y) \/
  (c * width texture + 1 <= X <= c * width texture + width texture - 2 /\
   r * height texture + 1 <= Y <= r * height texture + height texture - 2) ->
  bits (markOn R texture r c cv) X Y = bits cv X Y.
Proof.
  intros [Hc [Ha [Ho Hf]]] C. unfold markOn, strokeOn.
  rewrite bits_paintLayer_plain
    by (unfold plain;
        cbn [setState state withLineWidth withStroke globalAlpha
             globalCompositeOperation filter]; auto).
  cbn [setState state withLineWidth withStroke ctm strokeStyle lineWidth
       bits width height].
  rewrite Hc. unfold layerOfStroke.
  rewrite shade_zero by (apply strokeCover_clear; exact C).
  rewrite over_transparent_l. destruct (inside _ _ _ _); reflexivity.
Qed.

(** A cell writes the pixels of the texture on its own pixels... *)
Lemma bits_tileOn_own (r c : Z) cv X Y :
  upright cv -> inside (width cv) (height cv) X Y = true ->
  c * width texture + margin <= X
  <= c * width texture + width texture - 1 - margin ->
  r * height texture + margin <= Y
  <= r * height texture + height texture - 1 - margin ->
  bits (tileOn R texture markSeams (r, c) cv) X Y
  = over (bits texture (X - c * width texture) (Y - r * height texture))
         (bits cv X Y).
Proof.
  intros Hu Hin Hx Hy. unfold tileOn.
  assert (E : bits (drawWhole R texture (inject_Z (c * width texture))
                      (inject_Z (r * height texture)) cv) X Y
              = over (bits texture (X - c * width texture)
                        (Y - r * height texture)) (bits cv X Y)).
  { rewrite bits_drawWhole_at by (assumption || lia).
    rewrite Hin. cbn [andb].
    destruct markSeams;
      destruct (Z.leb_spec (c * width texture) X);
      destruct (Z.ltb_spec X (c * width texture + width texture));
      destruct (Z.leb_spec (r * height texture) Y);
      destruct (Z.ltb_spec Y (r * height texture + height texture));
      cbn [andb]; try reflexivity; lia. }
  destruct markSeams; [|exact E].
  rewrite bits_markOn_clear; [exact E|apply upright_blit; exact Hu|].
  right. lia.
Qed.

(** ... and leaves the pixels of the other cells alone. *)
Lemma bits_tileOn_other (r c : Z) cv X Y :
  upright cv ->
  X + 1 + margin <= c * width texture \/
  c * width texture + width texture + margin <= X \/
  Y + 1 + margin <= r * height texture \/
  r * height texture + height texture + margin <= Y ->
  bits (tileOn R texture markSeams (r, c) cv) X Y = bits cv X Y.
Proof.
  intros Hu C. unfold tileOn.
  assert (E : bits (drawWhole R texture (inject_Z (c * width texture))
                      (inject_Z (r * height texture)) cv) X Y
              = bits cv X Y).
  { rewrite bits_drawWhole_at by (assumption || lia).
    destruct (inside (width cv) (height cv) X Y); [|reflexivity].
    cbn [andb].
    destruct markSeams;
      destruct (Z.leb_spec (c * width texture) X);
      destruct (Z.ltb_spec X (c * width texture + width texture));
      destruct (Z.leb_spec (r * height texture) Y);
      destruct (Z.ltb_spec Y (r * height texture + height texture));
      cbn [andb]; try reflexivity; lia. }
  destruct markSeams; [|exact E].
  rewrite bits_markOn_clear; [exact E|apply upright_blit; exact Hu|].
  left. lia.
Qed.

Variables r0 c0 x y : Z.
Hypothesis Hx : margin <= x <= width texture - 1 - margin.
Hypothesis Hy : margin <= y <= height texture - 1 - margin.

Lemma margin_range : 0 <= margin <= 1.
Proof. destruct markSeams; lia. Qed.

Lemma other_cell_is_clear (r c : Z) :
  (r, c) <> (r0, c0) ->
  c0 * width texture + x + 1 + margin <= c * width texture \/
  c * width texture + width texture + margin <= c0 * width texture + x \/
  r0 * height texture + y + 1 + margin <= r * height texture \/
  r * height texture + height texture + margin <= r0 * height texture + y.
Proof.
  intros Hne. pose proof margin_range.
  destruct (Z.eq_dec c c0) as [Ec|Ec].
  - destruct (Z.eq_dec r r0) as [Er|Er]; [congruence|].
    destruct (Z_lt_le_dec r r0); [right; right; right | right; right; left];
      nia.
  - destruct (Z_lt_le_dec c c0); [right; left | left]; nia.
Qed.

Lemma bits_tiles_without (l : list (Z * Z)) :
  forall cv,
    upright cv -> ~ In (r0, c0) l ->
    bits (fold_left (fun cv cell => tileOn R texture markSeams cell cv) l cv)
      (c0 * width texture + x) (r0 * height texture + y)
    = bits cv (c0 * width texture + x) (r0 * height texture + y).
Proof.
  induction l as [|[r c] l IH]; intros cv Hu Hn; [reflexivity|].
  cbn [fold_left]. rewrite IH.
  - apply bits_tileOn_other; [exact Hu|].
    apply other_cell_is_clear. intros E. apply Hn. left. exact E.
  - apply upright_tileOn. exact Hu.
  - intros Hin. apply Hn. right. exact Hin.
Qed.

Lemma bits_tiles_with (l : list (Z * Z)) :
  forall cv,
    upright cv ->
    inside (width cv) (height cv)
      (c0 * width texture + x) (r0 * height texture + y) = true ->
    NoDup l -> In (r0, c0) l ->
    bits (fold_left (fun cv cell => tileOn R texture markSeams cell cv) l cv)
      (c0 * width texture + x) (r0 * height texture + y)
    = over (bits texture x y)
           (bits cv (c0 * width texture + x) (r0 * height texture + y)).
Proof.
  induction l as [|[r c] l IH]; intros cv Hu Hin Hnd Hl; [destruct Hl|].
  cbn [fold_left]. inversion Hnd as [|a l' Hnot Hnd']; subst.
  destruct Hl as [E|Hl].
  - injection E as -> ->.
    rewrite bits_tiles_without by (try apply upright_tileOn; assumption).
    rewrite bits_tileOn_own by (assumption || lia).
    do 2 f_equal; lia.
  - rewrite IH;
      [|apply upright_tileOn; exact Hu
       |rewrite width_tileOn, height_tileOn; exact Hin
       |exact Hnd'|exact Hl].
    f_equal. apply bits_tileOn_other; [exact Hu|].
    apply other_cell_is_clear. intros E. apply Hnot. rewrite E. exact Hl.
Qed.

End Cells.

Lemma cells_complete (tileFormat : TileFormat) (r c : Z) :
  0 <= r < tileNumber tileFormat -> 0 <= c < tileNumber tileFormat ->
  In (r, c) (cells (tileNumber tileFormat)).
Proof.
  intros Hr Hc. destruct tileFormat; cbn in Hr, Hc.
  - assert (r = 0) as -> by lia. assert (c = 0) as -> by lia.
    vm_compute. auto.
  - assert (r = 0 \/ r = 1) as [-> | ->] by lia;
      (assert (c = 0 \/ c = 1) as [-> | ->] by lia); vm_compute; tauto.
  - assert (r = 0 \/ r = 1 \/ r = 2) as [-> | [-> | ->]] by lia;
      (assert (c = 0 \/ c = 1 \/ c = 2) as [-> | [-> | ->]] by lia);
      vm_compute; tauto.
Qed.

Lemma cells_NoDup (tileFormat : TileFormat) :
  NoDup (cells (tileNumber tileFormat)).
Proof.
  destruct tileFormat;
    match goal with
    | |- NoDup ?l => let v := eval vm_compute in l in change (NoDup v)
    end;
    repeat (constructor; [cbn; intuition discriminate|]); constructor.
Qed.

(** The pixel (x,y) of cell (r,c) of the preview, for the pixels a marker
    cannot reach. *)
Lemma bits_preview R texture (markSeams : bool) tileFormat (r c x y : Z) :
  1 <= width texture -> 1 <= height texture ->
  0 <= r < tileNumber tileFormat -> 0 <= c < tileNumber tileFormat ->
  (if markSeams then 1 else 0) <= x
  <= width texture - 1 - (if markSeams then 1 else 0) ->
  (if markSeams then 1 else 0) <= y
  <= height texture - 1 - (if markSeams then 1 else 0) ->
  getPixel (previewCanvas R texture markSeams tileFormat)
    (c * width texture + x) (r * height texture + y)
  = bits texture x y.
Proof.
  intros Hw Hh Hr Hc Hx Hy.
  assert (M : 0 <= (if markSeams then 1 else 0) <= 1)
    by (destruct markSeams; lia).
  assert (Hin : inside (width texture * tileNumber tileFormat)
                  (height texture * tileNumber tileFormat)
                  (c * width texture + x) (r * height texture + y) = true)
    by (apply inside_true; nia).
  unfold getPixel. rewrite width_preview, height_preview, Hin.
  unfold previewCanvas.
  rewrite (bits_tiles_with R texture markSeams Hw Hh r c x y Hx Hy).
  - apply over_transparent_r.
  - split; [reflexivity|exact plain_default].
  - exact Hin.
  - apply cells_NoDup.
  - apply cells_complete; assumption.
Qed.

(** X10. Without seam markers the preview is the texture repeated N x N
    times: the pixel (x,y) of the cell in row r and column c, that is the
    pixel (c*W + x, r*H + y) of the preview, is the pixel (x,y) of the
    texture, transparency included; for N = 1 the preview is a copy of the
    texture. *)
Theorem preview_repeats_texture R (textureCanvas : handle)
    (tileFormat : TileFormat) (w : world) :
  (textureCanvas < length (canvases w))%nat ->
  1 <= width (lookup textureCanvas w) -> 1 <= height (lookup textureCanvas w) ->
  exists out w',
    generateTilePreview R textureCanvas tileFormat false w = Ok out w' /\
    keepsStore w w' /\
    width (lookup out w')
    = width (lookup textureCanvas w) * tileNumber tileFormat /\
    height (lookup out w')
    = height (lookup textureCanvas w) * tileNumber tileFormat /\
    forall r c x y,
      0 <= r < tileNumber tileFormat -> 0 <= c < tileNumber tileFormat ->
      0 <= x < width (lookup textureCanvas w) ->
      0 <= y < height (lookup textureCanvas w) ->
      getPixel (lookup out w')
        (c * width (lookup textureCanvas w) + x)
        (r * height (lookup textureCanvas w) + y)
      = getPixel (lookup textureCanvas w) x y.
Proof.
  destruct w as [cs n]. cbn [canvases].
  change (lookup textureCanvas (World cs n))
    with (nth textureCanvas cs (blankCanvas 0 0)).
  set (texture := nth textureCanvas cs (blankCanvas 0 0)).
  intros Hs Hw Hh.
  rewrite <- (bind_ret_r (generateTilePreview R textureCanvas tileFormat false)).
  rewrite run_tilePreview by assumption. fold texture.
  eexists. eexists. split; [reflexivity|].
  split; [apply keepsStore_app|].
  rewrite lookup_new. cbn [nth].
  split; [apply width_preview|]. split; [apply height_preview|].
  intros r c x y Hr Hc Hx Hy.
  rewrite (getPixel_inside texture) by assumption.
  apply bits_preview; first [assumption | lia].
Qed.

Lemma preview_repeats_texture_witness :
  (0 < length (canvases (gridWorld 3 2)))%nat /\
  1 <= width (lookup 0%nat (gridWorld 3 2)) /\
  1 <= height (lookup 0%nat (gridWorld 3 2)) /\
  exists out w',
    generateTilePreview referenceRasteriser 0%nat THREE false (gridWorld 3 2)
    = Ok out w' /\
    keepsStore (gridWorld 3 2) w' /\
    width (lookup out w') = 3 * 3 /\
    height (lookup out w') = 2 * 3 /\
    forall r c x y,
      0 <= r < 3 -> 0 <= c < 3 -> 0 <= x < 3 -> 0 <= y < 2 ->
      getPixel (lookup out w') (c * 3 + x) (r * 2 + y)
      = getPixel (gridCanvas 3 2) x y.
Proof.
  split; [cbn; lia|]. split; [cbn; lia|]. split; [cbn; lia|].
  apply (preview_repeats_texture referenceRasteriser 0%nat THREE
           (gridWorld 3 2)); cbn; lia.
Defined.

(** X11. With seam markers the boundary rectangles colour only the
    outermost ring of pixels of each cell: every pixel of a cell that is at
    least one pixel away from the four edges of the cell is the pixel of
    the texture, as without markers. *)
Theorem markers_stay_on_cell_edges R (textureCanvas : handle)
    (tileFormat : TileFormat) (w : world) :
  (textureCanvas < length (canvases w))%nat ->
  1 <= width (lookup textureCanvas w) -> 1 <= height (lookup textureCanvas w) ->
  exists out w',
    generateTilePreview R textureCanvas tileFormat true w = Ok out w' /\
    forall r c x y,
      0 <= r < tileNumber tileFormat -> 0 <= c < tileNumber tileFormat ->
      1 <= x <= width (lookup textureCanvas w) - 2 ->
      1 <= y <= height (lookup textureCanvas w) - 2 ->
      getPixel (lookup out w')
        (c * width (lookup textureCanvas w) + x)
        (r * height (lookup textureCanvas w) + y)
      = getPixel (lookup textureCanvas w) x y.
Proof.
  destruct w as [cs n]. cbn [canvases].
  change (lookup textureCanvas (World cs n))
    with (nth textureCanvas cs (blankCanvas 0 0)).
  set (texture := nth textureCanvas cs (blankCanvas 0 0)).
  intros Hs Hw Hh.
  rewrite <- (bind_ret_r (generateTilePreview R textureCanvas tileFormat true)).
  rewrite run_tilePreview by assumption. fold texture.
  eexists. eexists. split; [reflexivity|].
  rewrite lookup_new. cbn [nth].
  intros r c x y Hr Hc Hx Hy.
  rewrite (getPixel_inside texture) by lia.
  apply bits_preview; first [assumption | lia].
Qed.

Lemma markers_stay_on_cell_edges_witness :
  (0 < length (canvases (gridWorld 4 4)))%nat /\
  1 <= width (lookup 0%nat (gridWorld 4 4)) /\
  1 <= height (lookup 0%nat (gridWorld 4 4)) /\
  exists out w',
    generateTilePreview referenceRasteriser 0%nat TWO true (gridWorld 4 4)
    = Ok out w' /\
    forall r c x y,
      0 <= r < 2 -> 0 <= c < 2 -> 1 <= x <= 4 - 2 -> 1 <= y <= 4 - 2 ->
      getPixel (lookup out w') (c * 4 + x) (r * 4 + y)
      = getPixel (gridCanvas 4 4) x y.
Proof.
  split; [cbn; lia|]. split; [cbn; lia|]. split; [cbn; lia|].
  apply (markers_stay_on_cell_edges referenceRasteriser 0%nat TWO
           (gridWorld 4 4)); cbn; lia.
Defined.

(** ** processTexture: the stages in sequence *)

Lemma yields_app (m : M handle) cs n (h : handle) cs' n' W H :
  m (World cs n) = Ok h (World (cs ++ cs') n') ->
  (h < length (cs ++ cs'))%nat ->
  width (nth h (cs ++ cs') (blankCanvas 0 0)) = W ->
  height (nth h (cs ++ cs') (blankCanvas 0 0)) = H ->
  yields m (World cs n) W H.
Proof.
  intros E Hh HW HH. exists h, (World (cs ++ cs') n').
  split; [exact E|]. split; [apply keepsStore_app|].
  cbn [canvases]. split; [rewrite length_app; lia|].
  split; [exact Hh|]. split; assumption.
Qed.

Lemma cropStage_yields R (h : handle) (crop : CropSettings) (w : world) :
  (h < length (canvases w))%nat ->
  0 <= top crop -> 0 <= bottom crop -> 0 <= left crop -> 0 <= right crop ->
  1 <= width (lookup h w) - left crop - right crop ->
  1 <= height (lookup h w) - top crop - bottom crop ->
  yields (cropStage R h crop) w
    (width (lookup h w) - left crop - right crop)
    (height (lookup h w) - top crop - bottom crop).
Proof.
  intros Hs Ht Hb Hl Hr Hw Hh.
  destruct ((0 <? top crop) || (0 <? bottom crop) || (0 <? left crop)
            || (0 <? right crop)) eqn:G.
  - rewrite !orb_true_iff, !Z.ltb_lt in G.
    destruct w as [cs n]. cbn [canvases] in *.
    change (lookup h (World cs n)) with (nth h cs (blankCanvas 0 0)) in *.
    apply (yields_app _ cs n (length cs)
             [croppedCanvas R (nth h cs (blankCanvas 0 0)) crop] n).
    + apply cropStage_run; first [assumption | tauto | lia].
    + rewrite length_app. cbn. lia.
    + rewrite app_nth2, Nat.sub_diag by lia. reflexivity.
    + rewrite app_nth2, Nat.sub_diag by lia. reflexivity.
  - rewrite !orb_false_iff, !Z.ltb_ge in G.
    assert (top crop = 0 /\ bottom crop = 0 /\ left crop = 0 /\ right crop = 0)
      as (E1 & E2 & E3 & E4) by lia.
    exists h, w. unfold cropStage.
    rewrite E1, E2, E3, E4. cbn [Z.ltb Z.compare orb].
    split; [reflexivity|]. split; [apply keepsStore_refl|].
    split; [lia|]. split; [exact Hs|]. split; lia.
Qed.

Lemma averagingStage_yields R (h : handle) (averaging : AveragingSettings)
    (w : world) :
  (h < length (canvases w))%nat ->
  1 <= width (lookup h w) -> 1 <= height (lookup h w) ->
  yields (averagingStage R h averaging) w
    (width (lookup h w)) (height (lookup h w)).
Proof.
  intros Hs Hw Hh. unfold averagingStage.
  destruct (Z.ltb_spec 0 (intensity averaging)) as [Hi|Hi].
  - destruct w as [cs n]. cbn [canvases] in *.
    change (lookup h (World cs n)) with (nth h cs (blankCanvas 0 0)) in *.
    apply (yields_app _ cs n (length cs)
             [averagedCanvas R (nth h cs (blankCanvas 0 0)) averaging;
              blurredCanvas R (nth h cs (blankCanvas 0 0)) averaging] n).
    + rewrite <- (bind_ret_r (applyAveraging R h averaging)).
      rewrite run_averaging by assumption.
      rewrite Nat.add_0_r. reflexivity.
    + rewrite length_app. cbn. lia.
    + rewrite app_nth2, Nat.sub_diag by lia. reflexivity.
    + rewrite app_nth2, Nat.sub_diag by lia. reflexivity.
  - exists h, w. split; [reflexivity|].
    split; [apply keepsStore_refl|]. split; [lia|]. split; [exact Hs|].
    split; reflexivity.
Qed.

Lemma generateSeamless_yields R (rv : nat -> Q) (method : SeamlessMethod)
    (h : handle) (w : world) :
  (forall i, (0 <= rv i /\ rv i < 1)%Q) ->
  (h < length (canvases w))%nat ->
  minSide method <= width (lookup h w) ->
  minSide method <= height (lookup h w) ->
  yields (generateSeamless R rv method h) w
    (width (lookup h w)) (height (lookup h w)).
Proof.
  intros Hrv Hs Hw Hh. unfold generateSeamless. unfold minSide in Hw, Hh.
  destruct w as [cs n]. cbn [canvases] in *.
  change (lookup h (World cs n)) with (nth h cs (blankCanvas 0 0)) in *.
  destruct (String.eqb method MIRRORED);
    [|destruct (String.eqb method PATCH_BASED)].
  - destruct (mirrored_keeps_size R h cs n Hs Hw Hh) as (cs' & E & W & H).
    apply (yields_app _ cs n (length cs) cs' n _ _ E).
    + rewrite length_app. destruct cs'; [cbn in W; lia|cbn; lia].
    + rewrite app_nth2, Nat.sub_diag by lia. exact W.
    + rewrite app_nth2, Nat.sub_diag by lia. exact H.
  - destruct (patchBased_keeps_size R rv h cs n Hrv Hs Hw Hh)
      as (cs' & n' & E & W & H).
    apply (yields_app _ cs n (length cs) cs' n' _ _ E).
    + rewrite length_app. destruct cs'; [cbn in W; lia|cbn; lia].
    + rewrite app_nth2, Nat.sub_diag by lia. exact W.
    + rewrite app_nth2, Nat.sub_diag by lia. exact H.
  - destruct (scattered_keeps_size R h cs n Hs Hw Hh) as (cs' & E & W & H).
    apply (yields_app _ cs n (length cs) cs' n _ _ E).
    + rewrite length_app. destruct cs'; [cbn in W; lia|cbn; lia].
    + rewrite app_nth2, Nat.sub_diag by lia. exact W.
    + rewrite app_nth2, Nat.sub_diag by lia. exact H.
Qed.

Lemma tilePreview_yields R (h : handle) (tileFormat : TileFormat)
    (markSeams : bool) (w : world) :
  (h < length (canvases w))%nat ->
  1 <= width (lookup h w) -> 1 <= height (lookup h w) ->
  yields (generateTilePreview R h tileFormat markSeams) w
    (width (lookup h w) * tileNumber tileFormat)
    (height (lookup h w) * tileNumber tileFormat).
Proof.
  intros Hs Hw Hh.
  destruct w as [cs n]. cbn [canvases] in *.
  change (lookup h (World cs n)) with (nth h cs (blankCanvas 0 0)) in *.
  destruct (preview_size R h tileFormat markSeams cs n Hs Hw Hh)
    as (cs' & E & W & H).
  assert (0 < tileNumber tileFormat) by (destruct tileFormat; cbn; lia).
  apply (yields_app _ cs n (length cs) cs' n _ _ E).
  - rewrite length_app. destruct cs'; [cbn in W; nia|cbn; lia].
  - rewrite app_nth2, Nat.sub_diag by lia. exact W.
  - rewrite app_nth2, Nat.sub_diag by lia. exact H.
Qed.

Lemma updateAt_last {A} (f : A -> A) (l : list A) (a : A) :
  updateAt (length l) f (l ++ [a]) = l ++ [f a].
Proof.
  rewrite <- (Nat.add_0_r (length l)). rewrite updateAt_app_new. reflexivity.
Qed.

(** Step 1: the base canvas has the size of the decoded image. *)
Lemma baseCanvas_run {B} R (img : image) (k : handle -> M B) (w : world) :
  exists out w',
    bind (createCanvas (inject_Z (naturalWidth img))
            (inject_Z (naturalHeight img)))
      (fun currentCanvas =>
         bind (drawImageElement R currentCanvas img 0 0)
           (fun _ => k currentCanvas)) w
    = k out w' /\
    keepsStore w w' /\
    (length (canvases w) <= length (canvases w'))%nat /\
    (out < length (canvases w'))%nat /\
    width (lookup out w') = naturalWidth img /\
    height (lookup out w') = naturalHeight img.
Proof.
  destruct w as [cs n].
  unfold bind at 1 2. unfold createCanvas, drawImageElement, modify, ret.
  cbn [canvases randomCalls]. rewrite !trunc_inject.
  destruct ((naturalWidth img =? 0) || (naturalHeight img =? 0));
    cbn [canvases randomCalls]; rewrite ?updateAt_last;
    eexists; eexists; (split; [reflexivity|]);
    (split; [apply keepsStore_app|]);
    cbn [canvases]; rewrite length_app; cbn [length];
    (split; [lia|]); (split; [lia|]);
    rewrite lookup_first; split; reflexivity.
Qed.

(** Steps 1 to 5 return the seamless canvas and the preview canvas. *)
Lemma renderTexture_sizes R (rv : nat -> Q) (img : image)
    (method : SeamlessMethod) (tileFormat : TileFormat) (markSeams : bool)
    (crop : CropSettings) (averaging : AveragingSettings) (w : world) :
  (forall i, (0 <= rv i /\ rv i < 1)%Q) ->
  0 <= top crop -> 0 <= bottom crop -> 0 <= left crop -> 0 <= right crop ->
  minSide method <= naturalWidth img - left crop - right crop ->
  minSide method <= naturalHeight img - top crop - bottom crop ->
  exists seamless preview w',
    renderTexture R rv img method tileFormat markSeams crop averaging w
    = Ok (seamless, preview) w' /\
    keepsStore w w' /\
    width (lookup seamless w') = naturalWidth img - left crop - right crop /\
    height (lookup seamless w') = naturalHeight img - top crop - bottom crop /\
    width (lookup preview w')
    = (naturalWidth img - left crop - right crop) * tileNumber tileFormat /\
    height (lookup preview w')
    = (naturalHeight img - top crop - bottom crop) * tileNumber tileFormat.
Proof.
  intros Hrv Ht Hb Hl Hr Hw Hh.
  assert (M : 1 <= minSide method)
    by (unfold minSide; destruct (String.eqb method MIRRORED);
        [|destruct (String.eqb method PATCH_BASED)]; lia).
  unfold renderTexture.
  destruct (baseCanvas_run R img
              (fun currentCanvas =>
                 bind (cropStage R currentCanvas crop)
                   (fun currentCanvas0 =>
                      bind (averagingStage R currentCanvas0 averaging)
                        (fun currentCanvas1 =>
                           bind (generateSeamless R rv method currentCanvas1)
                             (fun seamlessCanvas =>
                                bind (generateTilePreview R seamlessCanvas
                                        tileFormat markSeams)
                                  (fun previewCanvas =>
                                     ret (seamlessCanvas, previewCanvas))))))
              w)
    as (h1 & w1 & E1 & K1 & L1 & V1 & W1 & H1).
  rewrite E1. clear E1.
  destruct (cropStage_yields R h1 crop w1 V1 Ht Hb Hl Hr)
    as (h2 & w2 & E2 & K2 & L2 & V2 & W2 & H2); [lia..|].
  unfold bind at 1. rewrite E2. clear E2.
  rewrite W1 in W2. rewrite H1 in H2.
  destruct (averagingStage_yields R h2 averaging w2 V2)
    as (h3 & w3 & E3 & K3 & L3 & V3 & W3 & H3); [lia..|].
  unfold bind at 1. rewrite E3. clear E3.
  rewrite W2 in W3. rewrite H2 in H3.
  destruct (generateSeamless_yields R rv method h3 w3 Hrv V3)
    as (h4 & w4 & E4 & K4 & L4 & V4 & W4 & H4); [lia..|].
  unfold bind at 1. rewrite E4. clear E4.
  rewrite W3 in W4. rewrite H3 in H4.
  destruct (tilePreview_yields R h4 tileFormat markSeams w4 V4)
    as (h5 & w5 & E5 & K5 & L5 & V5 & W5 & H5); [lia..|].
  unfold bind at 1. rewrite E5. clear E5.
  rewrite W4 in W5. rewrite H4 in H5.
  exists h4, h5, w5. split; [reflexivity|].
  split.
  { apply (keepsStore_trans w w4 w5); [lia| |exact K5].
    apply (keepsStore_trans w w3 w4); [lia| |exact K4].
    apply (keepsStore_trans w w2 w3); [lia| |exact K3].
    apply (keepsStore_trans w w1 w2); [lia|exact K1|exact K2]. }
  rewrite (K5 h4 V4). auto.
Qed.

(** X12. [processTexture] returns a result whenever the image that the
    crop leaves is large enough for the method: 1 pixel each way for
    MIRRORED, 5 for PATCH_BASED, 2 for SCATTERED and every other method.
    For crop values that are not negative (the crop inputs of the form
    allow no others), every averaging setting, tile format, marker setting
    and output format, the width and height of the result are the cropped
    width and height, the preview canvas measures N times that, the two
    URLs are the encodings of the seamless canvas and of the preview
    canvas, and no canvas that existed before is changed. *)
Theorem processTexture_reports_cropped_size R (rv : nat -> Q)
    (encode : canvas -> OutputFormat -> option Q -> string) (img : image)
    (method : SeamlessMethod) (tileFormat : TileFormat) (markSeams : bool)
    (crop : CropSettings) (averaging : AveragingSettings)
    (outputFormat : OutputFormat) (outputQuality : Q) (w : world) :
  (forall i, (0 <= rv i /\ rv i < 1)%Q) ->
  0 <= top crop -> 0 <= bottom crop -> 0 <= left crop -> 0 <= right crop ->
  minSide method <= naturalWidth img - left crop - right crop ->
  minSide method <= naturalHeight img - top crop - bottom crop ->
  exists res seamless preview w',
    processTexture R rv encode img method tileFormat markSeams crop averaging
      outputFormat outputQuality w = Ok res w' /\
    keepsStore w w' /\
    resultWidth res = naturalWidth img - left crop - right crop /\
    resultHeight res = naturalHeight img - top crop - bottom crop /\
    width (lookup seamless w') = resultWidth res /\
    height (lookup seamless w') = resultHeight res /\
    width (lookup preview w') = resultWidth res * tileNumber tileFormat /\
    height (lookup preview w') = resultHeight res * tileNumber tileFormat /\
    seamlessUrl res
    = encode (lookup seamless w') outputFormat
        match outputFormat with
        | JPEG => Some (outputQuality / 100)%Q
        | PNG => None
        end /\
    previewUrl res
    = encode (lookup preview w') outputFormat
        match outputFormat with
        | JPEG => Some (outputQuality / 100)%Q
        | PNG => None
        end.
Proof.
  intros Hrv Ht Hb Hl Hr Hw Hh.
  destruct (renderTexture_sizes R rv img method tileFormat markSeams crop
              averaging w Hrv Ht Hb Hl Hr Hw Hh)
    as (s & p & w' & E & K & Ws & Hs & Wp & Hp).
  unfold processTexture. unfold bind at 1. rewrite E.
  unfold bind, getCanvas, ret. cbn [fst snd].
  eexists. exists s, p, w'.
  split; [reflexivity|]. cbn [resultWidth resultHeight seamlessUrl previewUrl].
  rewrite Ws, Hs, Wp, Hp. repeat split; auto.
Qed.

Lemma processTexture_reports_cropped_size_witness :
  (forall i, (0 <= someDraws i /\ someDraws i < 1)%Q) /\
  0 <= top (MkCrop 1 0 2 1) /\ 0 <= bottom (MkCrop 1 0 2 1) /\
  0 <= left (MkCrop 1 0 2 1) /\ 0 <= right (MkCrop 1 0 2 1) /\
  minSide PATCH_BASED <= naturalWidth (Image 9 7 gridPixel) - 2 - 1 /\
  minSide PATCH_BASED <= naturalHeight (Image 9 7 gridPixel) - 1 - 0 /\
  exists res seamless preview w',
    processTexture referenceRasteriser someDraws emptyEncoder
      (Image 9 7 gridPixel) PATCH_BASED THREE true (MkCrop 1 0 2 1)
      (MkAveraging 30 2) JPEG 92 (World [] 0) = Ok res w' /\
    keepsStore (World [] 0) w' /\
    resultWidth res = 9 - 2 - 1 /\
    resultHeight res = 7 - 1 - 0 /\
    width (lookup seamless w') = resultWidth res /\
    height (lookup seamless w') = resultHeight res /\
    width (lookup preview w') = resultWidth res * 3 /\
    height (lookup preview w') = resultHeight res * 3 /\
    seamlessUrl res
    = emptyEncoder (lookup seamless w') JPEG (Some (92 / 100)%Q) /\
    previewUrl res
    = emptyEncoder (lookup preview w') JPEG (Some (92 / 100)%Q).
Proof.
  split; [exact someDraws_range|].
  split; [cbn; lia|]. split; [cbn; lia|]. split; [cbn; lia|].
  split; [cbn; lia|]. split; [cbn; lia|]. split; [cbn; lia|].
  apply (processTexture_reports_cropped_size referenceRasteriser someDraws
           emptyEncoder (Image 9 7 gridPixel) PATCH_BASED THREE true
           (MkCrop 1 0 2 1) (MkAveraging 30 2) JPEG 92 (World [] 0)).
  - exact someDraws_range.
  - cbn; lia.
  - cbn; lia.
  - cbn; lia.
  - cbn; lia.
  - cbn; lia.
  - cbn; lia.
Defined.

(** ** processTexture on an image that the crop leaves one pixel thin *)

Lemma patchBased_throws R (rv : nat -> Q) (srcCanvas : handle) cs n :
  (srcCanvas < length cs)%nat ->
  1 <= width (nth srcCanvas cs (blankCanvas 0 0)) ->
  1 <= height (nth srcCanvas cs (blankCanvas 0 0)) ->
  width (nth srcCanvas cs (blankCanvas 0 0)) = 1 \/
  height (nth srcCanvas cs (blankCanvas 0 0)) = 1 ->
  generatePatchBased R rv srcCanvas (World cs n) = Throw InvalidStateError.
Proof.
  intros Hs Hw Hh H1.
  set (src := nth srcCanvas cs (blankCanvas 0 0)) in *.
  assert (Hw0 : (width src =? 0) = false) by lia.
  assert (Hh0 : (height src =? 0) = false) by lia.
  unfold generatePatchBased.
  replace (World cs n) with (World (cs ++ []) n)
    by (rewrite app_nil_r; reflexivity).
  unfold drawImage3, drawImage9.
  repeat (repeat mstep (length cs); fold src; rewrite ?Hw0, ?Hh0;
          cbn [orb]; msimpl).
  rewrite forLoop_S. unfold throwPatch.
  repeat mstep (length cs). cbn [Z.eqb].
  repeat mstep (length cs).
  unfold bind at 1.
  rewrite scattered_throws; [reflexivity|..];
    rewrite ?length_app, ?app_nth1 by exact Hs; fold src;
    first [assumption | lia].
Qed.

Lemma generateSeamless_throws R (rv : nat -> Q) (method : SeamlessMethod)
    (h : handle) (w : world) :
  method <> MIRRORED ->
  (h < length (canvases w))%nat ->
  1 <= width (lookup h w) -> 1 <= height (lookup h w) ->
  width (lookup h w) = 1 \/ height (lookup h w) = 1 ->
  generateSeamless R rv method h w = Throw InvalidStateError.
Proof.
  intros Hm Hs Hw Hh H1. destruct w as [cs n]. cbn [canvases] in Hs.
  change (lookup h (World cs n)) with (nth h cs (blankCanvas 0 0)) in *.
  unfold generateSeamless.
  apply String.eqb_neq in Hm. rewrite Hm.
  destruct (String.eqb method PATCH_BASED).
  - apply patchBased_throws; assumption.
  - apply scattered_throws; assumption.
Qed.

Lemma processTexture_throws_thin R (rv : nat -> Q)
    (encode : canvas -> OutputFormat -> option Q -> string) (img : image)
    (method : SeamlessMethod) (tileFormat : TileFormat) (markSeams : bool)
    (crop : CropSettings) (averaging : AveragingSettings)
    (outputFormat : OutputFormat) (outputQuality : Q) (w : world) :
  method <> MIRRORED ->
  0 <= top crop -> 0 <= bottom crop -> 0 <= left crop -> 0 <= right crop ->
  1 <= naturalWidth img - left crop - right crop ->
  1 <= naturalHeight img - top crop - bottom crop ->
  naturalWidth img - left crop - right crop = 1 \/
  naturalHeight img - top crop - bottom crop = 1 ->
  processTexture R rv encode img method tileFormat markSeams crop averaging
    outputFormat outputQuality w = Throw InvalidStateError.
Proof.
  intros Hm Ht Hb Hl Hr Hw Hh H1.
  unfold processTexture, renderTexture. unfold bind at 1.
  destruct (baseCanvas_run R img
              (fun currentCanvas =>
                 bind (cropStage R currentCanvas crop)
                   (fun currentCanvas0 =>
                      bind (averagingStage R currentCanvas0 averaging)
                        (fun currentCanvas1 =>
                           bind (generateSeamless R rv method currentCanvas1)
                             (fun seamlessCanvas =>
                                bind (generateTilePreview R seamlessCanvas
                                        tileFormat markSeams)
                                  (fun previewCanvas =>
                                     ret (seamlessCanvas, previewCanvas))))))
              w)
    as (h1 & w1 & E1 & K1 & L1 & V1 & W1 & H1').
  rewrite E1. clear E1.
  destruct (cropStage_yields R h1 crop w1 V1 Ht Hb Hl Hr)
    as (h2 & w2 & E2 & K2 & L2 & V2 & W2 & H2); [lia..|].
  unfold bind at 1. rewrite E2. clear E2.
  rewrite W1 in W2. rewrite H1' in H2.
  destruct (averagingStage_yields R h2 averaging w2 V2)
    as (h3 & w3 & E3 & K3 & L3 & V3 & W3 & H3); [lia..|].
  unfold bind at 1. rewrite E3. clear E3.
  rewrite W2 in W3. rewrite H2 in H3.
  unfold bind at 1.
  rewrite generateSeamless_throws; [reflexivity|assumption|assumption|lia..].
Qed.

(** * App.tsx *)

(** X13. [handleFileChange] hands a selected file to the reader exactly
    when it is at most 10 * 1024 * 1024 bytes (the limit included) and its
    type starts with image/; it then stores the file and clears the error
    and the result.  A file it rejects changes nothing but the error
    message, the size being checked first, so the file, the preview and
    the result of an earlier upload stay; and without a selected file the
    state is left as it is. *)
Theorem file_is_read_iff_small_image (selected : App.File)
    (others : list App.File) (s : App.State) :
  (snd (App.handleFileChange (Some (selected :: others)) s) = Some selected
   <-> App.size selected <= 10485760 /\
       String.prefix "image/" (App.type selected) = true) /\
  (snd (App.handleFileChange (Some (selected :: others)) s) = Some selected ->
   fst (App.handleFileChange (Some (selected :: others)) s)
   = App.setResult None (App.setError None (App.setFile (Some selected) s))) /\
  (snd (App.handleFileChange (Some (selected :: others)) s) <> Some selected ->
   fst (App.handleFileChange (Some (selected :: others)) s)
   = App.setError
       (Some (if 10485760 <? App.size selected
              then "File size exceeds 10MB limit."%string
              else "Please select a valid image file."%string)) s) /\
  App.handleFileChange None s = (s, None) /\
  App.handleFileChange (Some []) s = (s, None).
Proof.
  unfold App.handleFileChange.
  change App.sizeLimit with 10485760.
  destruct (Z.ltb_spec 10485760 (App.size selected)) as [Hbig|Hsmall];
    [|destruct (String.prefix "image/" (App.type selected)) eqn:P];
    cbn [negb fst snd].
  - split; [split; [discriminate|intros [H _]; lia]|].
    split; [discriminate|]. split; [reflexivity|]. split; reflexivity.
  - split; [split; [intros _; split; [exact Hsmall|reflexivity]|reflexivity]|].
    split; [reflexivity|]. split; [congruence|]. split; reflexivity.
  - split; [split; [discriminate|intros [_ H]; discriminate]|].
    split; [discriminate|]. split; [reflexivity|]. split; reflexivity.
Qed.



(** X15. A click on the Generate button does nothing while the button is
    disabled, that is while a run is in progress or no file is stored: the
    state stays as it is and no message is set.  A click on the enabled
    button is a call of the handler with its callback run to the end, and
    it always ends with [isProcessing] false.  With a missing or empty
    preview, which is the state between the first accepted file and the
    arrival of its data URL, nothing is started and only the message
    "Please upload an image first." is set.  With a preview the click
    passes it to [processTexture]: when the promise is resolved the result
    is stored and no error is shown; when it is rejected, because the image
    does not load or a canvas call throws, the one generic error message is
    shown and the result of an earlier run is kept beside it. *)
Theorem click_always_ends_processing R (rv : nat -> Q)
    (encode : canvas -> OutputFormat -> option Q -> string)
    (loadImage : string -> option image) (s : App.State) (w : world) :
  (App.isProcessing s = true \/ App.file s = None ->
   App.click R rv encode loadImage s w = s) /\
  (App.isProcessing s = false -> App.file s <> None ->
   App.click R rv encode loadImage s w
   = App.generate R rv encode loadImage s w /\
   App.isProcessing (App.click R rv encode loadImage s w) = false /\
   (App.missing (App.filePreview s) = true ->
    App.click R rv encode loadImage s w
    = App.setError (Some "Please upload an image first."%string) s) /\
   (App.missing (App.filePreview s) = false ->
    exists job,
      snd (App.handleProcess s) = Some job /\
      Some (App.imageSrc job) = App.filePreview s /\
      match App.runJob R rv encode loadImage job w with
      | App.Resolved res =>
          App.result (App.click R rv encode loadImage s w) = Some res /\
          App.error (App.click R rv encode loadImage s w) = None
      | App.Rejected =>
          App.result (App.click R rv encode loadImage s w) = App.result s /\
          App.error (App.click R rv encode loadImage s w)
          = Some "An error occurred while processing the image."%string
      end)).
Proof.
  unfold App.click, App.disabled. split.
  - intros [H|H]; rewrite H; [reflexivity|].
    rewrite Bool.orb_true_r. reflexivity.
  - intros Hp Hf. rewrite Hp.
    destruct (App.file s) as [f|] eqn:Ef; [|congruence].
    cbn [orb]. split; [reflexivity|].
    unfold App.generate, App.handleProcess. rewrite Ef.
    destruct (App.filePreview s) as [src|].
    + destruct src as [|a src']; cbn [App.missing snd fst].
      * split; [exact Hp|]. split; [reflexivity|discriminate].
      * split; [reflexivity|]. split; [discriminate|].
        intros _. eexists. split; [reflexivity|]. split; [reflexivity|].
        unfold App.onSettled.
        destruct (App.runJob _ _ _ _ _ _); split; reflexivity.
    + cbn [App.missing]. split; [exact Hp|].
      split; [reflexivity|discriminate].
Qed.

(** X16. An upload that the crop leaves one pixel wide or one pixel high
    cannot be processed with the method the component starts with, nor
    with any method but MIRRORED: for every rasteriser, every random
    draws and every averaging, preview and output setting, the handler of
    Generate ends with the generic error message, no new result, and
    [isProcessing] false, because [processTexture] throws
    InvalidStateError. *)
Theorem thin_upload_ends_in_error R (rv : nat -> Q)
    (encode : canvas -> OutputFormat -> option Q -> string)
    (loadImage : string -> option image) (s : App.State) (w : world)
    (uploaded : App.File) (src : string) (img : image) :
  App.file s = Some uploaded -> App.filePreview s = Some src ->
  src <> EmptyString -> loadImage src = Some img ->
  App.method s <> MIRRORED ->
  0 <= top (App.crop s) -> 0 <= bottom (App.crop s) ->
  0 <= left (App.crop s) -> 0 <= right (App.crop s) ->
  1 <= naturalWidth img - left (App.crop s) - right (App.crop s) ->
  1 <= naturalHeight img - top (App.crop s) - bottom (App.crop s) ->
  naturalWidth img - left (App.crop s) - right (App.crop s) = 1 \/
  naturalHeight img - top (App.crop s) - bottom (App.crop s) = 1 ->
  App.error (App.generate R rv encode loadImage s w)
  = Some "An error occurred while processing the image."%string /\
  App.result (App.generate R rv encode loadImage s w) = App.result s /\
  App.isProcessing (App.generate R rv encode loadImage s w) = false.
Proof.
  intros Hfile Hprev Hsrc Hload Hm Ht Hb Hl Hr Hw Hh H1.
  unfold App.generate, App.handleProcess. rewrite Hprev, Hfile.
  destruct src as [|a src']; [congruence|].
  cbn [App.missing]. unfold App.runJob.
  cbn [App.imageSrc App.jobMethod App.jobTileFormat App.jobMarkSeams
       App.jobCrop App.jobAveraging App.jobFormat App.jobQuality].
  rewrite Hload.
  rewrite processTexture_throws_thin by assumption.
  repeat split.
Qed.

Lemma thin_upload_ends_in_error_witness :
  App.file (App.setFilePreview (Some photoUrl)
              (App.setFile (Some photo) App.initial)) = Some photo /\
  App.filePreview (App.setFilePreview (Some photoUrl)
                     (App.setFile (Some photo) App.initial)) = Some photoUrl /\
  photoUrl <> EmptyString /\
  (fun _ : string => Some thinImage) photoUrl = Some thinImage /\
  App.method App.initial <> MIRRORED /\
  0 <= top (App.crop App.initial) /\ 0 <= bottom (App.crop App.initial) /\
  0 <= left (App.crop App.initial) /\ 0 <= right (App.crop App.initial) /\
  1 <= naturalWidth thinImage - 0 - 0 /\
  1 <= naturalHeight thinImage - 0 - 0 /\
  (naturalWidth thinImage - 0 - 0 = 1 \/ naturalHeight thinImage - 0 - 0 = 1) /\
  App.error
    (App.generate referenceRasteriser someDraws emptyEncoder
       (fun _ => Some thinImage)
       (App.setFilePreview (Some photoUrl)
          (App.setFile (Some photo) App.initial)) (World [] 0))
  = Some "An error occurred while processing the image."%string /\
  App.result
    (App.generate referenceRasteriser someDraws emptyEncoder
       (fun _ => Some thinImage)
       (App.setFilePreview (Some photoUrl)
          (App.setFile (Some photo) App.initial)) (World [] 0))
  = None /\
  App.isProcessing
    (App.generate referenceRasteriser someDraws emptyEncoder
       (fun _ => Some thinImage)
       (App.setFilePreview (Some photoUrl)
          (App.setFile (Some photo) App.initial)) (World [] 0))
  = false.
Proof.
  split; [reflexivity|]. split; [reflexivity|]. split; [discriminate|].
  split; [reflexivity|]. split; [discriminate|].
  split; [cbn; lia|]. split; [cbn; lia|]. split; [cbn; lia|].
  split; [cbn; lia|]. split; [cbn; lia|]. split; [cbn; lia|].
  split; [left; reflexivity|].
  apply (thin_upload_ends_in_error referenceRasteriser someDraws emptyEncoder
           (fun _ => Some thinImage)
           (App.setFilePreview (Some photoUrl)
              (App.setFile (Some photo) App.initial)) (World [] 0)
           photo photoUrl thinImage).
  - reflexivity.
  - reflexivity.
  - discriminate.
  - reflexivity.
  - discriminate.
  - cbn; lia.
  - cbn; lia.
  - cbn; lia.
  - cbn; lia.
  - cbn; lia.
  - cbn; lia.
  - left; reflexivity.
Defined.

(** ** Opaque surfaces *)





(** ** Mirrored textures in the preview *)

(** X18. The preview of a Mirrored texture shows no seam: in the preview
    without markers of the output of [generateMirrored], the two pixels on
    either side of every boundary between two cells are equal, across the
    vertical boundaries and across the horizontal ones. *)
Theorem mirrored_preview_has_no_seam R (srcCanvas : handle)
    (tileFormat : TileFormat) (w : world) :
  (srcCanvas < length (canvases w))%nat ->
  1 <= width (lookup srcCanvas w) -> 1 <= height (lookup srcCanvas w) ->
  exists out w',
    bind (generateMirrored R srcCanvas)
      (fun seamlessCanvas =>
         generateTilePreview R seamlessCanvas tileFormat false) w
    = Ok out w' /\
    (forall r c y,
       0 <= r < tileNumber tileFormat -> 0 <= c -> c + 1 < tileNumber tileFormat ->
       0 <= y < height (lookup srcCanvas w) ->
       getPixel (lookup out w')
         (c * width (lookup srcCanvas w) + (width (lookup srcCanvas w) - 1))
         (r * height (lookup srcCanvas w) + y)
       = getPixel (lookup out w')
           ((c + 1) * width (lookup srcCanvas w) + 0)
           (r * height (lookup srcCanvas w) + y)) /\
    (forall r c x,
       0 <= c < tileNumber tileFormat -> 0 <= r -> r + 1 < tileNumber tileFormat ->
       0 <= x < width (lookup srcCanvas w) ->
       getPixel (lookup out w')
         (c * width (lookup srcCanvas w) + x)
         (r * height (lookup srcCanvas w) + (height (lookup srcCanvas w) - 1))
       = getPixel (lookup out w')
           (c * width (lookup srcCanvas w) + x)
           ((r + 1) * height (lookup srcCanvas w) + 0)).
Proof.
  destruct w as [cs n]. cbn [canvases].
  change (lookup srcCanvas (World cs n))
    with (nth srcCanvas cs (blankCanvas 0 0)).
  set (src := nth srcCanvas cs (blankCanvas 0 0)).
  intros Hs Hw Hh.
  rewrite run_mirrored by assumption. fold src.
  set (m := mirroredCanvas R src).
  assert (Em : nth (length cs + 0) (cs ++ [m]) (blankCanvas 0 0) = m)
    by (rewrite app_nth2 by lia;
        replace (length cs + 0 - length cs)%nat with 0%nat by lia;
        reflexivity).
  rewrite <- (bind_ret_r (generateTilePreview R _ tileFormat false)).
  rewrite run_tilePreview
    by (rewrite ?Em, ?length_app; cbn [length]; first [assumption | lia]).
  rewrite Em.
  eexists. eexists. split; [reflexivity|].
  rewrite lookup_new. cbn [nth].
  change (width m) with (width src). change (height m) with (height src).
  split.
  - intros r c y Hr Hc0 Hc1 Hy.
    change (width src) with (width m). change (height src) with (height m).
    rewrite !bits_preview by (cbn; lia).
    unfold m. change (width (mirroredCanvas R src)) with (width src).
    apply eq_sym. apply mirrored_columns; assumption.
  - intros r c x Hc Hr0 Hr1 Hx.
    change (width src) with (width m). change (height src) with (height m).
    rewrite !bits_preview by (cbn; lia).
    unfold m. change (height (mirroredCanvas R src)) with (height src).
    apply eq_sym. apply mirrored_rows; assumption.
Qed.

Lemma mirrored_preview_has_no_seam_witness :
  (0 < length (canvases (gridWorld 3 4)))%nat /\
  1 <= width (lookup 0%nat (gridWorld 3 4)) /\
  1 <= height (lookup 0%nat (gridWorld 3 4)) /\
  exists out w',
    bind (generateMirrored referenceRasteriser 0%nat)
      (fun seamlessCanvas =>
         generateTilePreview referenceRasteriser seamlessCanvas TWO false)
      (gridWorld 3 4)
    = Ok out w' /\
    (forall r c y,
       0 <= r < 2 -> 0 <= c -> c + 1 < 2 -> 0 <= y < 4 ->
       getPixel (lookup out w') (c * 3 + (3 - 1)) (r * 4 + y)
       = getPixel (lookup out w') ((c + 1) * 3 + 0) (r * 4 + y)) /\
    (forall r c x,
       0 <= c < 2 -> 0 <= r -> r + 1 < 2 -> 0 <= x < 3 ->
       getPixel (lookup out w') (c * 3 + x) (r * 4 + (4 - 1))
       = getPixel (lookup out w') (c * 3 + x) ((r + 1) * 4 + 0)).
Proof.
  split; [cbn; lia|]. split; [cbn; lia|]. split; [cbn; lia|].
  apply (mirrored_preview_has_no_seam referenceRasteriser 0%nat TWO
           (gridWorld 3 4)); cbn; lia.
Defined.

(** ** generateMirrored: what a quadrant shows *)

Lemma axisCover_half_inside (n x : Z) :
  0 < n -> 0 <= x -> 2 * (x + 1) <= n ->
  (axisCover 1 0 0 (inject_Z n) 0 (inject_Z n / 2) n x == 1)%Q.
Proof.
  intros Hn Hx0 Hx. pose proof (inject_pos _ Hn) as Q.
  unfold axisCover, clipLo, clipHi.
  destruct (Qle_bool _ _) eqn:C.
  - apply Qle_bool_iff in C. exfalso. revert C.
    repeat case_minmax; intros C; lra.
  - clear C.
    assert (E0 : (destOf 0 (inject_Z n) 0 (inject_Z n / 2) (Qmax 0 0) == 0)%Q).
    { unfold destOf. rewrite Q.max_id. field. lra. }
    assert (E1 : (destOf 0 (inject_Z n) 0 (inject_Z n / 2)
                    (Qmin (0 + inject_Z n) (inject_Z n)) == inject_Z n / 2)%Q).
    { unfold destOf. rewrite Q.min_l by lra. field. lra. }
    inQ Hx0. inQ Hx. inQ Hx.
    apply span_one.
    + unfold deviceLo. rewrite E0, E1. nodiv. minmax.
    + unfold deviceHi. rewrite E0, E1. nodiv. minmax.
Qed.

Lemma Qred_inject (z : Z) : Qred (inject_Z z) = inject_Z z.
Proof. apply Qred_identity. cbn. apply Z.gcd_1_r. Qed.

Lemma quarter_is_half_scale R src (x y : Z) :
  0 <= x -> 2 * (x + 1) <= width src ->
  0 <= y -> 2 * (y + 1) <= height src ->
  quarterLayer R src identity x y
  = resample R (width src) (height src) (bits src)
      (inject_Z (2 * x + 1)) (inject_Z (2 * y + 1)) 2 2.
Proof.
  intros Hx0 Hx Hy0 Hy.
  assert (Qw : (0 < inject_Z (width src))%Q) by (apply inject_pos; lia).
  assert (Qh : (0 < inject_Z (height src))%Q) by (apply inject_pos; lia).
  unfold quarterLayer, layerOfImage.
  rewrite shade_one.
  2:{ unfold imageCover.
      rewrite !Qeq_bool_false_pos by assumption. cbn [orb identity ma md me mf].
      rewrite !axisCover_half_inside by lia. reflexivity. }
  cbn [identity ma md me mf].
  rewrite (sampleImage_comp R _ _ _ _ _ _ _
             (inject_Z (2 * x + 1)) (inject_Z (2 * y + 1)) 2 2).
  - unfold sampleImage.
    change (Qeq_bool 2 1) with false. cbn [andb].
    rewrite !Qred_inject. reflexivity.
  - unfold axisSource, userCentre. goalQ. field. lra.
  - unfold axisSource, userCentre. goalQ. field. lra.
  - unfold axisScale. rewrite Qabs_pos; [field; lra|].
    apply Qlt_le_weak. apply Qlt_shift_div_l; [nodiv; lra|lra].
  - unfold axisScale. rewrite Qabs_pos; [field; lra|].
    apply Qlt_le_weak. apply Qlt_shift_div_l; [nodiv; lra|lra].
Qed.

(** X19. The top left quadrant of the Mirrored output is the input at
    half scale: where 2 (x + 1) <= W and 2 (y + 1) <= H, the output pixel
    (x,y) is what the resampling filter of the browser makes of the input
    around the point (2x + 1, 2y + 1), the common corner of the four source
    pixels (2x..2x+1, 2y..2y+1), at two source pixels for each output
    pixel; by the symmetry of the output the other quadrants are its mirror
    images. *)
Theorem mirrored_quadrant_is_half_scale R (srcCanvas : handle) (w : world) :
  (srcCanvas < length (canvases w))%nat ->
  1 <= width (lookup srcCanvas w) -> 1 <= height (lookup srcCanvas w) ->
  exists out w',
    generateMirrored R srcCanvas w = Ok out w' /\
    forall x y,
      0 <= x -> 2 * (x + 1) <= width (lookup srcCanvas w) ->
      0 <= y -> 2 * (y + 1) <= height (lookup srcCanvas w) ->
      getPixel (lookup out w') x y
      = resample R (width (lookup srcCanvas w)) (height (lookup srcCanvas w))
          (bits (lookup srcCanvas w))
          (inject_Z (2 * x + 1)) (inject_Z (2 * y + 1)) 2 2.
Proof.
  destruct w as [cs n]. cbn [canvases].
  change (lookup srcCanvas (World cs n))
    with (nth srcCanvas cs (blankCanvas 0 0)).
  set (src := nth srcCanvas cs (blankCanvas 0 0)).
  intros Hs Hw Hh.
  rewrite <- (bind_ret_r (generateMirrored R srcCanvas)).
  rewrite run_mirrored by assumption. fold src.
  eexists. eexists. split; [reflexivity|].
  rewrite lookup_new. cbn [nth].
  intros x y Hx0 Hx Hy0 Hy.
  rewrite getPixel_inside by (cbn; lia).
  rewrite (bits_mirrored R src Hw Hh) by lia.
  rewrite !(quarter_outside_x R src Hw (width src - 1 - x)) by lia.
  rewrite !(quarter_outside_y R src Hh _ (height src - 1 - y)) by lia.
  rewrite ?over_transparent_l, ?over_transparent_r.
  apply quarter_is_half_scale; assumption.
Qed.

Lemma mirrored_quadrant_is_half_scale_witness :
  (0 < length (canvases (gridWorld 4 4)))%nat /\
  1 <= width (lookup 0%nat (gridWorld 4 4)) /\
  1 <= height (lookup 0%nat (gridWorld 4 4)) /\
  exists out w',
    generateMirrored referenceRasteriser 0%nat (gridWorld 4 4) = Ok out w' /\
    forall x y,
      0 <= x -> 2 * (x + 1) <= 4 -> 0 <= y -> 2 * (y + 1) <= 4 ->
      getPixel (lookup out w') x y
      = nearest 4 4 gridPixel (inject_Z (2 * x + 1)) (inject_Z (2 * y + 1)) 2 2.
Proof.
  split; [cbn; lia|]. split; [cbn; lia|]. split; [cbn; lia|].
  apply (mirrored_quadrant_is_half_scale referenceRasteriser 0%nat
           (gridWorld 4 4)); cbn; lia.
Defined.

(** ** generatePatchBased on an opaque surface *)

(** X20. The PatchBased strategy never makes an opaque image transparent:
    on a surface of at least 5 pixels each way, odd sizes included, whose
    pixels are all opaque, every pixel of the output is opaque for all
    random draws, since the copy of the source is drawn first and
    everything else is drawn over it. *)
Theorem patchBased_keeps_surface_opaque R (rv : nat -> Q)
    (srcCanvas : handle) (w : world) :
  (forall i, (0 <= rv i /\ rv i < 1)%Q) ->
  (srcCanvas < length (canvases w))%nat ->
  5 <= width (lookup srcCanvas w) -> 5 <= height (lookup srcCanvas w) ->
  (forall x y,
     0 <= x < width (lookup srcCanvas w) ->
     0 <= y < height (lookup srcCanvas w) ->
     opaque (getPixel (lookup srcCanvas w) x y)) ->
  exists out w',
    generatePatchBased R rv srcCanvas w = Ok out w' /\
    forall x y,
      0 <= x < width (lookup srcCanvas w) ->
      0 <= y < height (lookup srcCanvas w) ->
      opaque (getPixel (lookup out w') x y).
Proof.
  destruct w as [cs n]. cbn [canvases].
  change (lookup srcCanvas (World cs n))
    with (nth srcCanvas cs (blankCanvas 0 0)).
  set (src := nth srcCanvas cs (blankCanvas 0 0)).
  intros Hrv Hs Hw Hh Hop.
  destruct (run_patchBased_keeps R rv Hrv
              (fun c => width c = width src /\ height c = height src /\
                        forall x y, 0 <= x < width src -> 0 <= y < height src ->
                                    opaque (bits c x y))
              srcCanvas cs n Hs Hw Hh)
    as (cs' & E & W & H & O).
  - fold src. split; [reflexivity|]. split; [reflexivity|].
    intros x y Hx Hy.
    rewrite bits_drawWhole_copy by (assumption || reflexivity).
    unfold blankCanvas, blank. cbn [bits]. rewrite over_transparent_r.
    rewrite <- (getPixel_inside src) by assumption. apply Hop; assumption.
  - fold src. intros c Tc (Wc & Hc & Oc).
    split; [exact Wc|]. split; [exact Hc|].
    intros x y Hx Hy. unfold initBase, drawWhole, drawPart.
    apply paintLayer_keeps_opaque.
    + rewrite Tc. exact plain_default.
    + apply Oc; assumption.
  - fold src. intros k c Tc (Wc & Hc & Oc).
    split; [exact Wc|]. split; [exact Hc|].
    intros x y Hx Hy. unfold pasteAt, paste, drawWhole, drawPart.
    apply paintLayer_keeps_opaque.
    + cbn [setState state]. rewrite Tc. exact plain_default.
    + cbn [setState bits]. apply Oc; assumption.
  - exists (length cs), (World (cs ++ cs') (150 + n)).
    split; [exact E|].
    intros x y Hx Hy. rewrite lookup_first.
    rewrite getPixel_inside by (rewrite ?W, ?H; assumption).
    apply O; assumption.
Qed.

Lemma patchBased_keeps_surface_opaque_witness :
  (forall i, (0 <= someDraws i /\ someDraws i < 1)%Q) /\
  (0 < length (canvases (gridWorld 7 5)))%nat /\
  5 <= width (lookup 0%nat (gridWorld 7 5)) /\
  5 <= height (lookup 0%nat (gridWorld 7 5)) /\
  (forall x y,
     0 <= x < width (lookup 0%nat (gridWorld 7 5)) ->
     0 <= y < height (lookup 0%nat (gridWorld 7 5)) ->
     opaque (getPixel (lookup 0%nat (gridWorld 7 5)) x y)) /\
  exists out w',
    generatePatchBased referenceRasteriser someDraws 0%nat (gridWorld 7 5)
    = Ok out w' /\
    forall x y, 0 <= x < 7 -> 0 <= y < 5 -> opaque (getPixel (lookup out w') x y).
Proof.
  assert (G : forall x y,
             0 <= x < width (lookup 0%nat (gridWorld 7 5)) ->
             0 <= y < height (lookup 0%nat (gridWorld 7 5)) ->
             opaque (getPixel (lookup 0%nat (gridWorld 7 5)) x y)).
  { intros x y Hx Hy. rewrite getPixel_inside by assumption. reflexivity. }
  split; [exact someDraws_range|].
  split; [cbn; lia|]. split; [cbn; lia|]. split; [cbn; lia|].
  split; [exact G|].
  apply (patchBased_keeps_surface_opaque referenceRasteriser someDraws 0%nat
           (gridWorld 7 5)).
  - exact someDraws_range.
  - cbn; lia.
  - cbn; lia.
  - cbn; lia.
  - exact G.
Defined.

(** ** generateScattered on odd sizes *)

Lemma shiftCoord_odd_middle (a : Z) : 0 <= a -> shiftCoord (2 * a + 1) a = None.
Proof.
  intros Ha. unfold shiftCoord. rewrite round_half.
  replace ((2 * a + 1 + 1) / 2) with (a + 1)
    by (apply Z.div_unique with (r := 0); lia).
  destruct (Z.ltb_spec a (2 * a + 1 - (a + 1))); [lia|].
  destruct (Z.leb_spec (a + 1) a); [lia|]. reflexivity.
Qed.

(** X21. On a surface of odd width the Scattered output has holes: the
    quadrant copies are Math.round(W/2) wide, so none of them writes the
    middle column, and where the pasted patch does not reach, as in the top
    row and the bottom row of a surface of at least 7 pixels each way, the
    middle pixel stays fully transparent whatever the input shows;
    likewise for the middle row of a surface of odd height. *)
Theorem scattered_odd_size_leaves_holes R (srcCanvas : handle) (w : world) :
  (srcCanvas < length (canvases w))%nat ->
  7 <= width (lookup srcCanvas w) -> 7 <= height (lookup srcCanvas w) ->
  exists out w',
    generateScattered R srcCanvas w = Ok out w' /\
    (forall a,
       width (lookup srcCanvas w) = 2 * a + 1 ->
       getPixel (lookup out w') a 0 = transparent /\
       getPixel (lookup out w') a (height (lookup srcCanvas w) - 1)
       = transparent) /\
    (forall b,
       height (lookup srcCanvas w) = 2 * b + 1 ->
       getPixel (lookup out w') 0 b = transparent /\
       getPixel (lookup out w') (width (lookup srcCanvas w) - 1) b
       = transparent).
Proof.
  destruct w as [cs n]. cbn [canvases].
  change (lookup srcCanvas (World cs n))
    with (nth srcCanvas cs (blankCanvas 0 0)).
  set (src := nth srcCanvas cs (blankCanvas 0 0)).
  intros Hs Hw Hh.
  rewrite <- (bind_ret_r (generateScattered R srcCanvas)).
  rewrite run_scattered by (fold src; first [assumption | lia]).
  fold src.
  eexists. eexists. split; [reflexivity|].
  rewrite lookup_new. cbn [nth].
  split.
  - intros a Ea.
    assert (Ha : 0 <= a < width src) by lia.
    rewrite !getPixel_inside by (cbn; lia).
    rewrite !bits_scattered_border
      by (try assumption; unfold onBorder; lia).
    unfold halfShift. rewrite Ea, shiftCoord_odd_middle by lia.
    split; reflexivity.
  - intros b Eb.
    assert (Hb : 0 <= b < height src) by lia.
    rewrite !getPixel_inside by (cbn; lia).
    rewrite !bits_scattered_border
      by (try assumption; unfold onBorder; lia).
    unfold halfShift. rewrite Eb, shiftCoord_odd_middle by lia.
    split; destruct (shiftCoord _ _); reflexivity.
Qed.

Lemma scattered_odd_size_leaves_holes_witness :
  (0 < length (canvases (gridWorld 9 7)))%nat /\
  7 <= width (lookup 0%nat (gridWorld 9 7)) /\
  7 <= height (lookup 0%nat (gridWorld 9 7)) /\
  exists out w',
    generateScattered referenceRasteriser 0%nat (gridWorld 9 7) = Ok out w' /\
    (forall a,
       9 = 2 * a + 1 ->
       getPixel (lookup out w') a 0 = transparent /\
       getPixel (lookup out w') a (7 - 1) = transparent) /\
    (forall b,
       7 = 2 * b + 1 ->
       getPixel (lookup out w') 0 b = transparent /\
       getPixel (lookup out w') (9 - 1) b = transparent).
Proof.
  split; [cbn; lia|]. split; [cbn; lia|]. split; [cbn; lia|].
  apply (scattered_odd_size_leaves_holes referenceRasteriser 0%nat
           (gridWorld 9 7)); cbn; lia.
Defined.

(** ** App.tsx: the crop inputs and a whole run *)

Lemma cropValue_nonneg (parsed : option Z) : 0 <= App.cropValue parsed.
Proof. unfold App.cropValue. lia. Qed.

(** X22. The crop inputs never store a negative crop: whatever is typed
    into them, in whatever order (numbers, negative numbers, text that
    [parseInt] cannot read), all four crop values of the state stay at
    least 0 if they were so before, as they are initially, and nothing but
    the crop changes. *)
Theorem crop_inputs_never_go_negative
    (inputs : list (App.Side * option Z)) (s : App.State) :
  0 <= top (App.crop s) -> 0 <= bottom (App.crop s) ->
  0 <= left (App.crop s) -> 0 <= right (App.crop s) ->
  let s' := fold_left (fun st i => App.handleCropInput (fst i) (snd i) st)
              inputs s in
  (0 <= top (App.crop s') /\ 0 <= bottom (App.crop s') /\
   0 <= left (App.crop s') /\ 0 <= right (App.crop s')) /\
  s' = App.setCrop (App.crop s') s.
Proof.
  revert s. induction inputs as [|[side parsed] inputs IH];
    intros s Ht Hb Hl Hr; cbn [fold_left fst snd].
  - split; [auto|]. destruct s; reflexivity.
  - pose proof (cropValue_nonneg parsed) as V.
    destruct (IH (App.handleCropInput side parsed s)) as [N E].
    + destruct side; cbn; assumption.
    + destruct side; cbn; assumption.
    + destruct side; cbn; assumption.
    + destruct side; cbn; assumption.
    + split; [exact N|].
      rewrite E at 1. unfold App.handleCropInput, App.setCrop. cbn.
      reflexivity.
Qed.

Lemma crop_inputs_never_go_negative_witness :
  0 <= top (App.crop App.initial) /\ 0 <= bottom (App.crop App.initial) /\
  0 <= left (App.crop App.initial) /\ 0 <= right (App.crop App.initial) /\
  let s' := fold_left (fun st i => App.handleCropInput (fst i) (snd i) st)
              [(App.Left, Some (-4)); (App.Top, None); (App.Right, Some 3)]
              App.initial in
  (0 <= top (App.crop s') /\ 0 <= bottom (App.crop s') /\
   0 <= left (App.crop s') /\ 0 <= right (App.crop s')) /\
  s' = App.setCrop (App.crop s') App.initial.
Proof.
  split; [cbn; lia|]. split; [cbn; lia|]. split; [cbn; lia|].
  split; [cbn; lia|].
  apply (crop_inputs_never_go_negative
           [(App.Left, Some (-4)); (App.Top, None); (App.Right, Some 3)]
           App.initial); cbn; lia.
Defined.

(** X23. A whole run of the component: after a file has been accepted and
    its data URL has arrived, the handler of Generate passes that data URL
    and the settings of the state to [processTexture]; if the image loads and
    what the crop leaves of it has the smallest side the method needs, the
    run ends without an error, with [isProcessing] false and with a result
    whose width and height are the cropped width and height. *)
Theorem upload_then_generate_shows_result R (rv : nat -> Q)
    (encode : canvas -> OutputFormat -> option Q -> string)
    (loadImage : string -> option image) (s0 : App.State) (w : world)
    (selected : App.File) (others : list App.File) (src : string)
    (img : image) :
  App.size selected <= 10485760 ->
  String.prefix "image/" (App.type selected) = true ->
  src <> EmptyString -> loadImage src = Some img ->
  (forall i, (0 <= rv i /\ rv i < 1)%Q) ->
  0 <= top (App.crop s0) -> 0 <= bottom (App.crop s0) ->
  0 <= left (App.crop s0) -> 0 <= right (App.crop s0) ->
  minSide (App.method s0)
  <= naturalWidth img - left (App.crop s0) - right (App.crop s0) ->
  minSide (App.method s0)
  <= naturalHeight img - top (App.crop s0) - bottom (App.crop s0) ->
  let s := App.generate R rv encode loadImage
             (App.onReaderLoad (Some src)
                (fst (App.handleFileChange (Some (selected :: others)) s0)))
             w in
  App.file s = Some selected /\
  App.filePreview s = Some src /\
  App.isProcessing s = false /\
  App.error s = None /\
  exists res,
    App.result s = Some res /\
    resultWidth res
    = naturalWidth img - left (App.crop s0) - right (App.crop s0) /\
    resultHeight res
    = naturalHeight img - top (App.crop s0) - bottom (App.crop s0).
Proof.
  intros Hsize Htype Hsrc Hload Hrv Ht Hb Hl Hr Hw Hh.
  unfold App.handleFileChange. change App.sizeLimit with 10485760.
  replace (10485760 <? App.size selected) with false
    by (symmetry; apply Z.ltb_ge; exact Hsize).
  rewrite Htype. cbn [negb fst].
  unfold App.generate, App.handleProcess, App.onReaderLoad.
  cbn [App.filePreview App.file App.setFilePreview App.setResult
       App.setError App.setFile].
  destruct src as [|a src']; [congruence|].
  cbn [App.missing]. unfold App.runJob.
  cbn [App.imageSrc App.jobMethod App.jobTileFormat App.jobMarkSeams
       App.jobCrop App.jobAveraging App.jobFormat App.jobQuality
       App.method App.tileFormat App.markSeams App.crop App.averaging
       App.outFormat App.quality App.setFilePreview App.setResult
       App.setError App.setFile].
  rewrite Hload.
  destruct (renderTexture_sizes R rv img (App.method s0) (App.tileFormat s0)
              (App.markSeams s0) (App.crop s0) (App.averaging s0) w
              Hrv Ht Hb Hl Hr Hw Hh)
    as (sc & pc & w' & E & K & Ws & Hs & Wp & Hp).
  cbv zeta. unfold processTexture, bind, getCanvas, ret. rewrite E.
  cbn [fst snd]. unfold App.onSettled.
  cbn [App.file App.filePreview App.isProcessing App.error App.result
       App.setIsProcessing App.setResult App.setError].
  repeat (split; [reflexivity|]).
  eexists. split; [reflexivity|].
  cbn [resultWidth resultHeight]. split; assumption.
Qed.

Lemma upload_then_generate_shows_result_witness :
  App.size photo <= 10485760 /\
  String.prefix "image/" (App.type photo) = true /\
  photoUrl <> EmptyString /\
  (fun _ : string => Some (Image 9 7 gridPixel)) photoUrl
  = Some (Image 9 7 gridPixel) /\
  (forall i, (0 <= someDraws i /\ someDraws i < 1)%Q) /\
  0 <= top (App.crop App.initial) /\ 0 <= bottom (App.crop App.initial) /\
  0 <= left (App.crop App.initial) /\ 0 <= right (App.crop App.initial) /\
  minSide (App.method App.initial) <= 9 - 0 - 0 /\
  minSide (App.method App.initial) <= 7 - 0 - 0 /\
  let s := App.generate referenceRasteriser someDraws emptyEncoder
             (fun _ => Some (Image 9 7 gridPixel))
             (App.onReaderLoad (Some photoUrl)
                (fst (App.handleFileChange (Some [photo]) App.initial)))
             (World [] 0) in
  App.file s = Some photo /\
  App.filePreview s = Some photoUrl /\
  App.isProcessing s = false /\
  App.error s = None /\
  exists res,
    App.result s = Some res /\
    resultWidth res = 9 - 0 - 0 /\ resultHeight res = 7 - 0 - 0.
Proof.
  split; [cbn; lia|]. split; [reflexivity|]. split; [discriminate|].
  split; [reflexivity|]. split; [exact someDraws_range|].
  split; [cbn; lia|]. split; [cbn; lia|]. split; [cbn; lia|].
  split; [cbn; lia|]. split; [cbn; lia|]. split; [cbn; lia|].
  apply (upload_then_generate_shows_result referenceRasteriser someDraws
           emptyEncoder (fun _ => Some (Image 9 7 gridPixel)) App.initial
           (World [] 0) photo [] photoUrl (Image 9 7 gridPixel)).
  - cbn; lia.
  - reflexivity.
  - discriminate.
  - reflexivity.
  - exact someDraws_range.
  - cbn; lia.
  - cbn; lia.
  - cbn; lia.
  - cbn; lia.
  - cbn; lia.
  - cbn; lia.
Defined.
